(** * Hybrid retrieval and citation-safe answer composition

    A shallow embedding of the retrieval-augmented question answering
    service: [app/retriever.py] (tokenizer, TF-IDF index, score
    normalisation and fusion, top-k selection), [app/llm.py] (the call to
    the text generator), [app/agent.py] (routing, symbol extraction,
    answer composition and the citation sanitizer), [app/tools/prices.py]
    (the price tool) and the chunker of [app/ingest.py].

    Conventions of the embedding.
    - A Python [str] is a [string]; a character is the code point it
      denotes, so the model covers text over code points 0..255.  The
      character classes ([str.lower], [str.isspace], the regular
      expression class [\w]) are the ones Python uses on that range.
    - A Python [float] is a real number: arithmetic is exact, [math.log]
      is [ln] and [math.sqrt] is [sqrt].  Rounding is not modelled.
    - A Python [dict] is an association list in insertion order, which is
      the order Python iterates it in.
    - An exception is a value [Raise e] of the [result] type.
    - [numpy.argsort] and [rank_bm25.BM25Okapi] are third-party code: the
      definitions take them as arguments, and the theorems state what they
      assume about them. *)

From Stdlib Require Import String Ascii List Bool Arith ZArith Lia.
From Stdlib Require Import Reals Lra.
From Stdlib Require Import Permutation Sorted.
From Stdlib Require Import DecimalString.
Import ListNotations.

Open Scope string_scope.
Open Scope nat_scope.

(* ================================================================== *)
(** * Python primitives on strings *)

Module Py.

Definition ord (c : ascii) : nat := nat_of_ascii c.

(** [str.isspace] on one character. *)
Definition isspace (c : ascii) : bool :=
  let n := ord c in
  ((9 <=? n) && (n <=? 13)) || ((28 <=? n) && (n <=? 32))
  || (n =? 133) || (n =? 160).

(** [str.lower] on one character. *)
Definition lower_char (c : ascii) : ascii :=
  let n := ord c in
  if ((65 <=? n) && (n <=? 90))
     || ((192 <=? n) && (n <=? 222) && negb (n =? 215))
  then ascii_of_nat (n + 32) else c.

Fixpoint lower (s : string) : string :=
  match s with
  | EmptyString => EmptyString
  | String c r => String (lower_char c) (lower r)
  end.

(** The class [[a-z0-9]] of the tokenizer's pattern. *)
Definition is_lower_alnum (c : ascii) : bool :=
  let n := ord c in
  ((97 <=? n) && (n <=? 122)) || ((48 <=? n) && (n <=? 57)).

(** The class [\w] of [re] on text patterns: alphanumeric or underscore. *)
Definition is_word (c : ascii) : bool :=
  let n := ord c in
  ((48 <=? n) && (n <=? 57)) || ((65 <=? n) && (n <=? 90))
  || ((97 <=? n) && (n <=? 122)) || (n =? 95)
  || (n =? 170) || (n =? 178) || (n =? 179) || (n =? 181)
  || (n =? 185) || (n =? 186) || ((188 <=? n) && (n <=? 190))
  || ((192 <=? n) && (n <=? 214)) || ((216 <=? n) && (n <=? 246))
  || (248 <=? n).

(** [s[:n]] and [s[n:]] for [n >= 0]; both clamp at the end of [s]. *)
Fixpoint take (n : nat) (s : string) : string :=
  match n, s with
  | S n', String c r => String c (take n' r)
  | _, _ => EmptyString
  end.

Fixpoint drop (n : nat) (s : string) : string :=
  match n, s with
  | S n', String _ r => drop n' r
  | _, _ => s
  end.

Fixpoint lstrip (s : string) : string :=
  match s with
  | EmptyString => EmptyString
  | String c r => if isspace c then lstrip r else s
  end.

Fixpoint rstrip (s : string) : string :=
  match s with
  | EmptyString => EmptyString
  | String c r =>
      match rstrip r with
      | EmptyString => if isspace c then EmptyString else String c EmptyString
      | r' => String c r'
      end
  end.

Definition strip (s : string) : string := rstrip (lstrip s).

(** [sep.join(l)]. *)
Fixpoint join (sep : string) (l : list string) : string :=
  match l with
  | [] => EmptyString
  | x :: r =>
      match r with
      | [] => x
      | _ :: _ => x ++ sep ++ join sep r
      end
  end.

Definition startswith (p s : string) : bool := String.prefix p s.

(** [p in s] for strings: [p] occurs in [s] at some position. *)
Fixpoint contains (p s : string) : bool :=
  startswith p s
  || match s with
     | EmptyString => false
     | String _ r => contains p r
     end.

(** [x in l] for a list of strings. *)
Definition mem (x : string) (l : list string) : bool :=
  existsb (String.eqb x) l.

(** [str(n)] for an integer. *)
Definition str_of_int (n : Z) : string := NilZero.string_of_int (Z.to_int n).

(** [l[:k]] for any integer [k]: a negative bound counts from the end. *)
Definition slice_to {A : Type} (k : Z) (l : list A) : list A :=
  if (k <? 0)%Z
  then firstn (List.length l - Z.to_nat (- k)) l
  else firstn (Z.to_nat k) l.

End Py.

(** Exceptions: a computation returns a value or raises. *)
Inductive result (E A : Type) : Type :=
| Ok (a : A)
| Raise (e : E).
Arguments Ok {E A} a.
Arguments Raise {E A} e.

(* ================================================================== *)
(** * app/agent.py, the citation sanitizer *)

Module Sanitizer.

(** A match object of [re.finditer]: its span and its first group. *)
Record Match : Type := mkMatch {
  m_start : nat;
  m_end : nat;
  group1 : string
}.

(** The scanner for the pattern [\[([^\]]+)\]].  A match starts at an open
    bracket and runs to the first closing bracket after it, provided at
    least one character lies between them; the scan resumes after the
    closing bracket.  An open bracket directly followed by a closing one
    starts no match, and neither does one with no closing bracket after
    it. *)
Inductive scan_state : Type :=
| Outside
| Inside (start : nat) (inner : string).

Fixpoint scan (st : scan_state) (pos : nat) (s : string) : list Match :=
  match s with
  | EmptyString => []
  | String c r =>
      match st with
      | Outside =>
          if Ascii.eqb c "["%char
          then scan (Inside pos EmptyString) (S pos) r
          else scan Outside (S pos) r
      | Inside b inner =>
          if Ascii.eqb c "]"%char
          then match inner with
               | EmptyString => scan Outside (S pos) r
               | String _ _ => mkMatch b (S pos) inner :: scan Outside (S pos) r
               end
          else scan (Inside b (inner ++ String c EmptyString)) (S pos) r
      end
  end.

(** [list(re.finditer(r"\[([^\]]+)\]", text))]. *)
Definition finditer_bracketed (text : string) : list Match :=
  scan Outside 0 text.

(** The loop over [found].  The spans were computed on the text the
    function received, and each removal is applied to the current text.
    ([keep_spans] is written and never read, so it is left out.) *)
Fixpoint remove_invalid (allowed : list string) (found : list Match)
    (text : string) : string :=
  match found with
  | [] => text
  | m :: rest =>
      if Py.mem (group1 m) allowed
      then remove_invalid allowed rest text
      else remove_invalid allowed rest
             (Py.take (m_start m) text ++ Py.drop (m_end m) text)
  end.

Definition bracket (t : string) : string := "[" ++ t ++ "]".

(** Whether the pattern [\[(?:t1|...|tn)\]], every [ti] escaped, matches
    somewhere in [text].  With no tag the group is empty and the pattern
    is the two brackets. *)
Definition any_allowed (allowed : list string) (text : string) : bool :=
  match allowed with
  | [] => Py.contains "[]" text
  | _ :: _ => existsb (fun t => Py.contains (bracket t) text) allowed
  end.

Definition _clean_citations (text : string) (allowed_tags fallback_tags : list string)
    : string :=
  match text with
  | EmptyString => text
  | String _ _ =>
      let text1 := remove_invalid allowed_tags (finditer_bracketed text) text in
      if negb (any_allowed allowed_tags text1)
      then match fallback_tags with
           | [] => text1
           | _ :: _ =>
               Py.rstrip text1 ++ " " ++ Py.join " " (map bracket fallback_tags)
           end
      else text1
  end.

End Sanitizer.

(* ================================================================== *)
(** * app/retriever.py *)

Module Retriever.

Open Scope R_scope.

(** ** The tokenizer

    [re.findall(r"[a-z0-9]+(?:'[a-z0-9]+)?", text.lower())]: a token is a
    maximal run of lower-case letters and digits, extended by one
    apostrophe and a second run when the apostrophe is directly followed
    by one. *)
Inductive tok_state : Type :=
| Idle
| InWord (acc : string)
| AfterApostrophe (acc : string)
| InSuffix (acc : string).

Fixpoint tok_scan (st : tok_state) (s : string) : list string :=
  match s with
  | EmptyString =>
      match st with
      | Idle => []
      | InWord a | AfterApostrophe a | InSuffix a => [a]
      end
  | String c r =>
      let one := String c EmptyString in
      match st with
      | Idle =>
          if Py.is_lower_alnum c then tok_scan (InWord one) r
          else tok_scan Idle r
      | InWord a =>
          if Py.is_lower_alnum c then tok_scan (InWord (a ++ one)) r
          else if Ascii.eqb c "'"%char then tok_scan (AfterApostrophe a) r
          else a :: tok_scan Idle r
      | AfterApostrophe a =>
          if Py.is_lower_alnum c then tok_scan (InSuffix (a ++ "'" ++ one)) r
          else a :: tok_scan Idle r
      | InSuffix a =>
          if Py.is_lower_alnum c then tok_scan (InSuffix (a ++ one)) r
          else a :: tok_scan Idle r
      end
  end.

Definition tokenize (text : string) : list string :=
  tok_scan Idle (Py.lower text).

(** ** Dictionaries and counters *)

Definition dict (V : Type) : Type := list (string * V).

Fixpoint get {V : Type} (d : dict V) (k : string) : option V :=
  match d with
  | [] => None
  | (k', v) :: r => if String.eqb k' k then Some v else get r k
  end.

(** [c[k]] on a [Counter]: zero for a key it does not hold. *)
Definition count (c : dict nat) (k : string) : nat :=
  match get c k with
  | Some n => n
  | None => 0
  end.

(** [c[t] += 1] on a [Counter]. *)
Fixpoint incr (t : string) (c : dict nat) : dict nat :=
  match c with
  | [] => [(t, 1%nat)]
  | (k, n) :: r => if String.eqb k t then (k, S n) :: r else (k, n) :: incr t r
  end.

(** [c.update(ts)] for an iterable of terms, and [Counter(ts)]. *)
Definition update (c : dict nat) (ts : list string) : dict nat :=
  fold_left (fun c t => incr t c) ts c.

Definition Counter (ts : list string) : dict nat := update [] ts.

(** [set(toks)], iterated in some order; the counts built from it do not
    depend on the order. *)
Definition set_of (toks : list string) : list string :=
  nodup string_dec toks.

(** [sum(xs)]: from zero, left to right. *)
Definition sum (xs : list R) : R := fold_left Rplus xs 0.

(** [x or 1.0]. *)
Definition or_one (x : R) : R := if Req_dec_T x 0 then 1 else x.

(** ** The corpus *)

Record Chunk : Type := mkChunk {
  source : string;
  start : Z;
  end_ : Z;
  text : string
}.

(** One entry of the list [search] returns: the chunk's four fields and
    the three scores. *)
Record ScoredChunk : Type := mkScored {
  chunk : Chunk;
  score : R;
  bm25 : R;
  tfidf : R
}.

Record HybridRetriever : Type := mkRetriever {
  alpha : R;
  chunks : list Chunk;
  tokenized_corpus : list (list string);
  bm25_scorer : option (list string -> list R);
  vocab : dict nat;
  idf : dict R;
  doc_tfidf : list (dict R)
}.

(** ** [_build_tfidf] *)

Definition df_counter (tokenized : list (list string)) : dict nat :=
  fold_left (fun c toks => update c (set_of toks)) tokenized [].

Definition n_docs (tokenized : list (list string)) : nat :=
  Nat.max 1 (List.length tokenized).

Definition build_idf (tokenized : list (list string)) : dict R :=
  map (fun '(term, df) =>
         (term, ln (INR (n_docs tokenized + 1) / INR (df + 1)) + 1))
      (df_counter tokenized).

Fixpoint enumerate_from {A : Type} (i : nat) (l : list A) : list (A * nat) :=
  match l with
  | [] => []
  | x :: r => (x, i) :: enumerate_from (S i) r
  end.

Definition build_vocab (idf : dict R) : dict nat :=
  enumerate_from 0 (map fst idf).

(** The weights [(freq / len(toks)) * idf[term]] of the terms the index
    knows, in the order of [Counter(toks)]. *)
Definition weights (idf : dict R) (toks : list string) : dict R :=
  flat_map (fun '(term, freq) =>
              match get idf term with
              | Some w => [(term, INR freq / INR (List.length toks) * w)]
              | None => []
              end)
           (Counter toks).

(** Division of every weight by the Euclidean norm, a zero norm read as 1. *)
Definition l2_normalize (vec : dict R) : dict R :=
  let norm := or_one (sqrt (sum (map (fun kv => snd kv * snd kv) vec))) in
  map (fun '(k, v) => (k, v / norm)) vec.

Definition build_doc_tfidf (idf : dict R) (tokenized : list (list string))
    : list (dict R) :=
  map (fun toks => l2_normalize (weights idf toks)) tokenized.

(** ** [_tfidf_query] and [_cosine_sparse] *)

Definition _tfidf_query (self : HybridRetriever) (query : string) : dict R :=
  match tokenize query with
  | [] => []
  | toks => l2_normalize (weights (idf self) toks)
  end.

Definition dot (a b : dict R) : R :=
  fold_left (fun acc '(term, w) =>
               match get b term with
               | Some bw => acc + w * bw
               | None => acc
               end) a 0.

Definition _cosine_sparse (a b : dict R) : R :=
  match a, b with
  | [], _ | _, [] => 0
  | _, _ =>
      if (List.length b <? List.length a)%nat then dot b a else dot a b
  end.

(** ** [__init__] and [_load]

    [corpus_file] is the content of [data/index/corpus.jsonl], one chunk
    per line, or [None] when the file does not exist.  [BM25Okapi] is the
    constructor of the third-party scorer; applied to the tokenized corpus
    it gives the scorer's [get_scores]. *)
Definition _load (BM25Okapi : list (list string) -> list string -> list R)
    (alpha : R) (corpus_file : option (list Chunk)) : HybridRetriever :=
  match corpus_file with
  | None => mkRetriever alpha [] [] None [] [] []
  | Some chunks =>
      let tokenized := map (fun c => tokenize (text c)) chunks in
      let scorer :=
        match tokenized with
        | [] => None
        | _ :: _ => Some (BM25Okapi tokenized)
        end in
      let idf := build_idf tokenized in
      mkRetriever alpha chunks tokenized scorer (build_vocab idf) idf
        (build_doc_tfidf idf tokenized)
  end.

(** ** [search] *)

(** [np.min] and [np.max] of an array with first element [x]. *)
Definition arr_min (x : R) (xs : list R) : R := fold_left Rmin xs x.
Definition arr_max (x : R) (xs : list R) : R := fold_left Rmax xs x.

Definition epsilon : R := 1e-9.

Definition normalize (arr : list R) : list R :=
  match arr with
  | [] => arr
  | x :: xs =>
      let mn := arr_min x xs in
      let mx := arr_max x xs in
      if Rlt_dec (mx - mn) epsilon
      then map (fun _ => 0) arr
      else map (fun s => (s - mn) / (mx - mn)) arr
  end.

Definition zeros (n : nat) : list R := repeat 0 n.

Definition fuse (alpha : R) (bm25_n tfidf_n : list R) : list R :=
  map (fun '(b, t) => alpha * b + (1 - alpha) * t) (combine bm25_n tfidf_n).

Definition default_chunk : Chunk := mkChunk EmptyString 0 0 EmptyString.

(** The locals of [search], as functions of the retriever and the query.
    The sum of the two arrays is element by element; the two have the
    length of the corpus. *)
Definition bm25_scores (self : HybridRetriever) (query : string) : list R :=
  match bm25_scorer self with
  | Some get_scores => get_scores (tokenize query)
  | None => zeros (List.length (chunks self))
  end.

Definition tfidf_scores (self : HybridRetriever) (query : string) : list R :=
  map (_cosine_sparse (_tfidf_query self query)) (doc_tfidf self).

Definition bm25_n (self : HybridRetriever) (query : string) : list R :=
  normalize (bm25_scores self query).

Definition tfidf_n (self : HybridRetriever) (query : string) : list R :=
  normalize (tfidf_scores self query).

Definition hybrid (self : HybridRetriever) (query : string) : list R :=
  fuse (alpha self) (bm25_n self query) (tfidf_n self query).

(** [argsort] is [numpy.argsort] with its default arguments. *)
Definition search (argsort : list R -> list nat) (self : HybridRetriever)
    (query : string) (k : Z) : list ScoredChunk :=
  match chunks self with
  | [] => []
  | _ :: _ =>
      let idxs := Py.slice_to k (argsort (map Ropp (hybrid self query))) in
      map (fun i =>
             mkScored (nth i (chunks self) default_chunk)
                      (nth i (hybrid self query) 0)
                      (nth i (bm25_n self query) 0)
                      (nth i (tfidf_n self query) 0))
          idxs
  end.

End Retriever.

(* ================================================================== *)
(** * app/models.py *)

Module Models.

Record Citation : Type := mkCitation {
  source : string;
  start : Z;
  end_ : Z
}.

(** A value of the [extra] dictionary. *)
Inductive Any : Type :=
| AStr (s : string)
| AList (l : list string)
| ANone.

Record Metrics : Type := mkMetrics {
  latency_ms : R;
  retrieved_k : nat;
  route : string;
  extra : option (list (string * Any))
}.

Record AnswerResponse : Type := mkAnswer {
  answer : string;
  citations : list Citation;
  sources : list string;
  metrics : option Metrics
}.

End Models.

(* ================================================================== *)
(** * app/llm.py *)

Module Llm.

(** What a call can raise. *)
Inductive Exn : Type :=
| Timeout
| ConnectionError
| HTTPError (status : Z)
| JSONDecodeError
| RuntimeError (msg : string)
| AssertionError (msg : string)
| APIError (msg : string).

(** The reply to [requests.post]: the status code, and what
    [resp.json().get("message", {}).get("content")] evaluates to. *)
Record Response : Type := mkResponse {
  status_code : Z;
  message_content : result Exn (option string)
}.

(** The process environment and the two generation back ends. *)
Record Host : Type := mkHost {
  getenv : string -> option string;
  OpenAI_installed : bool;
  (** [requests.post(url, json={model, messages=[system, user], ...},
      timeout=120)] *)
  requests_post : string -> string -> string -> string -> result Exn Response;
  (** [OpenAI(api_key).chat.completions.create(model, messages=[system,
      user], ...)], down to [resp.choices[0].message.content] *)
  chat_completions_create :
    string -> string -> string -> string -> result Exn (option string)
}.

Definition getenv_default (h : Host) (name default : string) : string :=
  match getenv h name with
  | Some v => v
  | None => default
  end.

Definition provider (h : Host) : string :=
  Py.lower
    (getenv_default h "LLM_PROVIDER" (getenv_default h "OPENAI_PROVIDER" "ollama")).

Definition model_name (h : Host) : string :=
  if String.eqb (provider h) "ollama"
  then getenv_default h "LLM_MODEL" "llama3.2:3b"
  else getenv_default h "OPENAI_MODEL" "gpt-4o-mini".

(** [bool(os.getenv(name))]: set and not empty. *)
Definition env_truthy (h : Host) (name : string) : bool :=
  match getenv h name with
  | Some (String _ _) => true
  | _ => false
  end.

Definition is_configured (h : Host) : bool :=
  if String.eqb (provider h) "ollama" then true
  else env_truthy h "OPENAI_API_KEY" && OpenAI_installed h.

(** [resp.raise_for_status()]: client and server error codes raise. *)
Definition raise_for_status (r : Response) : result Exn unit :=
  if ((400 <=? status_code r) && (status_code r <? 600))%Z
  then Raise (HTTPError (status_code r))
  else Ok tt.

Definition _ollama_chat (h : Host) (system_prompt user_prompt : string)
    : result Exn (option string) :=
  let base_url := getenv_default h "OLLAMA_BASE_URL" "http://localhost:11434" in
  match requests_post h (base_url ++ "/api/chat") (model_name h)
          system_prompt user_prompt with
  | Raise e => Raise e
  | Ok resp =>
      match raise_for_status resp with
      | Raise e => Raise e
      | Ok _ => message_content resp
      end
  end.

(** [(out or "").strip()]. *)
Definition or_empty_strip (out : option string) : string :=
  match out with
  | Some s => Py.strip s
  | None => EmptyString
  end.

(** A context is a pair of a tag and a text. *)
Definition user_content (question : string) (contexts : list (string * string))
    : string :=
  let head :=
    ["You are a strict, citation-first assistant.";
     "Use ONLY the provided context. If the answer is not in context, say you don't know.";
     "Every claim MUST include a citation tag copied EXACTLY from the allowed tags below.";
     "Be concise (<= 5 sentences).";
     "Question: " ++ question;
     "Allowed citation tags (use EXACTLY as-is; do NOT invent new tags):"] in
  let tags := map (fun c => "- [" ++ fst c ++ "]") contexts in
  let texts := flat_map (fun c => ["[" ++ fst c ++ "]"; snd c]) contexts in
  Py.join (String "010"%char EmptyString)
    (List.app head (List.app tags ("Context chunks:" :: texts))).

Definition synthesize_answer (h : Host) (system_prompt question : string)
    (contexts : list (string * string)) : result Exn string :=
  let user := user_content question contexts in
  if String.eqb (provider h) "ollama"
  then match _ollama_chat h system_prompt user with
       | Raise e => Raise e
       | Ok out => Ok (or_empty_strip out)
       end
  else if negb (OpenAI_installed h)
  then Raise (AssertionError "openai package not installed")
  else match getenv h "OPENAI_API_KEY" with
       | Some (String c k) =>
           match chat_completions_create h (String c k) (model_name h)
                   system_prompt user with
           | Raise e => Raise e
           | Ok out => Ok (or_empty_strip out)
           end
       | _ => Raise (RuntimeError "OPENAI_API_KEY not set")
       end.

End Llm.

(* ================================================================== *)
(** * app/agent.py *)

Module Agent.

Import Models.

Definition newline : string := String "010"%char EmptyString.
Definition blank_line : string := newline ++ newline.

(** [prompt_file] is the content of [prompts/answer_system.txt], or
    [None] when the file does not exist. *)
Definition _load_system_prompt (prompt_file : option string) : string :=
  match prompt_file with
  | Some content => Py.strip content
  | None => "Answer using provided context only; cite chunks like [doc@start:end]."
  end.

(** ** The router *)

Definition price_words : list string :=
  ["price"; "close"; "open"; "high"; "low"; "last"; "latest"; "compare";
   "performance"; "return"; "percentage"; "pct"].

Definition starts_with_word_char (s : string) : bool :=
  match s with
  | String c _ => Py.is_word c
  | EmptyString => false
  end.

(** [w] stands at the front of [s] and a word boundary follows it. *)
Definition word_here (s w : string) : bool :=
  Py.startswith w s && negb (starts_with_word_char (Py.drop (String.length w) s)).

(** Whether [\b(w1|...|wn)\b] matches somewhere in [s]; [prev] tells
    whether the character before [s] is a word character. *)
Fixpoint search_words (prev : bool) (s : string) : bool :=
  (negb prev && existsb (word_here s) price_words)
  || match s with
     | EmptyString => false
     | String c r => search_words (Py.is_word c) r
     end.

Definition _is_price_query (q : string) : bool :=
  search_words false (Py.lower q).

(** ** The collaborators of one process *)

Record World : Type := mkWorld {
  host : Llm.Host;
  prompt_file : option string;
  corpus_file : option (list Retriever.Chunk);
  argsort : list R -> list nat;
  BM25Okapi : list (list string) -> list string -> list R;
  (** the price path, [_answer_price] over the price tool *)
  _answer_price : string -> result Llm.Exn AnswerResponse
}.

Definition SYSTEM_PROMPT (w : World) : string :=
  _load_system_prompt (prompt_file w).

(** The retriever the process builds on first use. *)
Definition _get_retriever (w : World) : Retriever.HybridRetriever :=
  Retriever._load (BM25Okapi w) 0.65 (corpus_file w).

(** ** [answer] *)

(** [f"{r['source']}@{r['start']}:{r['end']}"]. *)
Definition tag_of (r : Retriever.ScoredChunk) : string :=
  let c := Retriever.chunk r in
  Retriever.source c ++ "@" ++ Py.str_of_int (Retriever.start c)
  ++ ":" ++ Py.str_of_int (Retriever.end_ c).

Definition citation_of (r : Retriever.ScoredChunk) : Citation :=
  let c := Retriever.chunk r in
  mkCitation (Retriever.source c) (Retriever.start c) (Retriever.end_ c).

(** [sorted(xs)] for a collection of distinct strings. *)
Fixpoint insert_sorted (x : string) (l : list string) : list string :=
  match l with
  | [] => [x]
  | y :: r => if String.leb x y then x :: l else y :: insert_sorted x r
  end.

Definition sorted (l : list string) : list string :=
  fold_right insert_sorted [] l.

(** [sorted({r["source"] for r in results})]. *)
Definition sources_of (results : list Retriever.ScoredChunk) : list string :=
  sorted (Retriever.set_of (map (fun r => Retriever.source (Retriever.chunk r)) results)).

(** The extractive composition of the [else] branch. *)
Definition extractive (prompt : string) (results : list Retriever.ScoredChunk)
    : string :=
  let citation_strs := map (fun r => "[" ++ tag_of r ++ "]") results in
  let composed :=
    Py.join blank_line (map (fun r => Retriever.text (Retriever.chunk r)) results) in
  (prompt ++ blank_line) ++ composed ++ blank_line ++ Py.join " " citation_strs.

(** The price branch: [resp.metrics.extra.update({"used_tools": ...})]. *)
Fixpoint dict_set (k : string) (v : Any) (d : list (string * Any))
    : list (string * Any) :=
  match d with
  | [] => [(k, v)]
  | (k', v') :: r =>
      if String.eqb k' k then (k', v) :: r else (k', v') :: dict_set k v r
  end.

Definition with_used_tools (tools : list string) (resp : AnswerResponse)
    : AnswerResponse :=
  match metrics resp with
  | Some m =>
      match extra m with
      | Some e =>
          mkAnswer (answer resp) (citations resp) (sources resp)
            (Some (mkMetrics (latency_ms m) (retrieved_k m) (route m)
                     (Some (dict_set "used_tools" (AList tools) e))))
      | None => resp
      end
  | None => resp
  end.

(** The part of [answer] after retrieval.  The [timed] block around it
    only records a metric, also when the body raises, and lets the
    exception through. *)
Definition answer_rag (w : World) (question : string)
    (results : list Retriever.ScoredChunk) : result Llm.Exn AnswerResponse :=
  match results with
  | [] =>
      Ok (mkAnswer "I couldn't find relevant context in the provided documents."
            [] []
            (Some (mkMetrics 0 0 "rag" (Some [("used_tools", AList ["retriever"])]))))
  | _ :: _ =>
      let citations := map citation_of results in
      let sources := sources_of results in
      if Llm.is_configured (host w)
      then
        let contexts :=
          map (fun r => (tag_of r, Retriever.text (Retriever.chunk r))) results in
        let model := Llm.model_name (host w) in
        match Llm.synthesize_answer (host w) (SYSTEM_PROMPT w) question contexts with
        | Raise e => Raise e
        | Ok answer_text =>
            let allowed_tags := map fst contexts in
            let answer_text :=
              Sanitizer._clean_citations answer_text allowed_tags
                (firstn 3 allowed_tags) in
            let used_tools := ["retriever"; Llm.provider (host w) ++ ":" ++ model] in
            Ok (mkAnswer answer_text citations sources
                  (Some (mkMetrics 0 (List.length results) "rag+llm"
                           (Some [("used_tools", AList used_tools);
                                  ("model", AStr model)]))))
        end
      else
        Ok (mkAnswer (extractive (SYSTEM_PROMPT w) results) citations sources
              (Some (mkMetrics 0 (List.length results) "rag"
                       (Some [("used_tools", AList ["retriever"]);
                              ("model", ANone)]))))
  end.

Definition answer (w : World) (question : string) (k : Z)
    : result Llm.Exn AnswerResponse :=
  if _is_price_query question
  then match _answer_price w question with
       | Raise e => Raise e
       | Ok resp => Ok (with_used_tools ["prices_tool"] resp)
       end
  else answer_rag w question
         (Retriever.search (argsort w) (_get_retriever w) question k).

End Agent.

(* ================================================================== *)
(** * The third-party functions *)

Module Lib.

(** What [numpy.argsort] promises of the indices it returns: each index
    of the array once. *)
Definition argsort_contract (argsort : list R -> list nat) : Prop :=
  forall a, Permutation (argsort a) (seq 0 (List.length a)).

(** The other promise of [numpy.argsort]: read through the indices, the
    array is in ascending order.  Nothing is promised on the order of
    indices that hold equal values: the default sort is not a stable one. *)
Definition argsort_sorts (argsort : list R -> list nat) : Prop :=
  forall a,
    StronglySorted (fun i j => (nth i a 0 <= nth j a 0)%R) (argsort a).

(** [BM25Okapi(corpus).get_scores(query)] has one score per document. *)
Definition scorer_contract
    (BM25Okapi : list (list string) -> list string -> list R) : Prop :=
  forall corpus query,
    List.length (BM25Okapi corpus query) = List.length corpus.

(** An [argsort] and a scorer that keep the two promises, to run the
    model on: a sort by insertion, and the number of query tokens that
    occur in the document. *)
Fixpoint insert_index (a : list R) (i : nat) (l : list nat) : list nat :=
  match l with
  | [] => [i]
  | j :: r =>
      if Rle_dec (nth i a 0%R) (nth j a 0%R)
      then i :: l
      else j :: insert_index a i r
  end.

Definition insertion_argsort (a : list R) : list nat :=
  fold_right (insert_index a) [] (seq 0 (List.length a)).

Definition overlap_scorer (corpus : list (list string)) (query : list string)
    : list R :=
  map (fun doc => INR (List.length (filter (fun t => Py.mem t doc) query)))
      corpus.

End Lib.

(** The inputs of the examples. *)
Module Examples.

Definition q2_chunk : Retriever.Chunk :=
  Retriever.mkChunk "q2_letter.html" 0 20 "SPY rallied in Q2 amid macro tailwinds".

Definition q1_chunk : Retriever.Chunk :=
  Retriever.mkChunk "q1_letter.html" 0 16 "Rates rose in Q1".

Definition question : string := "Did the letter mention SPY?".

(** The environment of the test suite: [LLM_PROVIDER=off], no key. *)
Definition host_off : Llm.Host :=
  Llm.mkHost
    (fun name => if String.eqb name "LLM_PROVIDER" then Some "off" else None)
    false
    (fun _ _ _ _ => Raise Llm.ConnectionError)
    (fun _ _ _ _ => Raise (Llm.APIError "no client")).

(** The default environment, with the local generator not answering in
    time. *)
Definition host_timeout : Llm.Host :=
  Llm.mkHost (fun _ => None) false
    (fun _ _ _ _ => Raise Llm.Timeout)
    (fun _ _ _ _ => Raise (Llm.APIError "no client")).

(** The default environment, with a generator that writes nothing. *)
Definition host_silent : Llm.Host :=
  Llm.mkHost (fun _ => None) false
    (fun _ _ _ _ => Ok (Llm.mkResponse 200 (Ok (Some EmptyString))))
    (fun _ _ _ _ => Raise (Llm.APIError "no client")).

(** The default environment, with a generator that writes [reply]. *)
Definition host_reply (reply : string) : Llm.Host :=
  Llm.mkHost (fun _ => None) false
    (fun _ _ _ _ => Ok (Llm.mkResponse 200 (Ok (Some reply))))
    (fun _ _ _ _ => Raise (Llm.APIError "no client")).

Definition world_of (h : Llm.Host) (corpus : list Retriever.Chunk) : Agent.World :=
  Agent.mkWorld h None (Some corpus) Lib.insertion_argsort Lib.overlap_scorer
    (fun _ => Raise (Llm.RuntimeError "price path")).

End Examples.

(* ================================================================== *)
(** * What the specification says, as definitions *)

Module Spec.

(** The text with every bracketed token whose inner text is not an
    allowed tag deleted, and everything else kept: the scanner of
    [Sanitizer.scan], writing the output instead of the spans. *)
Fixpoint delete_scan (allowed : list string) (st : option string) (s : string)
    : string :=
  match s with
  | EmptyString =>
      match st with
      | None => EmptyString
      | Some inner => "[" ++ inner
      end
  | String c r =>
      match st with
      | None =>
          if Ascii.eqb c "["%char
          then delete_scan allowed (Some EmptyString) r
          else String c (delete_scan allowed None r)
      | Some inner =>
          if Ascii.eqb c "]"%char
          then match inner with
               | EmptyString => "[]" ++ delete_scan allowed None r
               | String _ _ =>
                   if Py.mem inner allowed
                   then Sanitizer.bracket inner ++ delete_scan allowed None r
                   else delete_scan allowed None r
               end
          else delete_scan allowed (Some (inner ++ String c EmptyString)) r
      end
  end.

Definition delete_invalid_tokens (allowed : list string) (text : string) : string :=
  delete_scan allowed None text.

(** The text the sanitizer is left with after its removal loop. *)
Definition body (text : string) (allowed : list string) : string :=
  Sanitizer.remove_invalid allowed (Sanitizer.finditer_bracketed text) text.

(** The fallback block: the first three allowed tags, or all of them when
    there are fewer, bracketed and separated by spaces. *)
Definition fallback_block (allowed : list string) : string :=
  Py.join " " (map Sanitizer.bracket (firstn 3 allowed)).

(** The sanitizer as [answer] calls it. *)
Definition sanitize (text : string) (allowed : list string) : string :=
  Sanitizer._clean_citations text allowed (firstn 3 allowed).

(** "The remaining text contains an occurrence of an allowed tag." *)
Definition has_allowed_tag (allowed : list string) (s : string) : bool :=
  existsb (fun t => Py.contains (Sanitizer.bracket t) s) allowed.

(** The sanitizer as the specification words it: every invalid token is
    deleted; when the remaining text holds no allowed tag, the fallback
    block is appended to it after trimming its trailing whitespace. *)
Definition clean_citations_spec (text : string) (allowed : list string) : string :=
  let remaining := delete_invalid_tokens allowed text in
  if has_allowed_tag allowed remaining
  then remaining
  else Py.rstrip remaining ++ " " ++ fallback_block allowed.

(** "The text carries at least one allowed citation tag." *)
Definition cites_allowed (allowed : list string) (out : string) : Prop :=
  exists t, In t allowed /\ Py.contains (Sanitizer.bracket t) out = true.

(** The document frequency of a term: the number of chunks it occurs in. *)
Definition doc_freq (t : string) (tokenized : list (list string)) : nat :=
  List.length (filter (fun toks => Py.mem t toks) tokenized).

(** A minimum and a maximum of an array. *)
Definition is_min (m : R) (arr : list R) : Prop :=
  In m arr /\ forall s, In s arr -> (m <= s)%R.

Definition is_max (m : R) (arr : list R) : Prop :=
  In m arr /\ forall s, In s arr -> (s <= m)%R.

(** The citation tag of a chunk, [source@start:end]. *)
Definition tag (source : string) (start end_ : Z) : string :=
  source ++ "@" ++ Py.str_of_int start ++ ":" ++ Py.str_of_int end_.

Definition tag_of_chunk (c : Retriever.Chunk) : string :=
  tag (Retriever.source c) (Retriever.start c) (Retriever.end_ c).

(** "The evidence chunks' texts in rank order separated by blank lines,
    followed by every evidence citation tag rendered inline": the texts,
    a blank line, and the bracketed tags separated by spaces. *)
Definition evidence_and_tags (results : list Retriever.ScoredChunk) : string :=
  Py.join Agent.blank_line
    (map (fun r => Retriever.text (Retriever.chunk r)) results)
  ++ Agent.blank_line
  ++ Py.join " "
       (map (fun r => "[" ++ tag_of_chunk (Retriever.chunk r) ++ "]") results).

(** A citation that points at a retrieved chunk. *)
Definition points_at (r : Retriever.ScoredChunk) (c : Models.Citation) : Prop :=
  Models.source c = Retriever.source (Retriever.chunk r)
  /\ Models.start c = Retriever.start (Retriever.chunk r)
  /\ Models.end_ c = Retriever.end_ (Retriever.chunk r).

(** Strictly ascending in the order of the code points. *)
Definition str_lt (a b : string) : Prop := String.compare a b = Lt.

End Spec.

(* ================================================================== *)
(** * app/tools/prices.py

    [upper] is [str.upper]: it maps some characters below 256 to
    characters above, so it is an argument of the model.  A price record
    is a date and a close.  [file] is the content of
    [prices_stub/prices.json]: the series of every symbol, oldest record
    first. *)

Module Prices.

Record Bar : Type := mkBar {
  date : string;
  close : R
}.

Definition series : Type := list Bar.

(** [d[k] = v]. *)
Fixpoint put {V : Type} (k : string) (v : V) (d : Retriever.dict V)
    : Retriever.dict V :=
  match d with
  | [] => [(k, v)]
  | (k', v') :: r =>
      if String.eqb k' k then (k', v) :: r else (k', v') :: put k v r
  end.

(** [{k.upper(): v for k, v in data.items()}]; the cache holds what the
    first call loaded. *)
Definition load_prices (upper : string -> string) (file : Retriever.dict series)
    : Retriever.dict series :=
  fold_left (fun d kv => put (upper (fst kv)) (snd kv) d) file [].

Definition _get_series (upper : string -> string) (file : Retriever.dict series)
    (symbol : string) : option series :=
  Retriever.get (load_prices upper file) (upper symbol).

(** [series[-1]] of a list that is not empty. *)
Definition get_latest_close (upper : string -> string)
    (file : Retriever.dict series) (symbol : string) : option Bar :=
  match _get_series upper file symbol with
  | None | Some [] => None
  | Some (b :: bs) => Some (last bs b)
  end.

(** [series[-n:]] for [n > 0]. *)
Definition get_latest_n (upper : string -> string)
    (file : Retriever.dict series) (symbol : string) (n : Z)
    : option (list Bar) :=
  if (n <=? 0)%Z then Some []
  else match _get_series upper file symbol with
       | None | Some [] => None
       | Some s => Some (skipn (List.length s - Z.to_nat n) s)
       end.

Definition pct_change (old new : R) : R :=
  if Req_dec_T old 0 then 0%R else ((new - old) / old)%R.

Record Performance : Type := mkPerformance {
  a_return : R;
  b_return : R;
  relative : R
}.

(** The returns of a window of at least two records: from its first
    close to its last. *)
Definition window_return (w : list Bar) : R :=
  match w with
  | [] => 0%R
  | b :: bs => pct_change (close b) (close (last bs b))
  end.

Definition compare_performance (upper : string -> string)
    (file : Retriever.dict series) (symbol_a symbol_b : string) (points : Z)
    : option Performance :=
  match get_latest_n upper file symbol_a points,
        get_latest_n upper file symbol_b points with
  | Some a, Some b =>
      if (List.length a <? 2) || (List.length b <? 2) then None
      else
        let a_ret := window_return a in
        let b_ret := window_return b in
        Some (mkPerformance a_ret b_ret (a_ret - b_ret)%R)
  | _, _ => None
  end.

Definition list_symbols (upper : string -> string) (file : Retriever.dict series)
    : list string :=
  Agent.sorted (map fst (load_prices upper file)).

End Prices.

(* ================================================================== *)
(** * app/agent.py, the symbols of a question *)

Module Symbols.

Definition is_upper_letter (c : ascii) : bool :=
  let n := Py.ord c in (65 <=? n) && (n <=? 90).

Fixpoint all_upper (s : string) : bool :=
  match s with
  | EmptyString => true
  | String c r => is_upper_letter c && all_upper r
  end.

(** The maximal runs of word characters of a string, in order; [acc] is
    the run being read. *)
Definition flush (acc : string) : list string :=
  match acc with
  | EmptyString => []
  | String _ _ => [acc]
  end.

Fixpoint word_runs (acc : string) (s : string) : list string :=
  match s with
  | EmptyString => flush acc
  | String c r =>
      if Py.is_word c then word_runs (acc ++ String c EmptyString) r
      else List.app (flush acc) (word_runs EmptyString r)
  end.

(** What [\b[A-Z]{2,10}\b] matches: a word boundary stands before and
    after the letters, so a match is a whole run of word characters made
    of two to ten capital letters. *)
Definition is_symbol_shape (w : string) : bool :=
  all_upper w && (2 <=? String.length w) && (String.length w <=? 10).

(** [re.findall(r"\b[A-Z]{2,10}\b", q)]. *)
Definition findall_symbols (q : string) : list string :=
  filter is_symbol_shape (word_runs EmptyString q).

(** [known] is [set(prices_tool.list_symbols())].  The candidates are a
    set: the order of the list returned is the order Python iterates that
    set in, which the model fixes to the one of [Retriever.set_of]. *)
Definition _extract_symbols (known : list string) (q : string) : list string :=
  filter (fun s => Py.mem s known) (Retriever.set_of (findall_symbols q)).

End Symbols.

(* ================================================================== *)
(** * app/ingest.py, the chunker

    [window] and [overlap] are taken not negative.  The [while] loop is a
    recursion on [fuel]: [None] says the fuel ran out before the loop
    ended. *)

Module Ingest.

(** [re.sub(r"\s+", " ", text)]: [in_ws] tells whether the character
    before was whitespace. *)
Fixpoint collapse_ws (in_ws : bool) (s : string) : string :=
  match s with
  | EmptyString => EmptyString
  | String c r =>
      if Py.isspace c
      then if in_ws then collapse_ws true r
           else String " "%char (collapse_ws true r)
      else String c (collapse_ws false r)
  end.

Definition clean_text (text : string) : string :=
  Py.strip (collapse_ws false text).

(** [s[a:b]] for [0 <= a] and [0 <= b]. *)
Definition slice (s : string) (a b : nat) : string :=
  Py.take (b - a) (Py.drop a s).

(** [s.rfind(".", start, end_)] for [start <= end_ <= len(s)]; [pos] is
    the position of the first character of [s]. *)
Fixpoint rfind_dot (s : string) (pos start end_ : nat) : option nat :=
  match s with
  | EmptyString => None
  | String c r =>
      match rfind_dot r (S pos) start end_ with
      | Some i => Some i
      | None =>
          if Ascii.eqb c "."%char && (start <=? pos) && (pos <? end_)
          then Some pos else None
      end
  end.

Definition Chunk3 : Type := (nat * nat * string)%type.

(** The end of the window that starts at [start]. *)
Definition window_end (clean : string) (window start : nat) : nat :=
  let end0 := Nat.min (String.length clean) (start + window) in
  match rfind_dot clean 0 start end0 with
  | Some boundary =>
      if 2 * start + window <? 2 * boundary then boundary + 1 else end0
  | None => end0
  end.

Definition chunk_at (clean : string) (start end_ : nat) : list Chunk3 :=
  match Py.strip (slice clean start end_) with
  | EmptyString => []
  | String c r => [(start, end_, String c r)]
  end.

Fixpoint chunk_loop (fuel : nat) (clean : string) (window overlap start : nat)
    : option (list Chunk3) :=
  match fuel with
  | O => None
  | S fuel' =>
      if start <? String.length clean
      then
        let end_ := window_end clean window start in
        if end_ =? String.length clean
        then Some (chunk_at clean start end_)
        else match chunk_loop fuel' clean window overlap (end_ - overlap) with
             | Some rest => Some (List.app (chunk_at clean start end_) rest)
             | None => None
             end
      else Some []
  end.

Definition chunk_text (fuel : nat) (text : string) (window overlap : nat)
    : option (list Chunk3) :=
  match clean_text text with
  | EmptyString => Some []
  | String c r => chunk_loop fuel (String c r) window overlap 0
  end.

End Ingest.

(** Inputs for the examples of the price tool and the chunker. *)
Module Samples.

(** [str.upper] on the letters a to z; other characters are kept. *)
Definition upper_char (c : ascii) : ascii :=
  let n := Py.ord c in
  if (97 <=? n) && (n <=? 122) then ascii_of_nat (n - 32) else c.

Fixpoint ascii_upper (s : string) : string :=
  match s with
  | EmptyString => EmptyString
  | String c r => String (upper_char c) (ascii_upper r)
  end.

Definition prices_file : Retriever.dict Prices.series :=
  [("msft", [Prices.mkBar "2024-06-26" 400; Prices.mkBar "2024-06-27" 410;
             Prices.mkBar "2024-06-28" 430]);
   ("SPY", [Prices.mkBar "2024-06-27" 500; Prices.mkBar "2024-06-28" 550]);
   ("eurusd", [])].

End Samples.

(* ================================================================== *)
(** * Predicates used to state further properties of the code *)

Module Props.

Fixpoint all_chars (p : ascii -> bool) (s : string) : bool :=
  match s with
  | EmptyString => true
  | String c r => p c && all_chars p r
  end.

(** A run: one or more lower-case letters and digits. *)
Definition run (s : string) : Prop :=
  s <> EmptyString /\ all_chars Py.is_lower_alnum s = true.

(** The words of the tokenizer's pattern: a run, or two runs joined by
    one apostrophe. *)
Definition token_shape (t : string) : Prop :=
  exists a, run a /\ (t = a \/ exists b, run b /\ t = a ++ "'" ++ b).

(** What the tokenizer's scanner has gathered, state by state. *)
Definition tok_state_ok (st : Retriever.tok_state) : Prop :=
  match st with
  | Retriever.Idle => True
  | Retriever.InWord a | Retriever.AfterApostrophe a => run a
  | Retriever.InSuffix t => exists a b, run a /\ run b /\ t = a ++ "'" ++ b
  end.

(** Between 0 and 1. *)
Definition unit_interval (x : R) : Prop := (0 <= x <= 1)%R.

(** The square of the Euclidean norm of a sparse vector. *)
Definition sq_norm (vec : Retriever.dict R) : R :=
  Retriever.sum (map (fun kv => (snd kv * snd kv)%R) vec).

Definition keys {V : Type} (d : Retriever.dict V) : list string := map fst d.

(** A chunk of the cleaned text [clean] for a window of [window]
    characters: a span inside the text, not empty and no longer than the
    window, with the stripped text of the span, which is not empty. *)
Definition chunk_ok (clean : string) (window : nat) (c : Ingest.Chunk3) : Prop :=
  let '(s, e, t) := c in
  s < e /\ e <= String.length clean /\ e - s <= window
  /\ t = Py.strip (Ingest.slice clean s e) /\ t <> EmptyString.

Definition chunk_start (c : Ingest.Chunk3) : nat := fst (fst c).

(** No two whitespace characters side by side; [prev] tells whether the
    character before [s] is whitespace. *)
Fixpoint ws_ok (prev : bool) (s : string) : bool :=
  match s with
  | EmptyString => true
  | String c r =>
      if Py.isspace c then negb prev && ws_ok true r else ws_ok false r
  end.

(** The chunks tile a text of [len] characters from [start] on: the
    first starts at [start], each next one starts [overlap] characters
    before the end of the one before it, and the last ends at [len]. *)
Fixpoint tiles (len overlap start : nat) (chunks : list Ingest.Chunk3) : Prop :=
  match chunks with
  | [] => False
  | (s, e, _) :: rest =>
      s = start
      /\ match rest with
         | [] => e = len
         | _ :: _ => e < len /\ tiles len overlap (e - overlap) rest
         end
  end.

Definition not_dot (c : ascii) : bool := negb (Ascii.eqb c "."%char).

(** Whether the last character of [pre] is a word character; [prev]
    answers for the empty string. *)
Fixpoint last_is_word (prev : bool) (pre : string) : bool :=
  match pre with
  | EmptyString => prev
  | String c r => last_is_word (Py.is_word c) r
  end.

(** One of the price words stands in [s] as a whole word: not preceded
    and not followed by a word character. *)
Definition has_price_word (s : string) : Prop :=
  exists pre w post,
    s = pre ++ w ++ post
    /\ In w Agent.price_words
    /\ last_is_word false pre = false
    /\ Agent.starts_with_word_char post = false.

(** [w] stands in [q] as a whole word: neither preceded nor followed by
    a word character. *)
Definition whole_word (w q : string) : Prop :=
  exists pre post,
    q = pre ++ w ++ post
    /\ last_is_word false pre = false
    /\ Agent.starts_with_word_char post = false.

(** No whitespace at either end. *)
Definition stripped (s : string) : Prop :=
  Py.lstrip s = s /\ Py.rstrip s = s.

(** A bracketed token whose inner text is not an allowed tag. *)
Definition invalid (allowed : list string) (m : Sanitizer.Match) : bool :=
  negb (Py.mem (Sanitizer.group1 m) allowed).

(** For a state of the bracket scanner: the text it holds back (an open
    bracket and what follows it), the position where that text starts,
    and the matching state of [Spec.delete_scan]. *)
Definition pending (st : Sanitizer.scan_state) : string :=
  match st with
  | Sanitizer.Outside => EmptyString
  | Sanitizer.Inside _ inner => "[" ++ inner
  end.

Definition base (st : Sanitizer.scan_state) (pos : nat) : nat :=
  match st with
  | Sanitizer.Outside => pos
  | Sanitizer.Inside b _ => b
  end.

(** The scanner is at [pos], having held back [pending st] from
    [base st pos] on. *)
Definition scan_wf (st : Sanitizer.scan_state) (pos : nat) : Prop :=
  pos = base st pos + String.length (pending st).

Definition held (st : Sanitizer.scan_state) : option string :=
  match st with
  | Sanitizer.Outside => None
  | Sanitizer.Inside _ inner => Some inner
  end.

(** [d.get(k, 0.0)]. *)
Definition get0 (d : Retriever.dict R) (k : string) : R :=
  match Retriever.get d k with
  | Some v => v
  | None => 0%R
  end.

(** The sum of a list of reals, from the right. *)
Definition total (xs : list R) : R := fold_right Rplus 0%R xs.

(** No token of the query occurs in a chunk of the corpus. *)
Definition out_of_vocabulary (query : string) (corpus : list Retriever.Chunk) : Prop :=
  forall t c,
    In t (Retriever.tokenize query) -> In c corpus ->
    ~ In t (Retriever.tokenize (Retriever.text c)).

End Props.

(* ================================================================== *)
(** * The citation sanitizer *)

Section SanitizerFacts.

Lemma startswith_app (p s : string) : Py.startswith p (p ++ s) = true.
Proof.
  unfold Py.startswith.
  induction p as [|c p IH]; simpl.
  - destruct s; reflexivity.
  - destruct (ascii_dec c c) as [_|N]; [exact IH | congruence].
Qed.

Lemma contains_here (p s : string) : Py.contains p (p ++ s) = true.
Proof.
  assert (H : forall t, Py.startswith p t = true -> Py.contains p t = true).
  { intros t Ht. destruct t; cbn [Py.contains]; rewrite Ht; reflexivity. }
  apply H, startswith_app.
Qed.

Lemma contains_app_l (p a s : string) :
  Py.contains p s = true -> Py.contains p (a ++ s) = true.
Proof.
  intro H. induction a as [|c a IH]; simpl.
  - exact H.
  - rewrite IH. apply orb_true_r.
Qed.

Lemma join_cons (sep x : string) (l : list string) :
  exists rest, Py.join sep (x :: l) = x ++ rest.
Proof.
  destruct l as [|y l].
  - exists EmptyString. simpl. clear. induction x; simpl; congruence.
  - exists (sep ++ Py.join sep (y :: l)). reflexivity.
Qed.

Lemma any_allowed_cites (allowed : list string) (s : string) :
  allowed <> [] ->
  Sanitizer.any_allowed allowed s = true -> Spec.cites_allowed allowed s.
Proof.
  intros Hne H. destruct allowed as [|a l]; [congruence|].
  unfold Sanitizer.any_allowed in H.
  apply existsb_exists in H. destruct H as [t [Hin Ht]].
  exists t. split; assumption.
Qed.

Lemma fallback_block_cites (allowed : list string) (s : string) :
  allowed <> [] ->
  Spec.cites_allowed allowed (s ++ " " ++ Spec.fallback_block allowed).
Proof.
  intro Hne. destruct allowed as [|a l]; [congruence|].
  exists a. split; [left; reflexivity|].
  unfold Spec.fallback_block.
  change (firstn 3 (a :: l)) with (a :: firstn 2 l).
  rewrite map_cons.
  destruct (join_cons " " (Sanitizer.bracket a) (map Sanitizer.bracket (firstn 2 l)))
    as [rest ->].
  apply contains_app_l. apply (contains_app_l _ " "). apply contains_here.
Qed.

(** The two outcomes of the sanitizer on a text that is not empty. *)
Lemma sanitize_cases (text : string) (allowed : list string) :
  text <> "" -> allowed <> [] ->
  Spec.sanitize text allowed
  = if Sanitizer.any_allowed allowed (Spec.body text allowed)
    then Spec.body text allowed
    else Py.rstrip (Spec.body text allowed) ++ " " ++ Spec.fallback_block allowed.
Proof.
  intros Ht Ha.
  assert (Hfb : firstn 3 allowed <> []).
  { destruct allowed; [congruence | discriminate]. }
  unfold Spec.sanitize, Sanitizer._clean_citations, Spec.body, Spec.fallback_block.
  destruct text as [|c r]; [congruence|].
  destruct (Sanitizer.any_allowed allowed _); simpl negb; cbv iota.
  - reflexivity.
  - destruct (firstn 3 allowed); [congruence | reflexivity].
Qed.

Lemma sanitize_cites (text : string) (allowed : list string) :
  text <> "" -> allowed <> [] ->
  Spec.cites_allowed allowed (Spec.sanitize text allowed).
Proof.
  intros Ht Ha. rewrite sanitize_cases by assumption.
  destruct (Sanitizer.any_allowed allowed (Spec.body text allowed)) eqn:Hany.
  - apply any_allowed_cites; assumption.
  - apply fallback_block_cites; assumption.
Qed.

End SanitizerFacts.

(** C1, the example of the specification: the invalid tag goes, the valid
    one stays, and no fallback is appended. *)
Lemma clean_citations_example :
  Sanitizer._clean_citations "X [doc_a@0:10] Y [evil@0:0] Z"
    ["doc_a@0:10"] ["doc_a@0:10"]
  = "X [doc_a@0:10] Y  Z"
  /\ Spec.delete_invalid_tokens ["doc_a@0:10"] "X [doc_a@0:10] Y [evil@0:0] Z"
     = "X [doc_a@0:10] Y  Z".
Proof. split; reflexivity. Qed.

(** C1: with two invalid tokens the second removal uses the span computed
    before the first removal.  On the text below the sanitizer keeps the
    invalid token [[bad2]] and drops the words after it, where deleting
    every invalid token gives ["See  and [doc_a@0:10] and  end."]. *)
Theorem clean_citations_stale_span :
  let text := "See [bad1] and [doc_a@0:10] and [bad2] end." in
  let allowed := ["doc_a@0:10"] in
  Sanitizer._clean_citations text allowed (firstn 3 allowed)
  = "See  and [doc_a@0:10] and [bad2]"
  /\ Spec.delete_invalid_tokens allowed text = "See  and [doc_a@0:10] and  end."
  /\ Py.contains "[bad2]" (Sanitizer._clean_citations text allowed (firstn 3 allowed))
     = true
  /\ Py.mem "bad2" allowed = false.
Proof. repeat split; reflexivity. Qed.

(** C2: on the empty generation the sanitizer returns the empty text.  No
    allowed tag is left after deletion, so the specification, like the
    docstring of the function ("If no allowed citations remain, appends
    fallback tags at the end"), gives the block of the two allowed tags
    after the (empty) body; the code stops at its first test, appends
    nothing, and its result carries no allowed tag. *)
Theorem clean_citations_empty_text :
  let text := "" in
  let allowed := ["doc_a@0:10"; "doc_b@5:15"] in
  Sanitizer._clean_citations text allowed (firstn 3 allowed) = ""
  /\ Spec.has_allowed_tag allowed (Spec.delete_invalid_tokens allowed text) = false
  /\ Spec.clean_citations_spec text allowed = " [doc_a@0:10] [doc_b@5:15]"
  /\ Spec.cites_allowed allowed (Spec.clean_citations_spec text allowed)
  /\ ~ Spec.cites_allowed allowed
        (Sanitizer._clean_citations text allowed (firstn 3 allowed)).
Proof.
  cbv zeta.
  split; [reflexivity|].
  split; [reflexivity|].
  split; [reflexivity|].
  split.
  - exists "doc_a@0:10". split; [left; reflexivity | reflexivity].
  - intros [t [_ H]]. discriminate H.
Qed.

(** The sanitizer returns the empty text as it is, whatever the tags. *)
Lemma clean_citations_empty (allowed fallback : list string) :
  Sanitizer._clean_citations "" allowed fallback = ""
  /\ ~ Spec.cites_allowed allowed (Sanitizer._clean_citations "" allowed fallback).
Proof.
  split; [reflexivity|].
  intros [t [_ H]]. discriminate H.
Qed.

(** Away from the empty text, and whenever the removal loop deletes what
    the specification deletes, the sanitizer returns what the
    specification says. *)
Lemma clean_citations_meets_spec (text : string) (allowed : list string) :
  text <> "" -> allowed <> [] ->
  Spec.body text allowed = Spec.delete_invalid_tokens allowed text ->
  Spec.sanitize text allowed = Spec.clean_citations_spec text allowed.
Proof.
  intros Ht Ha Hb.
  rewrite (sanitize_cases text allowed Ht Ha).
  unfold Spec.clean_citations_spec. cbv zeta. rewrite <- Hb.
  destruct allowed as [|a l]; [congruence|].
  reflexivity.
Qed.

(** The fallback example of the specification. *)
Lemma clean_citations_fallback_example :
  Sanitizer._clean_citations "no citations here"
    ["doc_a@0:10"; "doc_b@5:15"] (firstn 3 ["doc_a@0:10"; "doc_b@5:15"])
  = "no citations here [doc_a@0:10] [doc_b@5:15]"
  /\ Spec.clean_citations_spec "no citations here" ["doc_a@0:10"; "doc_b@5:15"]
     = "no citations here [doc_a@0:10] [doc_b@5:15]".
Proof. split; reflexivity. Qed.

(* ================================================================== *)
(** * Score normalisation *)

Section Normalize.

Import Retriever.
Open Scope R_scope.

Lemma epsilon_pos : 0 < epsilon.
Proof. unfold epsilon. lra. Qed.

Lemma arr_min_le_init (xs : list R) (x : R) : arr_min x xs <= x.
Proof.
  unfold arr_min. revert x.
  induction xs as [|y xs IH]; intro x; simpl.
  - lra.
  - eapply Rle_trans; [apply IH | apply Rmin_l].
Qed.

Lemma arr_max_ge_init (xs : list R) (x : R) : x <= arr_max x xs.
Proof.
  unfold arr_max. revert x.
  induction xs as [|y xs IH]; intro x; simpl.
  - lra.
  - eapply Rle_trans; [apply Rmax_l | apply IH].
Qed.

(** [np.min] is a lower bound of the array and [np.max] an upper bound. *)
Lemma arr_min_lower (xs : list R) (x y : R) :
  In y (x :: xs) -> arr_min x xs <= y.
Proof.
  revert x. induction xs as [|z xs IH]; intros x [H|H].
  - subst. apply arr_min_le_init.
  - destruct H.
  - subst. apply arr_min_le_init.
  - change (arr_min x (z :: xs)) with (arr_min (Rmin x z) xs).
    destruct H as [H|H].
    + subst. eapply Rle_trans; [apply arr_min_le_init | apply Rmin_r].
    + apply IH. right. exact H.
Qed.

Lemma arr_max_upper (xs : list R) (x y : R) :
  In y (x :: xs) -> y <= arr_max x xs.
Proof.
  revert x. induction xs as [|z xs IH]; intros x [H|H].
  - subst. apply arr_max_ge_init.
  - destruct H.
  - subst. apply arr_max_ge_init.
  - change (arr_max x (z :: xs)) with (arr_max (Rmax x z) xs).
    destruct H as [H|H].
    + subst. eapply Rle_trans; [apply Rmax_r | apply arr_max_ge_init].
    + apply IH. right. exact H.
Qed.

(** Both are elements of the array. *)
Lemma arr_min_in (xs : list R) (x : R) : In (arr_min x xs) (x :: xs).
Proof.
  revert x. induction xs as [|z xs IH]; intro x.
  - left. reflexivity.
  - change (arr_min x (z :: xs)) with (arr_min (Rmin x z) xs).
    destruct (IH (Rmin x z)) as [H|H].
    + rewrite <- H. unfold Rmin. destruct (Rle_dec x z); simpl; auto.
    + right. right. exact H.
Qed.

Lemma arr_max_in (xs : list R) (x : R) : In (arr_max x xs) (x :: xs).
Proof.
  revert x. induction xs as [|z xs IH]; intro x.
  - left. reflexivity.
  - change (arr_max x (z :: xs)) with (arr_max (Rmax x z) xs).
    destruct (IH (Rmax x z)) as [H|H].
    + rewrite <- H. unfold Rmax. destruct (Rle_dec x z); simpl; auto.
    + right. right. exact H.
Qed.

Lemma normalize_length (arr : list R) :
  List.length (normalize arr) = List.length arr.
Proof.
  destruct arr as [|x xs]; [reflexivity|].
  unfold normalize.
  destruct (Rlt_dec _ _); apply length_map.
Qed.

Lemma normalize_flat (x : R) (xs : list R) :
  arr_max x xs - arr_min x xs < epsilon ->
  normalize (x :: xs) = repeat 0 (List.length (x :: xs)).
Proof.
  intro H. unfold normalize.
  destruct (Rlt_dec _ _) as [_|N]; [|contradiction].
  generalize (x :: xs). intro l.
  induction l as [|y l IH]; simpl; [reflexivity | f_equal; exact IH].
Qed.

Lemma normalize_spread (x : R) (xs : list R) :
  ~ arr_max x xs - arr_min x xs < epsilon ->
  normalize (x :: xs)
  = map (fun s => (s - arr_min x xs) / (arr_max x xs - arr_min x xs)) (x :: xs).
Proof.
  intro H. unfold normalize.
  destruct (Rlt_dec _ _) as [Y|_]; [contradiction | reflexivity].
Qed.

Lemma normalize_bounds (arr : list R) :
  Forall (fun v => 0 <= v <= 1) (normalize arr).
Proof.
  destruct arr as [|x xs]; [constructor|].
  destruct (Rlt_dec (arr_max x xs - arr_min x xs) epsilon) as [Y|N].
  - rewrite (normalize_flat _ _ Y).
    apply Forall_forall. intros v Hv. apply repeat_spec in Hv. subst. lra.
  - rewrite (normalize_spread _ _ N).
    apply Forall_forall. intros v Hv.
    apply in_map_iff in Hv. destruct Hv as [s [<- Hs]].
    pose proof (arr_min_lower xs x s Hs) as Hlo.
    pose proof (arr_max_upper xs x s Hs) as Hhi.
    pose proof epsilon_pos as He.
    assert (Hd : 0 < arr_max x xs - arr_min x xs) by lra.
    split.
    + apply Rmult_le_pos; [lra | left; apply Rinv_0_lt_compat; exact Hd].
    + apply (Rmult_le_reg_r (arr_max x xs - arr_min x xs)); [exact Hd|].
      unfold Rdiv. rewrite Rmult_assoc, Rinv_l by lra. lra.
Qed.

End Normalize.

(** C7: for every array of raw scores that is not empty, with [mn] its
    minimum and [mx] its maximum, [normalize] returns an array of the same
    length whose values all lie between 0 and 1; when [mx - mn] is below
    [1e-9] the array is all zeros, and otherwise every score [s] becomes
    [(s - mn) / (mx - mn)]. *)
Theorem normalize_min_max (arr : list R) :
  arr <> [] ->
  exists mn mx : R,
    Spec.is_min mn arr /\ Spec.is_max mx arr
    /\ List.length (Retriever.normalize arr) = List.length arr
    /\ Forall (fun v => 0 <= v <= 1)%R (Retriever.normalize arr)
    /\ ((mx - mn < 1e-9)%R ->
        Retriever.normalize arr = repeat 0%R (List.length arr))
    /\ (~ (mx - mn < 1e-9)%R ->
        Retriever.normalize arr = map (fun s => (s - mn) / (mx - mn))%R arr).
Proof.
  intro Hne. destruct arr as [|x xs]; [congruence|].
  exists (Retriever.arr_min x xs), (Retriever.arr_max x xs).
  split; [split; [apply arr_min_in | apply arr_min_lower]|].
  split; [split; [apply arr_max_in | apply arr_max_upper]|].
  split; [apply normalize_length|].
  split; [apply normalize_bounds|].
  split; [apply normalize_flat | apply normalize_spread].
Qed.

Lemma normalize_min_max_witness :
  exists mn mx : R,
    Spec.is_min mn [1; 3; 2]%R /\ Spec.is_max mx [1; 3; 2]%R
    /\ List.length (Retriever.normalize [1; 3; 2]%R) = 3%nat
    /\ Forall (fun v => 0 <= v <= 1)%R (Retriever.normalize [1; 3; 2]%R)
    /\ ((mx - mn < 1e-9)%R ->
        Retriever.normalize [1; 3; 2]%R = repeat 0%R 3)
    /\ (~ (mx - mn < 1e-9)%R ->
        Retriever.normalize [1; 3; 2]%R
        = map (fun s => (s - mn) / (mx - mn))%R [1; 3; 2]%R).
Proof.
  apply (normalize_min_max [1; 3; 2]%R). discriminate.
Defined.

(* ================================================================== *)
(** * The index: document frequencies and IDF *)

Section Index.

Import Retriever.

Lemma mem_In (x : string) (l : list string) : Py.mem x l = true <-> In x l.
Proof.
  unfold Py.mem. rewrite existsb_exists. split.
  - intros [y [Hy E]]. apply String.eqb_eq in E. subst. exact Hy.
  - intro H. exists x. split; [exact H | apply String.eqb_refl].
Qed.

Lemma mem_set_of (x : string) (l : list string) :
  Py.mem x (set_of l) = Py.mem x l.
Proof.
  apply eq_true_iff_eq. rewrite !mem_In. apply nodup_In.
Qed.

Lemma get_incr (t : string) (c : dict nat) (k : string) :
  get (incr t c) k = if String.eqb t k then Some (S (count c k)) else get c k.
Proof.
  unfold count.
  induction c as [|[k' n] r IH]; simpl.
  - destruct (String.eqb t k); reflexivity.
  - destruct (String.eqb_spec k' t) as [->|Hkt]; simpl.
    + destruct (String.eqb t k); reflexivity.
    + rewrite IH. destruct (String.eqb_spec k' k) as [->|Hkk].
      * destruct (String.eqb_spec t k) as [->|_]; [congruence | reflexivity].
      * reflexivity.
Qed.

Lemma count_incr (t : string) (c : dict nat) (k : string) :
  count (incr t c) k = if String.eqb t k then S (count c k) else count c k.
Proof.
  unfold count at 1. rewrite get_incr.
  destruct (String.eqb t k); reflexivity.
Qed.

Lemma get_update (ts : list string) (c : dict nat) (k : string) :
  NoDup ts ->
  get (update c ts) k = if Py.mem k ts then Some (S (count c k)) else get c k.
Proof.
  unfold update. intro Hnd. revert c.
  induction Hnd as [|t ts Hnotin Hnd IH]; intro c; simpl.
  - reflexivity.
  - rewrite IH, get_incr, count_incr.
    destruct (String.eqb_spec k t) as [->|Hkt]; simpl.
    + rewrite String.eqb_refl.
      destruct (Py.mem t ts) eqn:E; [|reflexivity].
      apply mem_In in E. contradiction.
    + destruct (String.eqb_spec t k) as [->|_]; [congruence|].
      reflexivity.
Qed.

Lemma count_update (ts : list string) (c : dict nat) (k : string) :
  NoDup ts ->
  count (update c ts) k = if Py.mem k ts then S (count c k) else count c k.
Proof.
  intro Hnd. unfold count at 1. rewrite get_update by exact Hnd.
  destruct (Py.mem k ts); reflexivity.
Qed.

Lemma doc_freq_cons (k : string) (toks : list string) (rest : list (list string)) :
  Spec.doc_freq k (toks :: rest)
  = ((if Py.mem k toks then 1 else 0) + Spec.doc_freq k rest)%nat.
Proof.
  unfold Spec.doc_freq. simpl. destruct (Py.mem k toks); reflexivity.
Qed.

Lemma get_df_fold (tokenized : list (list string)) (c : dict nat) (k : string) :
  get (fold_left (fun c toks => update c (set_of toks)) tokenized c) k
  = if (Spec.doc_freq k tokenized =? 0)%nat then get c k
    else Some (count c k + Spec.doc_freq k tokenized)%nat.
Proof.
  revert c. induction tokenized as [|toks rest IH]; intro c.
  - reflexivity.
  - cbn [fold_left]. rewrite IH, doc_freq_cons.
    rewrite get_update, count_update by apply NoDup_nodup.
    rewrite mem_set_of.
    generalize (Spec.doc_freq k rest). intro d.
    destruct (Py.mem k toks); destruct d as [|d]; simpl;
      try reflexivity; f_equal; lia.
Qed.

(** The counter holds, for every term of the corpus, the number of chunks
    the term occurs in, and nothing for any other term. *)
Lemma get_df_counter (tokenized : list (list string)) (k : string) :
  get (df_counter tokenized) k
  = if (Spec.doc_freq k tokenized =? 0)%nat then None
    else Some (Spec.doc_freq k tokenized).
Proof.
  unfold df_counter. rewrite get_df_fold. reflexivity.
Qed.

Lemma doc_freq_le (k : string) (tokenized : list (list string)) :
  (Spec.doc_freq k tokenized <= List.length tokenized)%nat.
Proof. apply filter_length_le. Qed.

Lemma doc_freq_pos (k : string) (tokenized : list (list string)) :
  (Spec.doc_freq k tokenized <> 0)%nat
  <-> exists toks, In toks tokenized /\ In k toks.
Proof.
  unfold Spec.doc_freq. split.
  - intro H.
    destruct (filter (fun toks => Py.mem k toks) tokenized) as [|toks l] eqn:E;
      [contradiction|].
    assert (Hin : In toks (filter (fun toks => Py.mem k toks) tokenized))
      by (rewrite E; left; reflexivity).
    apply filter_In in Hin. destruct Hin as [Hin Hm].
    exists toks. split; [exact Hin | apply mem_In; exact Hm].
  - intros [toks [Hin Hk]] E.
    apply length_zero_iff_nil in E.
    assert (Hf : In toks (filter (fun toks => Py.mem k toks) tokenized)).
    { apply filter_In. split; [exact Hin | apply mem_In; exact Hk]. }
    rewrite E in Hf. exact Hf.
Qed.

Lemma get_map_values {A B : Type} (f : A -> B) (d : dict A) (k : string) :
  get (map (fun '(t, v) => (t, f v)) d) k = option_map f (get d k).
Proof.
  induction d as [|[t v] r IH]; simpl; [reflexivity|].
  destruct (String.eqb t k); [reflexivity | exact IH].
Qed.

Lemma get_build_idf (tokenized : list (list string)) (k : string) :
  get (build_idf tokenized) k
  = if (Spec.doc_freq k tokenized =? 0)%nat then None
    else Some (ln (INR (n_docs tokenized + 1)
                   / INR (Spec.doc_freq k tokenized + 1)) + 1)%R.
Proof.
  unfold build_idf.
  rewrite (get_map_values
             (fun df => (ln (INR (n_docs tokenized + 1) / INR (df + 1)) + 1)%R)).
  rewrite get_df_counter.
  destruct (Spec.doc_freq k tokenized =? 0)%nat; reflexivity.
Qed.

Lemma ln_nonneg (x : R) : (1 <= x)%R -> (0 <= ln x)%R.
Proof.
  intros [H|H].
  - left. rewrite <- ln_1. apply ln_increasing; [lra | exact H].
  - rewrite <- H, ln_1. lra.
Qed.

Lemma smoothed_ratio_ge_1 (n df : nat) :
  (df <= n)%nat -> (1 <= INR (n + 1) / INR (df + 1))%R.
Proof.
  intro H.
  assert (Hd : (0 < INR (df + 1))%R) by (apply lt_0_INR; lia).
  apply (Rmult_le_reg_r (INR (df + 1))); [exact Hd|].
  unfold Rdiv. rewrite Rmult_assoc, Rinv_l by lra.
  rewrite Rmult_1_l, Rmult_1_r. apply le_INR. lia.
Qed.

Lemma get_enumerate_none {A : Type} (d : dict A) (i : nat) (k : string) :
  get (enumerate_from i (map fst d)) k = None <-> get d k = None.
Proof.
  revert i. induction d as [|[t v] r IH]; intro i; simpl.
  - tauto.
  - destruct (String.eqb t k); [split; discriminate | apply IH].
Qed.

(** The vocabulary and the IDF table hold the same terms. *)
Lemma get_build_vocab_none (d : dict R) (k : string) :
  get d k = None -> get (build_vocab d) k = None.
Proof. intro H. apply get_enumerate_none. exact H. Qed.

End Index.

(** C8: for every corpus and every term of the vocabulary, with [N] the
    larger of 1 and the number of chunks and [df] the number of chunks the
    term occurs in, the index holds [ln ((N + 1) / (df + 1)) + 1] as the
    term's IDF, and that value is positive; [df] is at least 1 and at
    most the number of chunks. *)
Theorem idf_smoothed_positive
    (BM25Okapi : list (list string) -> list string -> list R) (a : R)
    (corpus : list Retriever.Chunk) (t : string) :
  let self := Retriever._load BM25Okapi a (Some corpus) in
  let N := Nat.max 1 (List.length corpus) in
  let df := Spec.doc_freq t (Retriever.tokenized_corpus self) in
  Retriever.get (Retriever.vocab self) t <> None ->
  Retriever.tokenized_corpus self
  = map (fun c => Retriever.tokenize (Retriever.text c)) corpus
  /\ (1 <= df <= List.length corpus)%nat
  /\ exists v : R,
       Retriever.get (Retriever.idf self) t = Some v
       /\ v = (ln ((INR N + 1) / (INR df + 1)) + 1)%R
       /\ (0 < v)%R.
Proof.
  intros self N df Hvocab.
  assert (Htok : Retriever.tokenized_corpus self
                 = map (fun c => Retriever.tokenize (Retriever.text c)) corpus)
    by reflexivity.
  assert (Hidf : Retriever.idf self
                 = Retriever.build_idf (Retriever.tokenized_corpus self))
    by reflexivity.
  assert (Hv : Retriever.vocab self = Retriever.build_vocab (Retriever.idf self))
    by reflexivity.
  assert (Hlen : List.length (Retriever.tokenized_corpus self) = List.length corpus).
  { rewrite Htok. apply length_map. }
  assert (Hdf : df <> 0%nat).
  { intro E. apply Hvocab. rewrite Hv. apply get_build_vocab_none.
    rewrite Hidf, get_build_idf. fold df. rewrite E. reflexivity. }
  pose proof (doc_freq_le t (Retriever.tokenized_corpus self)) as Hle.
  fold df in Hle. rewrite Hlen in Hle.
  split; [exact Htok|]. split; [lia|].
  exists (ln ((INR N + 1) / (INR df + 1)) + 1)%R.
  split; [|split].
  - rewrite Hidf, get_build_idf. fold df.
    destruct (Nat.eqb_spec df 0) as [E|_]; [contradiction|].
    unfold Retriever.n_docs. rewrite Hlen. fold N.
    rewrite !plus_INR. reflexivity.
  - reflexivity.
  - assert (H1 : (1 <= INR (N + 1) / INR (df + 1))%R).
    { apply smoothed_ratio_ge_1. unfold N. lia. }
    rewrite !plus_INR in H1. simpl INR in H1.
    pose proof (ln_nonneg _ H1). lra.
Qed.

Lemma idf_smoothed_positive_witness :
  let self :=
    Retriever._load Lib.overlap_scorer 0.65
      (Some [Examples.q2_chunk; Examples.q1_chunk]) in
  let df := Spec.doc_freq "in" (Retriever.tokenized_corpus self) in
  Retriever.tokenized_corpus self
  = map (fun c => Retriever.tokenize (Retriever.text c))
      [Examples.q2_chunk; Examples.q1_chunk]
  /\ (1 <= df <= 2)%nat
  /\ exists v : R,
       Retriever.get (Retriever.idf self) "in" = Some v
       /\ v = (ln ((INR (Nat.max 1 2) + 1) / (INR df + 1)) + 1)%R
       /\ (0 < v)%R.
Proof.
  apply (idf_smoothed_positive Lib.overlap_scorer 0.65
           [Examples.q2_chunk; Examples.q1_chunk] "in").
  vm_compute. discriminate.
Defined.

(* ================================================================== *)
(** * Retrieval: top-k selection *)

Section TopK.

Import Retriever.

Variable argsort : list R -> list nat.
Variable BM25Okapi : list (list string) -> list string -> list R.
Hypothesis argsort_ok : Lib.argsort_contract argsort.
Hypothesis scorer_ok : Lib.scorer_contract BM25Okapi.

Lemma argsort_length (a : list R) : List.length (argsort a) = List.length a.
Proof.
  rewrite (Permutation_length (argsort_ok a)). apply length_seq.
Qed.

Lemma argsort_in_range (a : list R) (i : nat) :
  In i (argsort a) -> (i < List.length a)%nat.
Proof.
  intro H. apply (Permutation_in _ (argsort_ok a)) in H.
  apply in_seq in H. lia.
Qed.

Lemma argsort_singleton (x : R) : argsort [x] = [0%nat].
Proof.
  apply Permutation_length_1_inv. apply Permutation_sym. apply (argsort_ok [x]).
Qed.

Lemma fuse_length (a : R) (x y : list R) :
  List.length (fuse a x y) = Nat.min (List.length x) (List.length y).
Proof. unfold fuse. rewrite length_map. apply length_combine. Qed.

Lemma loaded_bm25_scores (a : R) (corpus : list Chunk) (q : string) :
  corpus <> [] ->
  bm25_scores (_load BM25Okapi a (Some corpus)) q
  = BM25Okapi (map (fun c => tokenize (text c)) corpus) (tokenize q).
Proof.
  intro H. destruct corpus as [|c cs]; [congruence | reflexivity].
Qed.

Lemma loaded_hybrid_length (a : R) (corpus : list Chunk) (q : string) :
  corpus <> [] ->
  List.length (hybrid (_load BM25Okapi a (Some corpus)) q) = List.length corpus.
Proof.
  intro H. unfold hybrid, bm25_n, tfidf_n.
  rewrite fuse_length, !normalize_length, loaded_bm25_scores by exact H.
  rewrite scorer_ok. unfold tfidf_scores. rewrite !length_map.
  simpl. unfold build_doc_tfidf. rewrite !length_map. apply Nat.min_id.
Qed.

Lemma slice_to_length {A : Type} (k : Z) (l : list A) :
  List.length (Py.slice_to k l)
  = if (k <? 0)%Z then (List.length l - Z.to_nat (- k))%nat
    else Nat.min (Z.to_nat k) (List.length l).
Proof.
  unfold Py.slice_to. destruct (k <? 0)%Z; rewrite length_firstn; lia.
Qed.

Lemma search_length_any (self : HybridRetriever) (q : string) (k : Z) :
  (List.length (search argsort self q k)
   <= List.length (Py.slice_to k (argsort (map Ropp (hybrid self q)))))%nat.
Proof.
  unfold search. destruct (chunks self); simpl; [lia|].
  rewrite length_map. lia.
Qed.

(** The number of results: [k] of them when the corpus has that many,
    and for a negative [k] all but the last [-k] of the ranking. *)
Lemma search_length (a : R) (corpus : list Chunk) (q : string) (k : Z) :
  List.length (search argsort (_load BM25Okapi a (Some corpus)) q k)
  = if (k <? 0)%Z then (List.length corpus - Z.to_nat (- k))%nat
    else Nat.min (Z.to_nat k) (List.length corpus).
Proof.
  destruct corpus as [|c cs].
  - simpl. destruct (k <? 0)%Z; [reflexivity | symmetry; apply Nat.min_0_r].
  - unfold search. change (chunks (_load BM25Okapi a (Some (c :: cs)))) with (c :: cs).
    cbv iota. rewrite length_map, slice_to_length, argsort_length, length_map.
    rewrite loaded_hybrid_length by discriminate. reflexivity.
Qed.

(** The scores of a corpus of one chunk: both arrays have one element,
    so each has its maximum equal to its minimum and normalises to zero. *)
Lemma normalize_singleton (x : R) : normalize [x] = [0%R].
Proof.
  rewrite normalize_flat; [reflexivity|].
  unfold arr_max, arr_min. simpl. pose proof epsilon_pos. lra.
Qed.

Lemma length_1 {A : Type} (l : list A) :
  List.length l = 1%nat -> exists x, l = [x].
Proof.
  destruct l as [|x [|y l]]; simpl; intro H; try discriminate.
  exists x. reflexivity.
Qed.

Lemma search_single_chunk (a : R) (c : Chunk) (q : string) (k : Z) :
  (1 <= k)%Z ->
  search argsort (_load BM25Okapi a (Some [c])) q k = [mkScored c 0 0 0].
Proof.
  intro Hk. set (self := _load BM25Okapi a (Some [c])).
  assert (Hb : bm25_n self q = [0%R]).
  { unfold bm25_n. unfold self. rewrite loaded_bm25_scores by discriminate.
    destruct (length_1 (BM25Okapi (map (fun c => tokenize (text c)) [c]) (tokenize q)))
      as [x ->]; [apply scorer_ok | apply normalize_singleton]. }
  assert (Ht : tfidf_n self q = [0%R]).
  { unfold tfidf_n, tfidf_scores. simpl. apply normalize_singleton. }
  assert (Hh : hybrid self q = [(a * 0 + (1 - a) * 0)%R]).
  { unfold hybrid. rewrite Hb, Ht. reflexivity. }
  unfold search. change (chunks self) with [c]. cbv iota.
  rewrite Hh, Hb, Ht. simpl map at 2. rewrite argsort_singleton.
  unfold Py.slice_to. destruct (Z.ltb_spec k 0) as [H|_]; [lia|].
  destruct (Z.to_nat k) as [|n] eqn:E; [lia|].
  simpl. rewrite firstn_nil. simpl. do 2 f_equal. ring.
Qed.

End TopK.

Lemma insert_index_perm (a : list R) (i : nat) (l : list nat) :
  Permutation (Lib.insert_index a i l) (i :: l).
Proof.
  induction l as [|j r IH]; simpl.
  - apply Permutation_refl.
  - destruct (Rle_dec _ _).
    + apply Permutation_refl.
    + eapply Permutation_trans; [apply perm_skip, IH | apply perm_swap].
Qed.

Lemma insertion_argsort_ok : Lib.argsort_contract Lib.insertion_argsort.
Proof.
  intro a. unfold Lib.insertion_argsort.
  induction (seq 0 (List.length a)) as [|i l IH]; simpl.
  - apply Permutation_refl.
  - eapply Permutation_trans; [apply insert_index_perm | apply perm_skip, IH].
Qed.

Lemma overlap_scorer_ok : Lib.scorer_contract Lib.overlap_scorer.
Proof. intros corpus q. apply length_map. Qed.

(** C4, as stated, fails for a negative [k]: on a corpus of two chunks
    [search] with [k = -1] returns one result, whatever [argsort] and the
    BM25 scorer compute. *)
Lemma search_negative_k_not_empty :
  ~ exists (argsort : list R -> list nat)
           (BM25Okapi : list (list string) -> list string -> list R),
      Lib.argsort_contract argsort /\ Lib.scorer_contract BM25Okapi
      /\ let results :=
           Retriever.search argsort
             (Retriever._load BM25Okapi 0.65
                (Some [Examples.q2_chunk; Examples.q1_chunk]))
             Examples.question (-1) in
         (Z.of_nat (List.length results) <= -1)%Z
         /\ ((-1 <= 0)%Z -> results = []).
Proof.
  intros [argsort [BM [Ha [Hb [_ H]]]]].
  assert (Hz : (-1 <= 0)%Z) by lia.
  specialize (H Hz). apply (f_equal (@List.length _)) in H.
  rewrite (search_length argsort BM Ha Hb) in H. discriminate H.
Qed.

(** C4, amended: for every retriever, every query and every [k >= 0],
    [search] returns at most [k] results, and none when [k = 0]. *)
Theorem search_at_most_k (argsort : list R -> list nat)
    (self : Retriever.HybridRetriever) (query : string) (k : Z) :
  (0 <= k)%Z ->
  (Z.of_nat (List.length (Retriever.search argsort self query k)) <= k)%Z
  /\ (k = 0%Z -> Retriever.search argsort self query k = []).
Proof.
  intro Hk.
  pose proof (search_length_any argsort self query k) as H.
  rewrite slice_to_length in H.
  destruct (Z.ltb_spec k 0) as [Hneg|_]; [lia|].
  split; [lia|].
  intro E. subst k. simpl in H.
  destruct (Retriever.search argsort self query 0); [reflexivity | simpl in H; lia].
Qed.

Lemma search_at_most_k_witness :
  (Z.of_nat (List.length
     (Retriever.search Lib.insertion_argsort
        (Retriever._load Lib.overlap_scorer 0.65
           (Some [Examples.q2_chunk; Examples.q1_chunk]))
        Examples.question 1)) <= 1)%Z
  /\ (1%Z = 0%Z ->
      Retriever.search Lib.insertion_argsort
        (Retriever._load Lib.overlap_scorer 0.65
           (Some [Examples.q2_chunk; Examples.q1_chunk]))
        Examples.question 1 = []).
Proof.
  apply search_at_most_k. lia.
Defined.

(** C6, as stated, fails: the hybrid score of the only chunk is not 1,
    whatever [argsort] and the BM25 scorer compute. *)
Lemma single_chunk_score_not_one :
  ~ exists (argsort : list R -> list nat)
           (BM25Okapi : list (list string) -> list string -> list R)
           (r : Retriever.ScoredChunk),
      Lib.argsort_contract argsort /\ Lib.scorer_contract BM25Okapi
      /\ Retriever.search argsort
           (Retriever._load BM25Okapi 0.65 (Some [Examples.q2_chunk]))
           Examples.question 3 = [r]
      /\ Retriever.score r = 1%R.
Proof.
  intros [argsort [BM [r [Ha [Hb [Hs Hr]]]]]].
  rewrite (search_single_chunk argsort BM Ha Hb) in Hs by lia.
  injection Hs as <-. simpl in Hr. lra.
Qed.

(* ================================================================== *)
(** * Answer composition *)

Section Compose.

Import Models Agent.

Lemma append_assoc (a b c : string) : (a ++ b) ++ c = a ++ b ++ c.
Proof. induction a as [|x a IH]; simpl; [reflexivity | f_equal; exact IH]. Qed.

Lemma extractive_text (prompt : string) (results : list Retriever.ScoredChunk) :
  extractive prompt results = prompt ++ blank_line ++ Spec.evidence_and_tags results.
Proof.
  unfold extractive, Spec.evidence_and_tags. apply append_assoc.
Qed.

(** Every response the retrieval branch returns for a list of results
    that is not empty carries the citations and the sources of these
    results. *)
Lemma answer_rag_shape (w : World) (q : string)
    (results : list Retriever.ScoredChunk) (resp : AnswerResponse) :
  results <> [] ->
  answer_rag w q results = Ok resp ->
  citations resp = map citation_of results
  /\ sources resp = sources_of results.
Proof.
  intros Hne H. destruct results as [|r rs]; [congruence|].
  unfold answer_rag in H.
  destruct (Llm.is_configured (host w)).
  - destruct (Llm.synthesize_answer _ _ _ _); [|discriminate].
    injection H as <-. split; reflexivity.
  - injection H as <-. split; reflexivity.
Qed.

Lemma answer_rag_unconfigured (w : World) (q : string)
    (results : list Retriever.ScoredChunk) :
  results <> [] ->
  Llm.is_configured (host w) = false ->
  exists resp,
    answer_rag w q results = Ok resp
    /\ Models.answer resp = extractive (SYSTEM_PROMPT w) results.
Proof.
  intros Hne Hc. destruct results as [|r rs]; [congruence|].
  unfold answer_rag. rewrite Hc. eexists. split; reflexivity.
Qed.

Lemma answer_rag_raises (w : World) (q : string)
    (results : list Retriever.ScoredChunk) (e : Llm.Exn) :
  results <> [] ->
  Llm.is_configured (host w) = true ->
  Llm.synthesize_answer (host w) (SYSTEM_PROMPT w) q
    (map (fun r => (tag_of r, Retriever.text (Retriever.chunk r))) results)
  = Raise e ->
  answer_rag w q results = Raise e.
Proof.
  intros Hne Hc Hs. destruct results as [|r rs]; [congruence|].
  unfold answer_rag. rewrite Hc, Hs. reflexivity.
Qed.

Lemma answer_retrieval_path (w : World) (q : string) (k : Z) :
  _is_price_query q = false ->
  Agent.answer w q k
  = answer_rag w q (Retriever.search (argsort w) (_get_retriever w) q k).
Proof. intro H. unfold Agent.answer. rewrite H. reflexivity. Qed.

(** What makes the call to the local generator fail. *)
Lemma ollama_chat_transport_failure (h : Llm.Host) (system user : string)
    (e : Llm.Exn) :
  Llm.requests_post h
    (Llm.getenv_default h "OLLAMA_BASE_URL" "http://localhost:11434" ++ "/api/chat")
    (Llm.model_name h) system user = Raise e ->
  Llm._ollama_chat h system user = Raise e.
Proof. intro H. unfold Llm._ollama_chat. rewrite H. reflexivity. Qed.

Lemma ollama_chat_status_failure (h : Llm.Host) (system user : string)
    (resp : Llm.Response) :
  Llm.requests_post h
    (Llm.getenv_default h "OLLAMA_BASE_URL" "http://localhost:11434" ++ "/api/chat")
    (Llm.model_name h) system user = Ok resp ->
  (400 <= Llm.status_code resp < 600)%Z ->
  Llm._ollama_chat h system user = Raise (Llm.HTTPError (Llm.status_code resp)).
Proof.
  intros H Hs. unfold Llm._ollama_chat, Llm.raise_for_status. rewrite H.
  destruct (Z.leb_spec 400 (Llm.status_code resp)); [|lia].
  destruct (Z.ltb_spec (Llm.status_code resp) 600); [|lia].
  reflexivity.
Qed.

Lemma synthesize_answer_ollama_failure (h : Llm.Host)
    (system question : string) (contexts : list (string * string)) (e : Llm.Exn) :
  Llm.provider h = "ollama" ->
  Llm._ollama_chat h system (Llm.user_content question contexts) = Raise e ->
  Llm.synthesize_answer h system question contexts = Raise e.
Proof.
  intros Hp H. unfold Llm.synthesize_answer. rewrite Hp, H. reflexivity.
Qed.

End Compose.

(* ================================================================== *)
(** * The list of sources *)

Section Sources.

Import Agent.

Lemma leb_true_lt (x y : string) :
  String.leb x y = true -> x <> y -> Spec.str_lt x y.
Proof.
  unfold String.leb, Spec.str_lt. intros H Hne.
  destruct (String.compare x y) eqn:E; [|reflexivity|discriminate].
  apply String.compare_eq_iff in E. contradiction.
Qed.

Lemma leb_false_lt (x y : string) : String.leb x y = false -> Spec.str_lt y x.
Proof.
  unfold String.leb, Spec.str_lt. intro H.
  rewrite String.compare_antisym.
  destruct (String.compare x y); try discriminate. reflexivity.
Qed.

Lemma insert_sorted_perm (x : string) (l : list string) :
  Permutation (insert_sorted x l) (x :: l).
Proof.
  induction l as [|y r IH]; simpl.
  - apply Permutation_refl.
  - destruct (String.leb x y).
    + apply Permutation_refl.
    + eapply Permutation_trans; [apply perm_skip, IH | apply perm_swap].
Qed.

Lemma sorted_perm (l : list string) : Permutation (sorted l) l.
Proof.
  induction l as [|x l IH]; simpl.
  - apply Permutation_refl.
  - eapply Permutation_trans; [apply insert_sorted_perm | apply perm_skip, IH].
Qed.

Lemma insert_sorted_hd (x y : string) (l : list string) :
  Spec.str_lt y x -> HdRel Spec.str_lt y l -> HdRel Spec.str_lt y (insert_sorted x l).
Proof.
  intros Hyx Hl. destruct l as [|z r]; simpl.
  - constructor. exact Hyx.
  - destruct (String.leb x z); constructor; [exact Hyx|].
    inversion Hl. assumption.
Qed.

Lemma insert_sorted_sorted (x : string) (l : list string) :
  ~ In x l -> Sorted Spec.str_lt l -> Sorted Spec.str_lt (insert_sorted x l).
Proof.
  intros Hnin Hs. induction Hs as [|y r Hr IH Hhd]; simpl.
  - repeat constructor.
  - destruct (String.leb x y) eqn:E.
    + constructor; [constructor; assumption|].
      constructor. apply leb_true_lt; [exact E|].
      intro Heq. apply Hnin. left. symmetry. exact Heq.
    + constructor.
      * apply IH. intro Hin. apply Hnin. right. exact Hin.
      * apply insert_sorted_hd; [apply leb_false_lt; exact E | exact Hhd].
Qed.

Lemma sorted_strictly (l : list string) :
  NoDup l -> Sorted Spec.str_lt (sorted l).
Proof.
  intro Hnd. induction Hnd as [|x l Hnin Hnd IH]; simpl.
  - constructor.
  - apply insert_sorted_sorted; [|exact IH].
    intro Hin. apply Hnin. apply (Permutation_in _ (sorted_perm l)). exact Hin.
Qed.

(** The sources of a list of results: strictly ascending, so without a
    duplicate, and the sources of the results and no other. *)
Lemma sources_of_spec (results : list Retriever.ScoredChunk) :
  Sorted Spec.str_lt (sources_of results)
  /\ NoDup (sources_of results)
  /\ forall s, In s (sources_of results)
               <-> exists r, In r results
                             /\ Retriever.source (Retriever.chunk r) = s.
Proof.
  unfold sources_of.
  set (srcs := map (fun r => Retriever.source (Retriever.chunk r)) results).
  assert (Hp : Permutation (sorted (Retriever.set_of srcs)) (Retriever.set_of srcs))
    by apply sorted_perm.
  split; [apply sorted_strictly, NoDup_nodup|].
  split.
  - apply (Permutation_NoDup (Permutation_sym Hp)). apply NoDup_nodup.
  - intro s. split.
    + intro H. apply (Permutation_in _ Hp) in H.
      apply nodup_In in H. apply in_map_iff in H.
      destruct H as [r [E Hr]]. exists r. split; assumption.
    + intros [r [Hr E]].
      apply (Permutation_in _ (Permutation_sym Hp)).
      apply nodup_In. apply in_map_iff. exists r. split; assumption.
Qed.

Lemma citations_point_at (results : list Retriever.ScoredChunk) :
  Forall2 Spec.points_at results (map citation_of results).
Proof.
  induction results as [|r rs IH]; simpl; constructor.
  - repeat split.
  - exact IH.
Qed.

End Sources.

(** The search of the examples: one chunk in the corpus. *)
Lemma example_search (h : Llm.Host) :
  Retriever.search (Agent.argsort (Examples.world_of h [Examples.q2_chunk]))
    (Agent._get_retriever (Examples.world_of h [Examples.q2_chunk]))
    Examples.question 3
  = [Retriever.mkScored Examples.q2_chunk 0 0 0].
Proof.
  apply (search_single_chunk _ _ insertion_argsort_ok overlap_scorer_ok). lia.
Qed.

Lemma example_answer_off :
  exists resp,
    Agent.answer (Examples.world_of Examples.host_off [Examples.q2_chunk])
      Examples.question 3 = Ok resp.
Proof.
  rewrite answer_retrieval_path by reflexivity.
  rewrite example_search. eexists. reflexivity.
Qed.

(** C3, as stated, fails: with the default provider and a generator that
    does not answer in time, [answer] on the retrieval path raises the
    timeout; it returns no response. *)
Lemma generation_timeout_propagates :
  let w := Examples.world_of Examples.host_timeout [Examples.q2_chunk] in
  Agent._is_price_query Examples.question = false
  /\ Llm.is_configured (Agent.host w) = true
  /\ Retriever.search (Agent.argsort w) (Agent._get_retriever w)
       Examples.question 3
     = [Retriever.mkScored Examples.q2_chunk 0 0 0]
  /\ Agent.answer w Examples.question 3 = Raise Llm.Timeout.
Proof.
  intro w.
  assert (Hs : Retriever.search (Agent.argsort w) (Agent._get_retriever w)
                 Examples.question 3
               = [Retriever.mkScored Examples.q2_chunk 0 0 0]).
  { apply (search_single_chunk _ _ insertion_argsort_ok overlap_scorer_ok). lia. }
  split; [reflexivity|]. split; [reflexivity|]. split; [exact Hs|].
  rewrite answer_retrieval_path by reflexivity.
  rewrite Hs. reflexivity.
Qed.

(** C3, amended: on the retrieval path, with a result list that is not
    empty and a generator configured, a failure of the generation call is
    raised by [answer] to its caller; no response is returned and the
    extractive composition is not used. *)
Theorem generation_failure_propagates (w : Agent.World) (question : string)
    (k : Z) (e : Llm.Exn) :
  let results :=
    Retriever.search (Agent.argsort w) (Agent._get_retriever w) question k in
  Agent._is_price_query question = false ->
  results <> [] ->
  Llm.is_configured (Agent.host w) = true ->
  Llm.synthesize_answer (Agent.host w) (Agent.SYSTEM_PROMPT w) question
    (map (fun r => (Agent.tag_of r, Retriever.text (Retriever.chunk r))) results)
  = Raise e ->
  Agent.answer w question k = Raise e.
Proof.
  intros results Hq Hne Hc Hs.
  rewrite answer_retrieval_path by exact Hq.
  apply answer_rag_raises; assumption.
Qed.

Lemma generation_failure_propagates_witness :
  Agent.answer (Examples.world_of Examples.host_timeout [Examples.q2_chunk])
    Examples.question 3
  = Raise Llm.Timeout.
Proof.
  apply (generation_failure_propagates
           (Examples.world_of Examples.host_timeout [Examples.q2_chunk])
           Examples.question 3 Llm.Timeout).
  - reflexivity.
  - rewrite example_search. discriminate.
  - reflexivity.
  - rewrite example_search. reflexivity.
Defined.

(** C6, amended: on the corpus of the one chunk, for the question
    "Did the letter mention SPY?" and [k = 3], [search] returns that
    chunk alone, with hybrid score 0 and both normalised scores 0 (an
    array of one score has its maximum equal to its minimum); every
    response [answer] returns has the one citation of that chunk and the
    sources ["q2_letter.html"], and [answer] returns a response when no
    generator is configured. *)
Theorem single_chunk_end_to_end (w : Agent.World) :
  Agent.corpus_file w = Some [Examples.q2_chunk] ->
  Lib.argsort_contract (Agent.argsort w) ->
  Lib.scorer_contract (Agent.BM25Okapi w) ->
  Retriever.search (Agent.argsort w) (Agent._get_retriever w) Examples.question 3
  = [Retriever.mkScored Examples.q2_chunk 0 0 0]
  /\ (forall resp,
        Agent.answer w Examples.question 3 = Ok resp ->
        Models.citations resp = [Models.mkCitation "q2_letter.html" 0 20]
        /\ Models.sources resp = ["q2_letter.html"])
  /\ (Llm.is_configured (Agent.host w) = false ->
      exists resp, Agent.answer w Examples.question 3 = Ok resp).
Proof.
  intros Hc Ha Hb.
  assert (Hs : Retriever.search (Agent.argsort w) (Agent._get_retriever w)
                 Examples.question 3
               = [Retriever.mkScored Examples.q2_chunk 0 0 0]).
  { unfold Agent._get_retriever. rewrite Hc.
    apply (search_single_chunk _ _ Ha Hb). lia. }
  assert (Hq : Agent._is_price_query Examples.question = false) by reflexivity.
  split; [exact Hs|]. split.
  - intros resp H. rewrite (answer_retrieval_path w _ _ Hq), Hs in H.
    apply answer_rag_shape in H; [|discriminate].
    destruct H as [-> ->]. split; reflexivity.
  - intro Hn. rewrite (answer_retrieval_path w _ _ Hq), Hs.
    destruct (answer_rag_unconfigured w Examples.question
                [Retriever.mkScored Examples.q2_chunk 0 0 0]) as [resp [H _]];
      [discriminate | exact Hn |].
    exists resp. exact H.
Qed.

Lemma single_chunk_end_to_end_witness :
  let w := Examples.world_of Examples.host_off [Examples.q2_chunk] in
  Retriever.search (Agent.argsort w) (Agent._get_retriever w) Examples.question 3
  = [Retriever.mkScored Examples.q2_chunk 0 0 0]
  /\ (forall resp,
        Agent.answer w Examples.question 3 = Ok resp ->
        Models.citations resp = [Models.mkCitation "q2_letter.html" 0 20]
        /\ Models.sources resp = ["q2_letter.html"])
  /\ (Llm.is_configured (Agent.host w) = false ->
      exists resp, Agent.answer w Examples.question 3 = Ok resp).
Proof.
  apply (single_chunk_end_to_end
           (Examples.world_of Examples.host_off [Examples.q2_chunk])).
  - reflexivity.
  - apply insertion_argsort_ok.
  - apply overlap_scorer_ok.
Defined.

(** C9, as stated, fails: in the test environment, with no generator
    configured, the answer to the question over the corpus of the one
    chunk starts with the system prompt, so it is not the evidence text
    followed by the tags. *)
Lemma extractive_answer_starts_with_prompt :
  let w := Examples.world_of Examples.host_off [Examples.q2_chunk] in
  let results :=
    Retriever.search (Agent.argsort w) (Agent._get_retriever w)
      Examples.question 3 in
  Llm.is_configured (Agent.host w) = false
  /\ results <> []
  /\ exists resp,
       Agent.answer w Examples.question 3 = Ok resp
       /\ Models.answer resp <> Spec.evidence_and_tags results
       /\ Py.startswith "Answer using provided context only; cite chunks like"
            (Models.answer resp) = true.
Proof.
  intros w results.
  assert (Hs : results = [Retriever.mkScored Examples.q2_chunk 0 0 0]).
  { apply (search_single_chunk _ _ insertion_argsort_ok overlap_scorer_ok). lia. }
  split; [reflexivity|]. split; [rewrite Hs; discriminate|].
  rewrite answer_retrieval_path by reflexivity.
  fold w. fold results. rewrite Hs.
  eexists. split; [reflexivity|]. split; [|reflexivity].
  vm_compute. discriminate.
Qed.

(** C9, amended: on the retrieval path, with a result list that is not
    empty and no generator configured, the answer text is the system
    prompt, a blank line, the texts of the results in rank order
    separated by blank lines, a blank line, and the tags
    [[source@start:end]] of the results separated by spaces. *)
Theorem extractive_answer_text (w : Agent.World) (question : string) (k : Z) :
  let results :=
    Retriever.search (Agent.argsort w) (Agent._get_retriever w) question k in
  Agent._is_price_query question = false ->
  results <> [] ->
  Llm.is_configured (Agent.host w) = false ->
  exists resp,
    Agent.answer w question k = Ok resp
    /\ Models.answer resp
       = Agent.SYSTEM_PROMPT w ++ Agent.blank_line ++ Spec.evidence_and_tags results.
Proof.
  intros results Hq Hne Hc.
  rewrite answer_retrieval_path by exact Hq.
  destruct (answer_rag_unconfigured w question results Hne Hc) as [resp [H E]].
  exists resp. split; [exact H|].
  rewrite E. apply extractive_text.
Qed.

Lemma extractive_answer_text_witness :
  let w := Examples.world_of Examples.host_off [Examples.q2_chunk] in
  exists resp,
    Agent.answer w Examples.question 3 = Ok resp
    /\ Models.answer resp
       = Agent.SYSTEM_PROMPT w ++ Agent.blank_line
         ++ Spec.evidence_and_tags
              (Retriever.search (Agent.argsort w) (Agent._get_retriever w)
                 Examples.question 3).
Proof.
  apply (extractive_answer_text
           (Examples.world_of Examples.host_off [Examples.q2_chunk])
           Examples.question 3).
  - reflexivity.
  - rewrite example_search. discriminate.
  - reflexivity.
Defined.

(** C10: on the retrieval path, for a result list that is not empty, the
    response [answer] returns has one citation per result, in the order
    of the results, each with the source, start and end of its result;
    its sources are strictly ascending, hence without a duplicate, and
    are the sources of the results and no other. *)
Theorem answer_citations_and_sources (w : Agent.World) (question : string)
    (k : Z) (resp : Models.AnswerResponse) :
  let results :=
    Retriever.search (Agent.argsort w) (Agent._get_retriever w) question k in
  Agent._is_price_query question = false ->
  results <> [] ->
  Agent.answer w question k = Ok resp ->
  Forall2 Spec.points_at results (Models.citations resp)
  /\ Sorted Spec.str_lt (Models.sources resp)
  /\ NoDup (Models.sources resp)
  /\ forall s, In s (Models.sources resp)
               <-> exists r, In r results
                             /\ Retriever.source (Retriever.chunk r) = s.
Proof.
  intros results Hq Hne H.
  rewrite answer_retrieval_path in H by exact Hq.
  apply answer_rag_shape in H; [|exact Hne].
  destruct H as [-> ->].
  split; [apply citations_point_at | apply sources_of_spec].
Qed.

Lemma answer_citations_and_sources_witness :
  let w := Examples.world_of Examples.host_off [Examples.q2_chunk] in
  let results :=
    Retriever.search (Agent.argsort w) (Agent._get_retriever w)
      Examples.question 3 in
  exists resp,
    Agent.answer w Examples.question 3 = Ok resp
    /\ Forall2 Spec.points_at results (Models.citations resp)
    /\ Sorted Spec.str_lt (Models.sources resp)
    /\ NoDup (Models.sources resp)
    /\ forall s, In s (Models.sources resp)
                 <-> exists r, In r results
                               /\ Retriever.source (Retriever.chunk r) = s.
Proof.
  intros w results.
  destruct example_answer_off as [resp H].
  exists resp. split; [exact H|].
  apply (answer_citations_and_sources w Examples.question 3 resp).
  - reflexivity.
  - unfold w. rewrite example_search. discriminate.
  - exact H.
Defined.

(* ================================================================== *)
(** * Supplements *)

(** The sanitizer inside [answer]: with a generator configured and a
    generation that succeeds, the answer text is the sanitized generation,
    and it carries an allowed tag when the generated text is not empty. *)
Lemma generated_answer_cites (w : Agent.World) (question : string) (k : Z)
    (text : string) :
  let results :=
    Retriever.search (Agent.argsort w) (Agent._get_retriever w) question k in
  let allowed := map Agent.tag_of results in
  Agent._is_price_query question = false ->
  results <> [] ->
  Llm.is_configured (Agent.host w) = true ->
  Llm.synthesize_answer (Agent.host w) (Agent.SYSTEM_PROMPT w) question
    (map (fun r => (Agent.tag_of r, Retriever.text (Retriever.chunk r))) results)
  = Ok text ->
  exists resp,
    Agent.answer w question k = Ok resp
    /\ Models.answer resp = Spec.sanitize text allowed
    /\ (text <> "" -> Spec.cites_allowed allowed (Models.answer resp)).
Proof.
  intros results allowed Hq Hne Hc Hs.
  rewrite answer_retrieval_path by exact Hq. fold results.
  assert (Ha : map fst
                 (map (fun r => (Agent.tag_of r, Retriever.text (Retriever.chunk r)))
                    results) = allowed).
  { unfold allowed. rewrite map_map. reflexivity. }
  assert (Hal : allowed <> []).
  { unfold allowed. destruct results; [congruence | discriminate]. }
  unfold Agent.answer_rag.
  destruct results as [|r rs] eqn:E; [congruence|].
  rewrite Hc, Hs, Ha.
  eexists. split; [reflexivity|].
  split; [reflexivity|].
  intro Ht. apply sanitize_cites; assumption.
Qed.

(** With a generator that writes nothing the answer text is empty: the
    response has its citation list and no citation in its text. *)
Lemma silent_generator_answer :
  exists resp,
    Agent.answer (Examples.world_of Examples.host_silent [Examples.q2_chunk])
      Examples.question 3 = Ok resp
    /\ Models.answer resp = ""
    /\ Models.citations resp = [Models.mkCitation "q2_letter.html" 0 20].
Proof.
  rewrite answer_retrieval_path by reflexivity.
  rewrite example_search. eexists. split; [reflexivity|]. split; reflexivity.
Qed.

(** A transport failure or an error status of the local generator
    reaches the caller of [answer]. *)
Lemma ollama_failure_reaches_caller (w : Agent.World) (question : string)
    (k : Z) (e : Llm.Exn) :
  let results :=
    Retriever.search (Agent.argsort w) (Agent._get_retriever w) question k in
  Agent._is_price_query question = false ->
  results <> [] ->
  Llm.provider (Agent.host w) = "ollama" ->
  Llm._ollama_chat (Agent.host w) (Agent.SYSTEM_PROMPT w)
    (Llm.user_content question
       (map (fun r => (Agent.tag_of r, Retriever.text (Retriever.chunk r))) results))
  = Raise e ->
  Agent.answer w question k = Raise e.
Proof.
  intros results Hq Hne Hp Hs.
  rewrite answer_retrieval_path by exact Hq.
  apply answer_rag_raises; [exact Hne | |].
  - unfold Llm.is_configured. rewrite Hp. reflexivity.
  - apply synthesize_answer_ollama_failure; assumption.
Qed.

(** ** The order of the results

    Whatever [k] is, the results are in descending order of hybrid score,
    for every [argsort] that sorts.  The order among equal scores is the
    one [argsort] picks. *)
Section Ranking.

Import Retriever.

Variable argsort : list R -> list nat.
Hypothesis argsort_sorted : Lib.argsort_sorts argsort.

Lemma nth_opp (h : list R) (i : nat) :
  nth i (map Ropp h) 0%R = (- nth i h 0)%R.
Proof.
  pose proof (map_nth Ropp h 0%R i) as H. rewrite Ropp_0 in H. exact H.
Qed.

Lemma StronglySorted_firstn {A : Type} (rel : A -> A -> Prop) (n : nat)
    (l : list A) :
  StronglySorted rel l -> StronglySorted rel (firstn n l).
Proof.
  intro H. revert n. induction H as [|x l Hl IH Hx]; intro n.
  - rewrite firstn_nil. constructor.
  - destruct n as [|n]; simpl; constructor.
    + apply IH.
    + apply Forall_forall. intros y Hy.
      rewrite Forall_forall in Hx. apply Hx.
      rewrite <- (firstn_skipn n l). apply in_or_app. left. exact Hy.
Qed.

Lemma slice_to_sorted {A : Type} (rel : A -> A -> Prop) (k : Z) (l : list A) :
  StronglySorted rel l -> StronglySorted rel (Py.slice_to k l).
Proof.
  intro H. unfold Py.slice_to.
  destruct (k <? 0)%Z; apply StronglySorted_firstn; exact H.
Qed.

Lemma StronglySorted_map {A B : Type} (f : A -> B) (ra : A -> A -> Prop)
    (rb : B -> B -> Prop) (l : list A) :
  (forall x y, ra x y -> rb (f x) (f y)) ->
  StronglySorted ra l -> StronglySorted rb (map f l).
Proof.
  intros Hf H. induction H as [|x l Hl IH Hx]; simpl; constructor.
  - exact IH.
  - apply Forall_forall. intros b Hb. apply in_map_iff in Hb.
    destruct Hb as [y [<- Hy]]. apply Hf.
    rewrite Forall_forall in Hx. apply Hx. exact Hy.
Qed.

(** X9: whatever [k] is, the results of [search] are in descending order
    of hybrid score, for every [argsort] that sorts its array. *)
Lemma search_scores_descending (self : HybridRetriever) (q : string) (k : Z) :
  StronglySorted Rge (map score (search argsort self q k)).
Proof.
  unfold search. destruct (chunks self) as [|c cs]; [constructor|].
  rewrite map_map. cbn [score].
  apply (StronglySorted_map _
           (fun i j => (nth i (map Ropp (hybrid self q)) 0
                        <= nth j (map Ropp (hybrid self q)) 0)%R)).
  - intros i j H. rewrite !nth_opp in H. lra.
  - apply slice_to_sorted. apply argsort_sorted.
Qed.

End Ranking.

Lemma insert_index_sorted (a : list R) (i : nat) (l : list nat) :
  StronglySorted (fun i j => (nth i a 0 <= nth j a 0)%R) l ->
  StronglySorted (fun i j => (nth i a 0 <= nth j a 0)%R) (Lib.insert_index a i l).
Proof.
  intro H. induction H as [|j r Hr IH Hj]; simpl.
  - repeat constructor.
  - destruct (Rle_dec (nth i a 0%R) (nth j a 0%R)) as [Hle|Hgt].
    + constructor; [constructor; assumption|].
      constructor; [exact Hle|].
      apply Forall_forall. intros x Hx.
      rewrite Forall_forall in Hj. specialize (Hj x Hx). lra.
    + constructor; [exact IH|].
      apply (Permutation_Forall (Permutation_sym (insert_index_perm a i r))).
      constructor; [lra | exact Hj].
Qed.

Lemma insertion_argsort_sorts : Lib.argsort_sorts Lib.insertion_argsort.
Proof.
  intro a. unfold Lib.insertion_argsort.
  induction (seq 0 (List.length a)) as [|i l IH]; simpl.
  - constructor.
  - apply insert_index_sorted. exact IH.
Qed.

(* ================================================================== *)
(** * Further properties: the tokenizer *)

Section Tokenizer.

Import Retriever Props.

Lemma all_chars_app (p : ascii -> bool) (a b : string) :
  all_chars p (a ++ b) = all_chars p a && all_chars p b.
Proof.
  induction a as [|c a IH]; simpl; [reflexivity|].
  rewrite IH. apply andb_assoc.
Qed.

Lemma append_nonempty_r (a b : string) : b <> "" -> a ++ b <> "".
Proof. destruct a; simpl; [tauto | discriminate]. Qed.

Lemma run_single (c : ascii) : Py.is_lower_alnum c = true -> run (String c "").
Proof. intro H. split; [discriminate | simpl; rewrite H; reflexivity]. Qed.

Lemma run_snoc (a : string) (c : ascii) :
  run a -> Py.is_lower_alnum c = true -> run (a ++ String c "").
Proof.
  intros [Hne Ha] Hc. split.
  - apply append_nonempty_r. discriminate.
  - rewrite all_chars_app, Ha. simpl. rewrite Hc. reflexivity.
Qed.

Lemma token_of_run (a : string) : run a -> token_shape a.
Proof. intro H. exists a. split; [exact H | left; reflexivity]. Qed.

Lemma token_of_suffix (t : string) :
  (exists a b, run a /\ run b /\ t = a ++ "'" ++ b) -> token_shape t.
Proof.
  intros [a [b [Ha [Hb E]]]]. exists a. split; [exact Ha|].
  right. exists b. split; assumption.
Qed.

Lemma tok_scan_shape (s : string) (st : tok_state) :
  tok_state_ok st -> Forall token_shape (tok_scan st s).
Proof.
  revert st. induction s as [|c r IH]; intros st Hst.
  - destruct st; simpl in *; repeat constructor;
      [apply token_of_run | apply token_of_run | apply token_of_suffix]; exact Hst.
  - destruct st as [|a|a|t]; simpl in *.
    + destruct (Py.is_lower_alnum c) eqn:Hc; apply IH; simpl; [|exact I].
      apply run_single. exact Hc.
    + destruct (Py.is_lower_alnum c) eqn:Hc.
      * apply IH. simpl. apply run_snoc; assumption.
      * destruct (Ascii.eqb c "'"); [apply IH; exact Hst|].
        constructor; [apply token_of_run; exact Hst | apply IH; exact I].
    + destruct (Py.is_lower_alnum c) eqn:Hc.
      * apply IH. simpl. exists a, (String c ""). split; [exact Hst|].
        split; [apply run_single; exact Hc | reflexivity].
      * constructor; [apply token_of_run; exact Hst | apply IH; exact I].
    + destruct (Py.is_lower_alnum c) eqn:Hc.
      * apply IH. simpl. destruct Hst as [a [b [Ha [Hb ->]]]].
        exists a, (b ++ String c ""). split; [exact Ha|].
        split; [apply run_snoc; assumption|].
        rewrite !append_assoc. reflexivity.
      * constructor; [apply token_of_suffix; exact Hst | apply IH; exact I].
Qed.

Lemma tok_scan_busy (s : string) (st : tok_state) :
  st <> Idle -> tok_scan st s <> [].
Proof.
  revert st. induction s as [|c r IH]; intros st Hst.
  - destruct st; simpl; [congruence | discriminate ..].
  - destruct st as [|a|a|t]; simpl; [congruence | | |].
    + destruct (Py.is_lower_alnum c); [apply IH; discriminate|].
      destruct (Ascii.eqb c "'"); [apply IH; discriminate | discriminate].
    + destruct (Py.is_lower_alnum c); [apply IH; discriminate | discriminate].
    + destruct (Py.is_lower_alnum c); [apply IH; discriminate | discriminate].
Qed.

Lemma tok_scan_idle_nil (s : string) :
  tok_scan Idle s = [] <-> all_chars (fun c => negb (Py.is_lower_alnum c)) s = true.
Proof.
  induction s as [|c r IH]; simpl.
  - tauto.
  - destruct (Py.is_lower_alnum c) eqn:Hc; simpl.
    + split; [|discriminate].
      intro H. exfalso. revert H. apply tok_scan_busy. discriminate.
    + exact IH.
Qed.

End Tokenizer.

(** X1: every token is a run of lower-case letters and digits, or two
    such runs joined by one apostrophe. *)
Theorem tokenize_token_shape (text t : string) :
  In t (Retriever.tokenize text) -> Props.token_shape t.
Proof.
  intro H.
  pose proof (tok_scan_shape (Py.lower text) Retriever.Idle I) as Hall.
  rewrite Forall_forall in Hall. apply Hall. exact H.
Qed.

Lemma tokenize_token_shape_witness : Props.token_shape "don't".
Proof.
  apply (tokenize_token_shape "Don't stop" "don't").
  vm_compute. left. reflexivity.
Defined.

(** X2: a text gives no token exactly when, once lowered, it holds no
    lower-case letter and no digit; in particular the empty text and a
    text of blanks and punctuation give none. *)
Theorem tokenize_nil_iff (text : string) :
  Retriever.tokenize text = []
  <-> Props.all_chars (fun c => negb (Py.is_lower_alnum c)) (Py.lower text) = true.
Proof. apply tok_scan_idle_nil. Qed.

Lemma tokenize_nil_iff_witness : Retriever.tokenize "  ?! -- " = [].
Proof. apply (tokenize_nil_iff "  ?! -- "). reflexivity. Defined.

(* ================================================================== *)
(** * Further properties: scores and ranking *)

Section Scores.

Import Retriever Props.
Open Scope R_scope.

Lemma nth_map_in_range {A B : Type} (f : A -> B) (l : list A) (i : nat)
    (da : A) (db : B) :
  (i < List.length l)%nat -> nth i (map f l) db = f (nth i l da).
Proof.
  intro H. rewrite (nth_indep _ db (f da)) by (rewrite length_map; exact H).
  apply map_nth.
Qed.

Lemma nth_Forall_default {A : Type} (P : A -> Prop) (l : list A) (i : nat) (d : A) :
  Forall P l -> P d -> P (nth i l d).
Proof.
  intros Hl Hd. destruct (Nat.lt_ge_cases i (List.length l)) as [H|H].
  - rewrite Forall_forall in Hl. apply Hl. apply nth_In. exact H.
  - rewrite nth_overflow by exact H. exact Hd.
Qed.

Lemma fuse_bounds (a : R) (x y : list R) :
  0 <= a <= 1 ->
  Forall unit_interval x -> Forall unit_interval y ->
  Forall unit_interval (fuse a x y).
Proof.
  intros Ha Hx. revert y. unfold fuse.
  induction Hx as [|b x Hb Hx IH]; intros y Hy; [constructor|].
  destruct Hy as [|t y Ht Hy]; simpl; constructor; [|apply IH; exact Hy].
  unfold unit_interval in *. split; nra.
Qed.

Lemma hybrid_bounds (self : HybridRetriever) (q : string) :
  0 <= alpha self <= 1 -> Forall unit_interval (hybrid self q).
Proof.
  intro Ha. apply fuse_bounds; [exact Ha | |]; apply normalize_bounds.
Qed.

Lemma fuse_alpha_1 (x y : list R) :
  List.length x = List.length y -> fuse 1 x y = x.
Proof.
  unfold fuse. revert y. induction x as [|b x IH]; intros y H; [reflexivity|].
  destruct y as [|t y]; [discriminate|]. simpl. f_equal.
  - ring.
  - apply IH. simpl in H. lia.
Qed.

Lemma fuse_alpha_0 (x y : list R) :
  List.length x = List.length y -> fuse 0 x y = y.
Proof.
  unfold fuse. revert y. induction x as [|b x IH]; intros y H.
  - destruct y; [reflexivity | discriminate].
  - destruct y as [|t y]; [discriminate|]. simpl. f_equal.
    + ring.
    + apply IH. simpl in H. lia.
Qed.

Lemma map_nth_seq {A : Type} (l : list A) (d : A) :
  map (fun i => nth i l d) (seq 0 (List.length l)) = l.
Proof.
  induction l as [|x l IH]; [reflexivity|].
  simpl. f_equal. rewrite <- seq_shift, map_map. exact IH.
Qed.

End Scores.

(** X3: [normalize] keeps the order of the scores: a score that is not
    above another is not above it after normalisation. *)
Theorem normalize_monotone (arr : list R) (i j : nat) :
  (i < List.length arr)%nat -> (j < List.length arr)%nat ->
  (nth i arr 0 <= nth j arr 0)%R ->
  (nth i (Retriever.normalize arr) 0 <= nth j (Retriever.normalize arr) 0)%R.
Proof.
  intros Hi Hj Hle. destruct arr as [|x xs]; [simpl in Hi; lia|].
  destruct (Rlt_dec (Retriever.arr_max x xs - Retriever.arr_min x xs)
              Retriever.epsilon) as [Y|N].
  - rewrite (normalize_flat _ _ Y).
    rewrite !nth_repeat. lra.
  - rewrite (normalize_spread _ _ N).
    rewrite !(nth_map_in_range _ _ _ 0%R) by assumption.
    pose proof epsilon_pos.
    apply Rmult_le_compat_r; [|lra].
    left. apply Rinv_0_lt_compat. lra.
Qed.

Lemma normalize_monotone_witness :
  (nth 0 (Retriever.normalize [1; 3; 2]%R) 0
   <= nth 2 (Retriever.normalize [1; 3; 2]%R) 0)%R.
Proof.
  apply (normalize_monotone [1; 3; 2]%R 0 2); simpl; try lia; lra.
Defined.

(** X4: when the scores spread over at least [1e-9], the smallest score
    is normalised to 0 and the largest to 1. *)
Theorem normalize_endpoints (arr : list R) (mn mx : R) :
  Spec.is_min mn arr -> Spec.is_max mx arr ->
  ~ (mx - mn < 1e-9)%R ->
  In 0%R (Retriever.normalize arr) /\ In 1%R (Retriever.normalize arr)
  /\ forall i, (i < List.length arr)%nat ->
       (nth i arr 0 = mn -> nth i (Retriever.normalize arr) 0 = 0)%R
       /\ (nth i arr 0 = mx -> nth i (Retriever.normalize arr) 0 = 1)%R.
Proof.
  intros [Hmn_in Hmn] [Hmx_in Hmx] Hsp.
  destruct arr as [|x xs]; [destruct Hmn_in|].
  assert (Emn : Retriever.arr_min x xs = mn).
  { apply Rle_antisym.
    - apply arr_min_lower. exact Hmn_in.
    - apply Hmn. apply arr_min_in. }
  assert (Emx : Retriever.arr_max x xs = mx).
  { apply Rle_antisym.
    - apply Hmx. apply arr_max_in.
    - apply arr_max_upper. exact Hmx_in. }
  assert (N : ~ (Retriever.arr_max x xs - Retriever.arr_min x xs < Retriever.epsilon)%R).
  { rewrite Emn, Emx. exact Hsp. }
  pose proof epsilon_pos as He. unfold Retriever.epsilon in He.
  assert (Hd : (mx - mn <> 0)%R) by lra.
  rewrite (normalize_spread _ _ N), Emn, Emx.
  split; [|split].
  - apply in_map_iff. exists mn. split; [|exact Hmn_in].
    unfold Rdiv. ring.
  - apply in_map_iff. exists mx. split; [|exact Hmx_in].
    field. exact Hd.
  - intros i Hi. rewrite (nth_map_in_range _ _ _ 0%R) by exact Hi.
    split; intros ->; [unfold Rdiv; ring | field; exact Hd].
Qed.

Lemma normalize_endpoints_witness :
  In 0%R (Retriever.normalize [1; 3; 2]%R) /\ In 1%R (Retriever.normalize [1; 3; 2]%R).
Proof.
  destruct (normalize_endpoints [1; 3; 2]%R 1%R 3%R) as [H0 [H1 _]].
  - split; [left; reflexivity|]. intros s [<-|[<-|[<-|[]]]]; lra.
  - split; [right; left; reflexivity|]. intros s [<-|[<-|[<-|[]]]]; lra.
  - lra.
  - split; assumption.
Defined.

(** X5: with the fusion weight between 0 and 1, the three scores of
    every result of [search] lie between 0 and 1. *)
Theorem search_scores_in_unit_interval (argsort : list R -> list nat)
    (self : Retriever.HybridRetriever) (query : string) (k : Z)
    (r : Retriever.ScoredChunk) :
  (0 <= Retriever.alpha self <= 1)%R ->
  In r (Retriever.search argsort self query k) ->
  Props.unit_interval (Retriever.score r)
  /\ Props.unit_interval (Retriever.bm25 r)
  /\ Props.unit_interval (Retriever.tfidf r).
Proof.
  intros Ha Hr. unfold Retriever.search in Hr.
  destruct (Retriever.chunks self) as [|c cs]; [destruct Hr|].
  apply in_map_iff in Hr. destruct Hr as [i [<- _]]. simpl.
  assert (H0 : Props.unit_interval 0%R) by (unfold Props.unit_interval; lra).
  split; [|split]; apply (nth_Forall_default Props.unit_interval); try exact H0.
  - apply hybrid_bounds. exact Ha.
  - apply normalize_bounds.
  - apply normalize_bounds.
Qed.

Lemma search_scores_in_unit_interval_witness :
  Props.unit_interval (Retriever.score (Retriever.mkScored Examples.q2_chunk 0 0 0))
  /\ Props.unit_interval (Retriever.bm25 (Retriever.mkScored Examples.q2_chunk 0 0 0))
  /\ Props.unit_interval (Retriever.tfidf (Retriever.mkScored Examples.q2_chunk 0 0 0)).
Proof.
  apply (search_scores_in_unit_interval Lib.insertion_argsort
           (Retriever._load Lib.overlap_scorer 0.65 (Some [Examples.q2_chunk]))
           Examples.question 3).
  - simpl. lra.
  - rewrite (search_single_chunk _ _ insertion_argsort_ok overlap_scorer_ok) by lia.
    left. reflexivity.
Defined.

Section Selection.

Import Retriever.

Variable argsort : list R -> list nat.
Variable BM25Okapi : list (list string) -> list string -> list R.
Hypothesis argsort_ok : Lib.argsort_contract argsort.
Hypothesis scorer_ok : Lib.scorer_contract BM25Okapi.

Lemma NoDup_firstn {A : Type} (n : nat) (l : list A) :
  NoDup l -> NoDup (firstn n l).
Proof.
  intro H. rewrite <- (firstn_skipn n l) in H.
  apply NoDup_app_remove_r in H. exact H.
Qed.

Lemma firstn_incl {A : Type} (n : nat) (l : list A) (x : A) :
  In x (firstn n l) -> In x l.
Proof.
  intro H. rewrite <- (firstn_skipn n l). apply in_or_app. left. exact H.
Qed.

Lemma slice_to_prefix {A : Type} (k : Z) (l : list A) :
  exists n, Py.slice_to k l = firstn n l.
Proof.
  unfold Py.slice_to. destruct (k <? 0)%Z; eexists; reflexivity.
Qed.

Lemma argsort_NoDup (a : list R) : NoDup (argsort a).
Proof.
  apply (Permutation_NoDup (Permutation_sym (argsort_ok a))). apply seq_NoDup.
Qed.

(** The indices [search] selects: no index twice, each one an index of
    the corpus. *)
Lemma selected_indices (a : R) (corpus : list Chunk) (q : string) (k : Z) :
  corpus <> [] ->
  let self := _load BM25Okapi a (Some corpus) in
  let idxs := Py.slice_to k (argsort (map Ropp (hybrid self q))) in
  NoDup idxs /\ forall i, In i idxs -> (i < List.length corpus)%nat.
Proof.
  intros Hne self idxs.
  destruct (slice_to_prefix k (argsort (map Ropp (hybrid self q)))) as [n E].
  unfold idxs. rewrite E. split.
  - apply NoDup_firstn. apply argsort_NoDup.
  - intros i Hi. apply firstn_incl in Hi.
    apply (Permutation_in _ (argsort_ok _)) in Hi. apply in_seq in Hi.
    rewrite length_map in Hi. unfold self in Hi.
    rewrite (loaded_hybrid_length BM25Okapi scorer_ok) in Hi by exact Hne. lia.
Qed.

Lemma search_loaded (a : R) (corpus : list Chunk) (q : string) (k : Z) :
  corpus <> [] ->
  let self := _load BM25Okapi a (Some corpus) in
  search argsort self q k
  = map (fun i =>
           mkScored (nth i corpus default_chunk) (nth i (hybrid self q) 0)
             (nth i (bm25_n self q) 0) (nth i (tfidf_n self q) 0))
      (Py.slice_to k (argsort (map Ropp (hybrid self q)))).
Proof.
  intros Hne self. destruct corpus as [|c cs]; [congruence | reflexivity].
Qed.

Lemma loaded_normalized_lengths (a : R) (corpus : list Chunk) (q : string) :
  let self := _load BM25Okapi a (Some corpus) in
  List.length (bm25_n self q) = List.length corpus
  /\ List.length (tfidf_n self q) = List.length corpus.
Proof.
  intro self. unfold bm25_n, tfidf_n, tfidf_scores.
  rewrite !normalize_length. split.
  - destruct corpus as [|c cs]; [reflexivity|].
    unfold self. rewrite (loaded_bm25_scores BM25Okapi) by discriminate.
    rewrite scorer_ok. apply length_map.
  - simpl. unfold build_doc_tfidf. rewrite !length_map. reflexivity.
Qed.

End Selection.

(** X6: on a corpus of [n] chunks [search] returns [min k n] results for
    [k >= 0], and for a negative [k] it returns [n + k] results, none
    when [n + k] is negative. *)
Theorem search_result_count (argsort : list R -> list nat)
    (BM25Okapi : list (list string) -> list string -> list R) (a : R)
    (corpus : list Retriever.Chunk) (query : string) (k : Z) :
  Lib.argsort_contract argsort -> Lib.scorer_contract BM25Okapi ->
  Z.of_nat (List.length
              (Retriever.search argsort
                 (Retriever._load BM25Okapi a (Some corpus)) query k))
  = (if (k <? 0)%Z then Z.max 0 (Z.of_nat (List.length corpus) + k)
     else Z.min k (Z.of_nat (List.length corpus))).
Proof.
  intros Ha Hb. rewrite (search_length argsort BM25Okapi Ha Hb).
  destruct (Z.ltb_spec k 0); lia.
Qed.

Lemma search_result_count_witness :
  Z.of_nat (List.length
              (Retriever.search Lib.insertion_argsort
                 (Retriever._load Lib.overlap_scorer 0.65
                    (Some [Examples.q2_chunk; Examples.q1_chunk]))
                 Examples.question (-1)))
  = 1%Z.
Proof.
  apply (search_result_count Lib.insertion_argsort Lib.overlap_scorer 0.65
           [Examples.q2_chunk; Examples.q1_chunk] Examples.question (-1)).
  - apply insertion_argsort_ok.
  - apply overlap_scorer_ok.
Defined.

(** X7: every result of [search] is a chunk of the corpus, and no
    position of the corpus is returned twice: the results are the chunks
    at a list of distinct positions, each with the scores of its
    position. *)
Theorem search_returns_distinct_corpus_chunks (argsort : list R -> list nat)
    (BM25Okapi : list (list string) -> list string -> list R) (a : R)
    (corpus : list Retriever.Chunk) (query : string) (k : Z) :
  Lib.argsort_contract argsort -> Lib.scorer_contract BM25Okapi ->
  let self := Retriever._load BM25Okapi a (Some corpus) in
  exists idxs : list nat,
    NoDup idxs
    /\ Forall2 (fun i r =>
                  nth_error corpus i = Some (Retriever.chunk r)
                  /\ Retriever.score r = nth i (Retriever.hybrid self query) 0%R
                  /\ Retriever.bm25 r = nth i (Retriever.bm25_n self query) 0%R
                  /\ Retriever.tfidf r = nth i (Retriever.tfidf_n self query) 0%R)
         idxs (Retriever.search argsort self query k).
Proof.
  intros Ha Hb self.
  assert (Hc : corpus = [] \/ corpus <> [])
    by (destruct corpus; [left; reflexivity | right; discriminate]).
  destruct Hc as [Hnil|Hne].
  - subst corpus. exists []. split; constructor.
  - destruct (selected_indices argsort BM25Okapi Ha Hb a corpus query k Hne)
      as [Hnd Hrange].
    subst self. rewrite (search_loaded argsort BM25Okapi a corpus query k Hne).
    set (self := Retriever._load BM25Okapi a (Some corpus)) in *.
    set (idxs := Py.slice_to k (argsort (map Ropp (Retriever.hybrid self query)))) in *.
    exists idxs. split; [exact Hnd|].
    clearbody idxs. clear Hnd.
    induction idxs as [|i l IH]; simpl; constructor.
    + split; [|repeat split].
      apply nth_error_nth'. apply Hrange. left. reflexivity.
    + apply IH. intros j Hj. apply Hrange. right. exact Hj.
Qed.

Lemma search_returns_distinct_corpus_chunks_witness :
  let self :=
    Retriever._load Lib.overlap_scorer 0.65
      (Some [Examples.q2_chunk; Examples.q1_chunk]) in
  exists idxs : list nat,
    NoDup idxs
    /\ Forall2 (fun i r =>
                  nth_error [Examples.q2_chunk; Examples.q1_chunk] i
                  = Some (Retriever.chunk r)
                  /\ Retriever.score r = nth i (Retriever.hybrid self Examples.question) 0%R
                  /\ Retriever.bm25 r = nth i (Retriever.bm25_n self Examples.question) 0%R
                  /\ Retriever.tfidf r = nth i (Retriever.tfidf_n self Examples.question) 0%R)
         idxs (Retriever.search Lib.insertion_argsort self Examples.question 5).
Proof.
  apply (search_returns_distinct_corpus_chunks Lib.insertion_argsort
           Lib.overlap_scorer 0.65 [Examples.q2_chunk; Examples.q1_chunk]
           Examples.question 5).
  - apply insertion_argsort_ok.
  - apply overlap_scorer_ok.
Defined.

(** X8: when [k] is at least the number of chunks, [search] returns
    every chunk of the corpus once. *)
Theorem search_large_k_returns_corpus (argsort : list R -> list nat)
    (BM25Okapi : list (list string) -> list string -> list R) (a : R)
    (corpus : list Retriever.Chunk) (query : string) (k : Z) :
  Lib.argsort_contract argsort -> Lib.scorer_contract BM25Okapi ->
  (Z.of_nat (List.length corpus) <= k)%Z ->
  Permutation
    (map Retriever.chunk
       (Retriever.search argsort (Retriever._load BM25Okapi a (Some corpus)) query k))
    corpus.
Proof.
  intros Ha Hb Hk.
  assert (Hc : corpus = [] \/ corpus <> [])
    by (destruct corpus; [left; reflexivity | right; discriminate]).
  destruct Hc as [Hnil|Hne].
  - subst corpus. apply Permutation_refl.
  - rewrite (search_loaded argsort BM25Okapi a corpus query k Hne).
    rewrite map_map. cbn [Retriever.chunk].
    set (h := Retriever.hybrid (Retriever._load BM25Okapi a (Some corpus)) query).
    assert (Hlen : List.length (argsort (map Ropp h)) = List.length corpus).
    { rewrite (Permutation_length (Ha _)), length_seq, length_map.
      apply (loaded_hybrid_length BM25Okapi Hb). exact Hne. }
    unfold Py.slice_to. destruct (Z.ltb_spec k 0) as [Hneg|_]; [lia|].
    rewrite firstn_all2 by lia.
    apply (Permutation_trans
             (l' := map (fun i => nth i corpus Retriever.default_chunk)
                      (seq 0 (List.length corpus)))).
    + apply Permutation_map.
      replace (List.length corpus) with (List.length (map Ropp h)).
      * apply Ha.
      * rewrite <- Hlen. rewrite (Permutation_length (Ha _)), length_seq.
        reflexivity.
    + rewrite map_nth_seq. apply Permutation_refl.
Qed.

Lemma search_large_k_returns_corpus_witness :
  Permutation
    (map Retriever.chunk
       (Retriever.search Lib.insertion_argsort
          (Retriever._load Lib.overlap_scorer 0.65
             (Some [Examples.q2_chunk; Examples.q1_chunk]))
          Examples.question 5))
    [Examples.q2_chunk; Examples.q1_chunk].
Proof.
  apply (search_large_k_returns_corpus Lib.insertion_argsort Lib.overlap_scorer).
  - apply insertion_argsort_ok.
  - apply overlap_scorer_ok.
  - simpl. lia.
Defined.

(** X10: with the fusion weight 1 the hybrid scores are the normalised
    BM25 scores, and with the weight 0 they are the normalised TF-IDF
    scores. *)
Theorem fusion_weight_extremes
    (BM25Okapi : list (list string) -> list string -> list R)
    (corpus : list Retriever.Chunk) (query : string) :
  Lib.scorer_contract BM25Okapi ->
  Retriever.hybrid (Retriever._load BM25Okapi 1 (Some corpus)) query
  = Retriever.bm25_n (Retriever._load BM25Okapi 1 (Some corpus)) query
  /\ Retriever.hybrid (Retriever._load BM25Okapi 0 (Some corpus)) query
     = Retriever.tfidf_n (Retriever._load BM25Okapi 0 (Some corpus)) query.
Proof.
  intro Hb.
  destruct (loaded_normalized_lengths BM25Okapi Hb 1 corpus query) as [H1 H2].
  destruct (loaded_normalized_lengths BM25Okapi Hb 0 corpus query) as [H3 H4].
  unfold Retriever.hybrid. split.
  - change (Retriever.alpha (Retriever._load BM25Okapi 1 (Some corpus))) with 1%R.
    apply fuse_alpha_1. congruence.
  - change (Retriever.alpha (Retriever._load BM25Okapi 0 (Some corpus))) with 0%R.
    apply fuse_alpha_0. congruence.
Qed.

Lemma fusion_weight_extremes_witness :
  Retriever.hybrid (Retriever._load Lib.overlap_scorer 1 (Some [Examples.q2_chunk]))
    Examples.question
  = Retriever.bm25_n (Retriever._load Lib.overlap_scorer 1 (Some [Examples.q2_chunk]))
      Examples.question
  /\ Retriever.hybrid (Retriever._load Lib.overlap_scorer 0 (Some [Examples.q2_chunk]))
       Examples.question
     = Retriever.tfidf_n (Retriever._load Lib.overlap_scorer 0 (Some [Examples.q2_chunk]))
         Examples.question.
Proof.
  apply (fusion_weight_extremes Lib.overlap_scorer [Examples.q2_chunk]
           Examples.question).
  apply overlap_scorer_ok.
Defined.

(* ================================================================== *)
(** * Further properties: TF-IDF vectors *)

Section Vectors.

Import Retriever Props.
Open Scope R_scope.

Lemma keys_incr (t : string) (c : dict nat) (k : string) :
  In k (keys (incr t c)) <-> k = t \/ In k (keys c).
Proof.
  unfold keys. induction c as [|[k' n] r IH]; simpl.
  - intuition.
  - destruct (String.eqb_spec k' t) as [->|Hne]; simpl.
    + intuition.
    + rewrite IH. intuition.
Qed.

Lemma NoDup_keys_incr (t : string) (c : dict nat) :
  NoDup (keys c) -> NoDup (keys (incr t c)).
Proof.
  unfold keys. induction c as [|[k' n] r IH]; simpl; intro H.
  - repeat constructor. intros [].
  - inversion H as [|x l Hnin Hnd]; subst.
    destruct (String.eqb_spec k' t) as [->|Hne]; simpl.
    + constructor; assumption.
    + constructor; [|apply IH; exact Hnd].
      intro Hin. apply (keys_incr t r k') in Hin.
      destruct Hin as [E|Hin]; [congruence | contradiction].
Qed.

Lemma positive_incr (t : string) (c : dict nat) :
  Forall (fun kv => (1 <= snd kv)%nat) c ->
  Forall (fun kv => (1 <= snd kv)%nat) (incr t c).
Proof.
  induction c as [|[k' n] r IH]; simpl; intro H.
  - repeat constructor.
  - inversion H; subst. destruct (String.eqb k' t); constructor; simpl in *;
      try lia; try assumption. apply IH. assumption.
Qed.

Lemma update_invariants (ts : list string) (c : dict nat) :
  NoDup (keys c) -> Forall (fun kv => (1 <= snd kv)%nat) c ->
  NoDup (keys (update c ts))
  /\ Forall (fun kv => (1 <= snd kv)%nat) (update c ts)
  /\ forall k, In k (keys (update c ts)) <-> In k ts \/ In k (keys c).
Proof.
  unfold update. revert c. induction ts as [|t ts IH]; intros c Hnd Hpos; simpl.
  - repeat split; try assumption; intuition.
  - destruct (IH (incr t c) (NoDup_keys_incr t c Hnd) (positive_incr t c Hpos))
      as [H1 [H2 H3]].
    repeat split; try assumption.
    + intro H. apply H3 in H. rewrite keys_incr in H. intuition.
    + intro H. apply H3. rewrite keys_incr. intuition.
Qed.

Lemma Counter_invariants (ts : list string) :
  NoDup (keys (Counter ts))
  /\ Forall (fun kv => (1 <= snd kv)%nat) (Counter ts)
  /\ forall k, In k (keys (Counter ts)) <-> In k ts.
Proof.
  destruct (update_invariants ts []) as [H1 [H2 H3]];
    [constructor | constructor |].
  repeat split; try assumption.
  - intro H. apply H3 in H. simpl in H. tauto.
  - intro H. apply H3. left. exact H.
Qed.

Lemma weights_keys (d : dict R) (toks : list string) (k : string) :
  In k (keys (weights d toks)) -> In k toks /\ get d k <> None.
Proof.
  unfold weights, keys. intro H.
  apply in_map_iff in H. destruct H as [[k' v] [E H]]. simpl in E. subst k'.
  apply in_flat_map in H. destruct H as [[t n] [Hin H]].
  destruct (get d t) as [w|] eqn:G; [|destruct H].
  destruct H as [E|[]]. injection E as -> _.
  split; [|congruence].
  apply (proj2 (proj2 (Counter_invariants toks))).
  unfold keys. apply in_map_iff. exists (k, n). split; [reflexivity | exact Hin].
Qed.

(** The weights of a list of tokens none of which the index knows. *)
Lemma weights_unknown (d : dict R) (toks : list string) :
  (forall t, In t toks -> get d t = None) -> weights d toks = [].
Proof.
  intro H. destruct (weights d toks) as [|[k v] r] eqn:E; [reflexivity|].
  destruct (weights_keys d toks k) as [Hin Hget].
  - rewrite E. left. reflexivity.
  - exfalso. apply Hget. apply H. exact Hin.
Qed.

Lemma idf_value_pos (tokenized : list (list string)) (t : string) (w : R) :
  get (build_idf tokenized) t = Some w -> 0 < w.
Proof.
  rewrite get_build_idf.
  destruct (Nat.eqb_spec (Spec.doc_freq t tokenized) 0) as [_|Hne]; [discriminate|].
  intro H. injection H as <-.
  assert (H1 : 1 <= INR (n_docs tokenized + 1) / INR (Spec.doc_freq t tokenized + 1)).
  { apply smoothed_ratio_ge_1. unfold n_docs.
    pose proof (doc_freq_le t tokenized). lia. }
  pose proof (ln_nonneg _ H1). lra.
Qed.

Lemma weights_positive (tokenized : list (list string)) (toks : list string) :
  toks <> [] ->
  Forall (fun kv => 0 < snd kv) (weights (build_idf tokenized) toks).
Proof.
  intro Hne. unfold weights. apply Forall_forall. intros [k v] H.
  apply in_flat_map in H. destruct H as [[t n] [Hin H]].
  destruct (get (build_idf tokenized) t) as [w|] eqn:G; [|destruct H].
  destruct H as [E|[]]. injection E as _ <-. simpl.
  pose proof (idf_value_pos _ _ _ G) as Hw.
  destruct (Counter_invariants toks) as [_ [Hpos _]].
  rewrite Forall_forall in Hpos. specialize (Hpos _ Hin). simpl in Hpos.
  assert (Hn : 0 < INR n) by (apply lt_0_INR; lia).
  assert (Hl : 0 < INR (List.length toks)).
  { apply lt_0_INR. destruct toks; [congruence | simpl; lia]. }
  apply Rmult_lt_0_compat; [|exact Hw].
  apply Rdiv_lt_0_compat; assumption.
Qed.

Lemma weights_nonempty (tokenized : list (list string)) (toks : list string) :
  In toks tokenized -> toks <> [] -> weights (build_idf tokenized) toks <> [].
Proof.
  intros Hin Hne. destruct toks as [|t ts] eqn:E; [congruence|].
  rewrite <- E in *.
  assert (Ht : In t toks) by (rewrite E; left; reflexivity).
  assert (Hk : In t (keys (Counter toks)))
    by (apply (proj2 (proj2 (Counter_invariants toks))); exact Ht).
  unfold keys in Hk. apply in_map_iff in Hk. destruct Hk as [[t' n] [Et Hc]].
  simpl in Et. subst t'.
  assert (G : exists w, get (build_idf tokenized) t = Some w).
  { rewrite get_build_idf.
    destruct (Nat.eqb_spec (Spec.doc_freq t tokenized) 0) as [Hz|_];
      [|eexists; reflexivity].
    exfalso. revert Hz. apply doc_freq_pos. exists toks. split; assumption. }
  destruct G as [w G]. intro Hnil.
  assert (Hin' : In (t, INR n / INR (List.length toks) * w)
                   (weights (build_idf tokenized) toks)).
  { unfold weights. apply in_flat_map. exists (t, n). split; [exact Hc|].
    rewrite G. left. reflexivity. }
  rewrite Hnil in Hin'. exact Hin'.
Qed.

(** Sums. *)
Lemma fold_left_Rplus (xs : list R) (a : R) :
  fold_left Rplus xs a = a + total xs.
Proof.
  revert a. induction xs as [|x xs IH]; intro a; simpl.
  - ring.
  - rewrite IH. ring.
Qed.

Lemma sum_total (xs : list R) : sum xs = total xs.
Proof. unfold sum. rewrite fold_left_Rplus. ring. Qed.

Lemma sq_norm_cons (k : string) (v : R) (vec : dict R) :
  sq_norm ((k, v) :: vec) = v * v + sq_norm vec.
Proof. unfold sq_norm. rewrite !sum_total. reflexivity. Qed.

Lemma sq_norm_nil : sq_norm [] = 0.
Proof. reflexivity. Qed.

Lemma sq_norm_pos (vec : dict R) :
  vec <> [] -> Forall (fun kv => 0 < snd kv) vec -> 0 < sq_norm vec.
Proof.
  intros Hne H. induction H as [|[k v] r Hv Hr IH]; [congruence|].
  rewrite sq_norm_cons. simpl in Hv.
  assert (0 <= sq_norm r).
  { destruct r as [|x r']; [rewrite sq_norm_nil; lra|].
    left. apply IH. discriminate. }
  nra.
Qed.

Lemma sq_norm_scaled (vec : dict R) (n : R) :
  n <> 0 ->
  sq_norm (map (fun '(k, v) => (k, v / n)) vec) = sq_norm vec / (n * n).
Proof.
  intro Hn. induction vec as [|[k v] r IH]; simpl.
  - rewrite sq_norm_nil. unfold Rdiv. ring.
  - rewrite !sq_norm_cons, IH. field. exact Hn.
Qed.

Lemma l2_normalize_unit (vec : dict R) :
  0 < sq_norm vec -> sq_norm (l2_normalize vec) = 1.
Proof.
  intro H. unfold l2_normalize. fold (sq_norm vec).
  assert (Hs : 0 < sqrt (sq_norm vec)) by (apply sqrt_lt_R0; exact H).
  unfold or_one. destruct (Req_dec_T (sqrt (sq_norm vec)) 0) as [E|_]; [lra|].
  rewrite sq_norm_scaled by lra.
  rewrite sqrt_sqrt by lra. field. lra.
Qed.

(** Dot products. *)
Lemma dot_total (a b : dict R) :
  dot a b = total (map (fun kv => snd kv * get0 b (fst kv)) a).
Proof.
  unfold dot.
  assert (H : forall acc,
             fold_left (fun acc '(term, w) =>
                          match get b term with
                          | Some bw => acc + w * bw
                          | None => acc
                          end) a acc
             = acc + total (map (fun kv => snd kv * get0 b (fst kv)) a)).
  { induction a as [|[t w] r IH]; intro acc; simpl.
    - ring.
    - rewrite IH. unfold get0. destruct (get b t); ring. }
  rewrite H. ring.
Qed.

Lemma get0_cons (t : string) (w : R) (a : dict R) (s : string) :
  ~ In t (keys a) ->
  get0 ((t, w) :: a) s = (if String.eqb t s then w else 0) + get0 a s.
Proof.
  intro Hnin. unfold get0. simpl.
  destruct (String.eqb_spec t s) as [<-|_]; [|ring].
  destruct (get a t) as [v|] eqn:G; [|ring].
  exfalso. apply Hnin. clear -G. unfold keys.
  induction a as [|[k x] r IH]; simpl in *; [discriminate|].
  destruct (String.eqb_spec k t) as [->|_]; [left; reflexivity | right; auto].
Qed.

Lemma get0_absent (a : dict R) (t : string) : ~ In t (keys a) -> get0 a t = 0.
Proof.
  intro H. unfold get0. destruct (get a t) as [v|] eqn:G; [|reflexivity].
  exfalso. apply H. clear -G. unfold keys.
  induction a as [|[k x] r IH]; simpl in *; [discriminate|].
  destruct (String.eqb_spec k t) as [->|_]; [left; reflexivity | right; auto].
Qed.

Lemma total_pick (b : dict R) (t : string) (w : R) :
  NoDup (keys b) ->
  total (map (fun kv => snd kv * (if String.eqb t (fst kv) then w else 0)) b)
  = w * get0 b t.
Proof.
  unfold keys. induction b as [|[s v] r IH]; simpl; intro H.
  - unfold get0. simpl. ring.
  - inversion H as [|x l Hnin Hnd]; subst. rewrite (IH Hnd).
    destruct (String.eqb_spec t s) as [->|Hne].
    + rewrite (get0_absent r s Hnin). unfold get0. simpl.
      rewrite String.eqb_refl. ring.
    + unfold get0 at 2. simpl.
      destruct (String.eqb_spec s t) as [E|_]; [congruence|].
      fold (get0 r t). ring.
Qed.

Lemma total_map_plus {A : Type} (f g : A -> R) (l : list A) :
  total (map (fun x => f x + g x) l) = total (map f l) + total (map g l).
Proof.
  induction l as [|x l IH]; simpl; [ring | rewrite IH; ring].
Qed.

Lemma dot_symmetric (a b : dict R) :
  NoDup (keys a) -> NoDup (keys b) -> dot a b = dot b a.
Proof.
  intros Ha Hb. rewrite !dot_total.
  induction a as [|[t w] r IH]; simpl.
  - induction b as [|[s v] b' IHb]; simpl; [reflexivity|].
    inversion Hb; subst. rewrite <- IHb by assumption.
    unfold get0. simpl. ring.
  - unfold keys in Ha. simpl in Ha. inversion Ha as [|x l Hnin Hnd]; subst.
    rewrite (IH Hnd).
    rewrite (map_ext (fun kv => snd kv * get0 ((t, w) :: r) (fst kv))
               (fun kv => snd kv * (if String.eqb t (fst kv) then w else 0)
                          + snd kv * get0 r (fst kv))).
    + rewrite total_map_plus, (total_pick b t w Hb). reflexivity.
    + intros [s v]. simpl. rewrite (get0_cons t w r s Hnin). ring.
Qed.

Lemma normalize_constant (arr : list R) (c : R) :
  (forall s, In s arr -> s = c) ->
  normalize arr = repeat 0 (List.length arr).
Proof.
  intro H. destruct arr as [|x xs]; [reflexivity|].
  apply normalize_flat.
  rewrite (H _ (arr_max_in xs x)), (H _ (arr_min_in xs x)).
  pose proof epsilon_pos. lra.
Qed.

End Vectors.

(** X11: when no token of the query occurs in a chunk of the corpus (in
    particular when the query has no token), the query's TF-IDF vector is
    empty, and the TF-IDF score of every chunk is 0 before and after
    normalisation. *)
Theorem unknown_query_has_zero_tfidf
    (BM25Okapi : list (list string) -> list string -> list R) (a : R)
    (corpus : list Retriever.Chunk) (query : string) :
  Props.out_of_vocabulary query corpus ->
  let self := Retriever._load BM25Okapi a (Some corpus) in
  Retriever._tfidf_query self query = []
  /\ Retriever.tfidf_scores self query = repeat 0%R (List.length corpus)
  /\ Retriever.tfidf_n self query = repeat 0%R (List.length corpus).
Proof.
  intros Hoov self.
  assert (Hq : Retriever._tfidf_query self query = []).
  { unfold Retriever._tfidf_query.
    destruct (Retriever.tokenize query) as [|t ts] eqn:E; [reflexivity|].
    rewrite (weights_unknown (Retriever.idf self) (t :: ts)); [reflexivity|].
    intros t' Ht'.
    change (Retriever.idf self)
      with (Retriever.build_idf
              (map (fun c => Retriever.tokenize (Retriever.text c)) corpus)).
    rewrite get_build_idf.
    destruct (Nat.eqb_spec
                (Spec.doc_freq t'
                   (map (fun c => Retriever.tokenize (Retriever.text c)) corpus)) 0)
      as [_|Hne]; [reflexivity|].
    exfalso. apply doc_freq_pos in Hne. destruct Hne as [toks [Hin Hk]].
    apply in_map_iff in Hin. destruct Hin as [c [<- Hc]].
    apply (Hoov t' c); [rewrite E; exact Ht' | exact Hc | exact Hk]. }
  assert (Hs : Retriever.tfidf_scores self query = repeat 0%R (List.length corpus)).
  { unfold Retriever.tfidf_scores. rewrite Hq.
    change (Retriever.doc_tfidf self)
      with (Retriever.build_doc_tfidf (Retriever.idf self)
              (map (fun c => Retriever.tokenize (Retriever.text c)) corpus)).
    unfold Retriever.build_doc_tfidf. rewrite !map_map.
    clear. induction corpus as [|c cs IH]; simpl; [reflexivity | f_equal; exact IH]. }
  split; [exact Hq|]. split; [exact Hs|].
  unfold Retriever.tfidf_n. rewrite Hs.
  rewrite (normalize_constant _ 0%R).
  - rewrite repeat_length. reflexivity.
  - intros s Hin. apply repeat_spec in Hin. exact Hin.
Qed.

Lemma unknown_query_has_zero_tfidf_witness :
  let self :=
    Retriever._load Lib.overlap_scorer 0.65
      (Some [Examples.q2_chunk; Examples.q1_chunk]) in
  Retriever._tfidf_query self "Euro bonds?" = []
  /\ Retriever.tfidf_scores self "Euro bonds?" = repeat 0%R 2
  /\ Retriever.tfidf_n self "Euro bonds?" = repeat 0%R 2.
Proof.
  apply (unknown_query_has_zero_tfidf Lib.overlap_scorer 0.65
           [Examples.q2_chunk; Examples.q1_chunk] "Euro bonds?").
  intros t c Ht Hc Hin.
  destruct Hc as [<-|[<-|[]]];
    vm_compute in Ht; vm_compute in Hin;
    repeat (destruct Ht as [<-|Ht];
            [repeat (destruct Hin as [Hin|Hin]; [discriminate Hin|]); exact Hin|]);
    exact Ht.
Defined.

(** X12: the TF-IDF vector the index holds for a chunk has Euclidean norm
    1 when the chunk has a token, and is empty when it has none; there is
    one vector per chunk. *)
Theorem doc_vectors_have_unit_norm
    (BM25Okapi : list (list string) -> list string -> list R) (a : R)
    (corpus : list Retriever.Chunk) :
  Forall2
    (fun c vec =>
       (Retriever.tokenize (Retriever.text c) <> [] -> Props.sq_norm vec = 1%R)
       /\ (Retriever.tokenize (Retriever.text c) = [] -> vec = []))
    corpus
    (Retriever.doc_tfidf (Retriever._load BM25Okapi a (Some corpus))).
Proof.
  change (Retriever.doc_tfidf (Retriever._load BM25Okapi a (Some corpus)))
    with (Retriever.build_doc_tfidf
            (Retriever.build_idf
               (map (fun c => Retriever.tokenize (Retriever.text c)) corpus))
            (map (fun c => Retriever.tokenize (Retriever.text c)) corpus)).
  set (tokenized := map (fun c => Retriever.tokenize (Retriever.text c)) corpus).
  assert (Hin : forall c, In c corpus ->
                  In (Retriever.tokenize (Retriever.text c)) tokenized).
  { intros c Hc. unfold tokenized. apply in_map_iff. exists c. split; auto. }
  unfold tokenized at 2. unfold Retriever.build_doc_tfidf. rewrite map_map.
  clearbody tokenized.
  induction corpus as [|c cs IH]; simpl; constructor.
  - split.
    + intro Hne. apply l2_normalize_unit. apply sq_norm_pos.
      * apply weights_nonempty; [apply Hin; left; reflexivity | exact Hne].
      * apply weights_positive. exact Hne.
    + intros ->. reflexivity.
  - apply IH. intros c' Hc'. apply Hin. right. exact Hc'.
Qed.

(** X13: the sparse dot product does not depend on the order of its two
    arguments, for vectors held as dictionaries (no term twice). *)
Theorem cosine_sparse_symmetric (a b : Retriever.dict R) :
  NoDup (Props.keys a) -> NoDup (Props.keys b) ->
  Retriever._cosine_sparse a b = Retriever._cosine_sparse b a.
Proof.
  intros Ha Hb. unfold Retriever._cosine_sparse.
  destruct a as [|x a']; destruct b as [|y b']; try reflexivity.
  set (a := x :: a') in *. set (b := y :: b') in *.
  destruct (Nat.ltb_spec (List.length b) (List.length a)) as [H1|H1];
    destruct (Nat.ltb_spec (List.length a) (List.length b)) as [H2|H2];
    try reflexivity; try lia.
  apply dot_symmetric; assumption.
Qed.

Lemma cosine_sparse_symmetric_witness :
  Retriever._cosine_sparse [("spy", 1%R); ("q2", 2%R)] [("q2", 3%R); ("in", 1%R)]
  = Retriever._cosine_sparse [("q2", 3%R); ("in", 1%R)] [("spy", 1%R); ("q2", 2%R)].
Proof.
  apply cosine_sparse_symmetric;
    repeat constructor; simpl; intuition discriminate.
Defined.

(* ================================================================== *)
(** * Further properties: the citation sanitizer *)

Section Removal.

Import Sanitizer Props.

Variable allowed : list string.

Lemma length_append (a b : string) :
  String.length (a ++ b) = String.length a + String.length b.
Proof. induction a as [|c a IH]; simpl; [reflexivity | rewrite IH; reflexivity]. Qed.

Lemma take_0 (s : string) : Py.take 0 s = "".
Proof. destruct s; reflexivity. Qed.

Lemma take_past (p s : string) (n : nat) :
  Py.take (String.length p + n) (p ++ s) = p ++ Py.take n s.
Proof. induction p as [|c p IH]; simpl; [reflexivity | rewrite IH; reflexivity]. Qed.

Lemma drop_past (p s : string) (n : nat) :
  Py.drop (String.length p + n) (p ++ s) = Py.drop n s.
Proof. induction p as [|c p IH]; simpl; [reflexivity | exact IH]. Qed.

Lemma remove_only_invalid (found : list Match) (text : string) :
  remove_invalid allowed found text
  = remove_invalid allowed (filter (invalid allowed) found) text.
Proof.
  revert text. induction found as [|m rest IH]; intro text; simpl.
  - reflexivity.
  - unfold invalid at 1. destruct (Py.mem (group1 m) allowed) eqn:E; simpl.
    + apply IH.
    + rewrite E. apply IH.
Qed.

Lemma scan_bounds (s : string) (st : scan_state) (pos : nat) (m : Match) :
  scan_wf st pos -> In m (scan st pos s) ->
  base st pos <= m_start m /\ m_start m < m_end m /\ pos < m_end m.
Proof.
  revert st pos. induction s as [|c r IH]; intros st pos Hwf Hin; [destruct Hin|].
  unfold scan_wf in *. destruct st as [|b inner]; simpl in *.
  - destruct (Ascii.eqb c "[").
    + apply IH in Hin; simpl in *; lia.
    + apply IH in Hin; simpl in *; lia.
  - destruct (Ascii.eqb c "]").
    + destruct inner as [|x inner'].
      * apply IH in Hin; simpl in *; lia.
      * destruct Hin as [<-|Hin]; simpl in *; [lia|].
        apply IH in Hin; simpl in *; lia.
    + apply IH in Hin; simpl in *; [lia|].
      rewrite length_append. simpl. lia.
Qed.

Lemma scan_close (b : nat) (inner : string) (pos : nat) (r : string) :
  inner <> "" ->
  scan (Inside b inner) pos (String "]" r)
  = mkMatch b (S pos) inner :: scan Outside (S pos) r.
Proof. intro H. destruct inner; [congruence | reflexivity]. Qed.

Lemma delete_close (inner r : string) :
  inner <> "" ->
  Spec.delete_scan allowed (Some inner) (String "]" r)
  = if Py.mem inner allowed
    then bracket inner ++ Spec.delete_scan allowed None r
    else Spec.delete_scan allowed None r.
Proof. intro H. destruct inner; [congruence | reflexivity]. Qed.

Lemma delete_scan_at_most_one (s : string) (st : scan_state) (pos : nat) :
  scan_wf st pos ->
  (filter (invalid allowed) (scan st pos s) = [] ->
   Spec.delete_scan allowed (held st) s = pending st ++ s)
  /\ (forall m, filter (invalid allowed) (scan st pos s) = [m] ->
      Spec.delete_scan allowed (held st) s
      = Py.take (m_start m - base st pos) (pending st ++ s)
        ++ Py.drop (m_end m - base st pos) (pending st ++ s)).
Proof.
  revert st pos. induction s as [|c r IH]; intros st pos Hwf.
  - split; [|intros m H; destruct st; discriminate H].
    intros _. destruct st as [|b inner]; simpl; [reflexivity|].
    clear. induction inner; simpl; congruence.
  - destruct st as [|b inner].
    + (* outside a token *)
      unfold scan_wf in Hwf. simpl in Hwf. cbn [scan held pending base].
      cbn [Spec.delete_scan].
      destruct (Ascii.eqb_spec c "[") as [->|Hc].
      * destruct (IH (Inside pos "") (S pos)) as [IH0 IH1];
          [unfold scan_wf; simpl; lia|].
        simpl in IH0, IH1. split; [exact IH0 | exact IH1].
      * destruct (IH Outside (S pos)) as [IH0 IH1]; [unfold scan_wf; simpl; lia|].
        simpl in IH0, IH1. split.
        -- intro H. simpl. rewrite (IH0 H). reflexivity.
        -- intros m H.
           assert (Hin : In m (scan Outside (S pos) r)).
           { apply (filter_In (invalid allowed)). rewrite H. left. reflexivity. }
           apply scan_bounds in Hin; [|unfold scan_wf; simpl; lia].
           simpl in Hin.
           rewrite (IH1 m H).
           replace (m_start m - pos) with (S (m_start m - S pos)) by lia.
           replace (m_end m - pos) with (S (m_end m - S pos)) by lia.
           reflexivity.
    + (* inside a token *)
      unfold scan_wf in Hwf. cbn [pending base] in Hwf.
      change (String.length ("[" ++ inner)) with (S (String.length inner)) in Hwf.
      cbn [held pending base].
      destruct (Ascii.eqb_spec c "]") as [->|Hc].
      * destruct (IH Outside (S pos)) as [IH0 IH1]; [unfold scan_wf; simpl; lia|].
        simpl in IH0, IH1.
        destruct (string_dec inner "") as [->|Hne].
        -- (* the two brackets with nothing between them *)
           simpl in Hwf. simpl. split.
           ++ intro H. rewrite (IH0 H). reflexivity.
           ++ intros m H.
              assert (Hin : In m (scan Outside (S pos) r)).
              { apply (filter_In (invalid allowed)). rewrite H. left. reflexivity. }
              apply scan_bounds in Hin; [|unfold scan_wf; simpl; lia].
              simpl in Hin.
              rewrite (IH1 m H).
              replace (m_start m - b) with (2 + (m_start m - S pos)) by lia.
              replace (m_end m - b) with (2 + (m_end m - S pos)) by lia.
              reflexivity.
        -- (* a token ends here *)
           rewrite (scan_close b inner pos r Hne).
           rewrite (delete_close inner r Hne).
           assert (Hlen : String.length (("[" ++ inner) ++ "]") = S pos - b).
           { rewrite length_append.
             change (String.length "]") with 1.
             change (String.length ("[" ++ inner)) with (S (String.length inner)).
             lia. }
           assert (Hsplit : ("[" ++ inner) ++ String "]" r
                            = (("[" ++ inner) ++ "]") ++ r).
           { exact (eq_sym (append_assoc ("[" ++ inner) "]" r)). }
           cbn [filter].
           assert (Hv : invalid allowed (mkMatch b (S pos) inner)
                        = negb (Py.mem inner allowed)) by reflexivity.
           rewrite !Hv. clear Hv.
           destruct (Py.mem inner allowed) eqn:E; cbn [negb].
           ++ (* an allowed token: kept *)
              replace (bracket inner) with (("[" ++ inner) ++ "]")
                by (unfold bracket; rewrite append_assoc; reflexivity).
              split.
              ** intro H. rewrite (IH0 H). rewrite append_assoc. reflexivity.
              ** intros m H.
                 assert (Hin : In m (scan Outside (S pos) r)).
                 { apply (filter_In (invalid allowed)). rewrite H. left. reflexivity. }
                 apply scan_bounds in Hin; [|unfold scan_wf; simpl; lia].
                 simpl in Hin.
                 rewrite (IH1 m H), Hsplit.
                 replace (m_start m - b)
                   with (String.length (("[" ++ inner) ++ "]") + (m_start m - S pos))
                   by lia.
                 replace (m_end m - b)
                   with (String.length (("[" ++ inner) ++ "]") + (m_end m - S pos))
                   by lia.
                 rewrite take_past, drop_past. symmetry. apply append_assoc.
           ++ (* a token that is not allowed: the one deleted *)
              split; [discriminate|].
              intros m H. injection H as <- H. cbn [m_start m_end].
              rewrite (IH0 H), Hsplit.
              rewrite Nat.sub_diag, take_0.
              replace (S pos - b)
                with (String.length (("[" ++ inner) ++ "]") + 0) by lia.
              rewrite drop_past. reflexivity.
      * destruct (IH (Inside b (inner ++ String c "")) (S pos)) as [IH0 IH1].
        { unfold scan_wf. simpl. rewrite length_append. simpl. lia. }
        cbn [held pending base] in IH0, IH1.
        assert (Hsplit : ("[" ++ inner) ++ String c r
                         = ("[" ++ inner ++ String c "") ++ r).
        { simpl. f_equal. exact (eq_sym (append_assoc inner (String c "") r)). }
        rewrite Hsplit.
        assert (Hs : scan (Inside b inner) pos (String c r)
                     = scan (Inside b (inner ++ String c "")) (S pos) r).
        { simpl. destruct (Ascii.eqb_spec c "]"); [contradiction | reflexivity]. }
        assert (Hd : Spec.delete_scan allowed (Some inner) (String c r)
                     = Spec.delete_scan allowed (Some (inner ++ String c "")) r).
        { simpl. destruct (Ascii.eqb_spec c "]"); [contradiction | reflexivity]. }
        rewrite Hs, Hd. split; [exact IH0 | exact IH1].
Qed.

End Removal.

(** X14: when at most one bracketed token of the text is not an allowed
    tag, the removal loop of the sanitizer returns the text with that
    token deleted and everything else kept, the allowed tokens included. *)
Theorem removal_exact_for_one_invalid_token (text : string) (allowed : list string) :
  List.length
    (filter (Props.invalid allowed) (Sanitizer.finditer_bracketed text)) <= 1 ->
  Spec.body text allowed = Spec.delete_invalid_tokens allowed text.
Proof.
  intro H. unfold Spec.body, Spec.delete_invalid_tokens.
  rewrite remove_only_invalid. unfold Sanitizer.finditer_bracketed in *.
  destruct (delete_scan_at_most_one allowed text Sanitizer.Outside 0) as [H0 H1];
    [reflexivity|].
  simpl in H0, H1.
  destruct (filter (Props.invalid allowed) (Sanitizer.scan Sanitizer.Outside 0 text))
    as [|m [|m' l]] eqn:E.
  - rewrite (H0 eq_refl). reflexivity.
  - rewrite (H1 m eq_refl). simpl.
    assert (Hm : In m (filter (Props.invalid allowed)
                         (Sanitizer.scan Sanitizer.Outside 0 text)))
      by (rewrite E; left; reflexivity).
    apply filter_In in Hm. destruct Hm as [_ Hm]. unfold Props.invalid in Hm.
    destruct (Py.mem (Sanitizer.group1 m) allowed); [discriminate|].
    rewrite !Nat.sub_0_r. reflexivity.
  - simpl in H. lia.
Qed.

Lemma removal_exact_for_one_invalid_token_witness :
  Spec.body "X [doc_a@0:10] Y [evil@0:0] Z" ["doc_a@0:10"]
  = Spec.delete_invalid_tokens ["doc_a@0:10"] "X [doc_a@0:10] Y [evil@0:0] Z".
Proof.
  apply (removal_exact_for_one_invalid_token
           "X [doc_a@0:10] Y [evil@0:0] Z" ["doc_a@0:10"]).
  vm_compute. lia.
Defined.

(** X15: a text in which every bracketed token is an allowed tag, and
    which holds at least one of them, is returned by the sanitizer as it
    is, whatever the fallback tags. *)
Theorem sanitizer_keeps_valid_text (text : string) (allowed fallback : list string) :
  filter (Props.invalid allowed) (Sanitizer.finditer_bracketed text) = [] ->
  Sanitizer.any_allowed allowed text = true ->
  Sanitizer._clean_citations text allowed fallback = text.
Proof.
  intros Hv Ha. unfold Sanitizer._clean_citations.
  destruct text as [|c r]; [reflexivity|].
  rewrite remove_only_invalid, Hv. simpl Sanitizer.remove_invalid.
  rewrite Ha. reflexivity.
Qed.

Lemma sanitizer_keeps_valid_text_witness :
  Sanitizer._clean_citations "Up in Q2 [doc_a@0:10], see [doc_b@5:15]."
    ["doc_a@0:10"; "doc_b@5:15"] ["doc_a@0:10"]
  = "Up in Q2 [doc_a@0:10], see [doc_b@5:15].".
Proof.
  apply sanitizer_keeps_valid_text; reflexivity.
Defined.

(* ================================================================== *)
(** * Further properties: routing and the responses of [answer] *)

Section Routing.

Import Agent Props.

Lemma prefix_decompose (w s : string) :
  String.prefix w s = true -> s = w ++ Py.drop (String.length w) s.
Proof.
  revert s. induction w as [|c w IH]; intros s H.
  - destruct s; reflexivity.
  - destruct s as [|d s]; [discriminate|]. simpl in H.
    destruct (ascii_dec c d) as [->|_]; [|discriminate].
    simpl. f_equal. apply IH. exact H.
Qed.

Lemma drop_prefix (w post : string) :
  Py.drop (String.length w) (w ++ post) = post.
Proof.
  rewrite <- (Nat.add_0_r (String.length w)), drop_past.
  destruct post; reflexivity.
Qed.

Lemma search_words_spec (s : string) (prev : bool) :
  search_words prev s = true
  <-> exists pre w post,
        s = pre ++ w ++ post
        /\ In w price_words
        /\ last_is_word prev pre = false
        /\ starts_with_word_char post = false.
Proof.
  split.
  - revert prev. induction s as [|c r IH]; intros prev H.
    + simpl in H. rewrite orb_false_r in H.
      apply andb_prop in H. destruct H as [_ H]. discriminate H.
    + cbn [search_words] in H. apply orb_prop in H. destruct H as [H|H].
      * apply andb_prop in H. destruct H as [Hp H].
        apply existsb_exists in H. destruct H as [w [Hw Hh]].
        unfold word_here in Hh. apply andb_prop in Hh. destruct Hh as [Hs Hn].
        exists "", w, (Py.drop (String.length w) (String c r)).
        repeat split; try assumption.
        -- apply prefix_decompose. exact Hs.
        -- simpl. destruct prev; [discriminate | reflexivity].
        -- apply negb_true_iff. exact Hn.
      * apply IH in H. destruct H as [pre [w [post [E [Hw [Hl Hp]]]]]].
        exists (String c pre), w, post. repeat split; try assumption.
        simpl. rewrite E. reflexivity.
  - intros [pre [w [post [E [Hw [Hl Hp]]]]]]. subst s.
    revert prev Hl. induction pre as [|c pre IH]; intros prev Hl.
    + simpl in Hl. subst prev. simpl append.
      assert (H : existsb (word_here (w ++ post)) price_words = true).
      { apply existsb_exists. exists w. split; [exact Hw|].
        unfold word_here. rewrite drop_prefix, Hp.
        rewrite (startswith_app w post). reflexivity. }
      destruct (w ++ post); cbn [search_words]; rewrite H; reflexivity.
    + simpl append. cbn [search_words].
      rewrite (IH (Py.is_word c) Hl). apply orb_true_r.
Qed.

Lemma lower_char_idempotent (c : ascii) :
  Py.lower_char (Py.lower_char c) = Py.lower_char c.
Proof.
  destruct c as [[] [] [] [] [] [] [] []]; reflexivity.
Qed.

Lemma lower_idempotent (s : string) : Py.lower (Py.lower s) = Py.lower s.
Proof.
  induction s as [|c s IH]; simpl; [reflexivity|].
  rewrite lower_char_idempotent, IH. reflexivity.
Qed.

End Routing.

(** X16: a question goes to the price path exactly when, once lowered,
    it holds one of the twelve price words as a whole word, that is
    neither preceded nor followed by a letter, a digit or an underscore;
    the case of the question does not matter. *)
Theorem is_price_query_iff_whole_word (q : string) :
  (Agent._is_price_query q = true <-> Props.has_price_word (Py.lower q))
  /\ Agent._is_price_query (Py.lower q) = Agent._is_price_query q.
Proof.
  split.
  - unfold Agent._is_price_query, Props.has_price_word. apply search_words_spec.
  - unfold Agent._is_price_query. rewrite lower_idempotent. reflexivity.
Qed.

Lemma is_price_query_iff_whole_word_witness :
  Agent._is_price_query "What was the LAST close?" = true.
Proof.
  apply (proj1 (is_price_query_iff_whole_word "What was the LAST close?")).
  exists "what was the ", "last", " close?".
  repeat split; try reflexivity. simpl. tauto.
Defined.

(** X18: with no corpus file, or an empty one, every question of the
    retrieval path gets the fixed reply, with no citation, no source and
    a retrieved count of 0, whatever [k] and whatever the generator
    would answer: it is not called. *)
Theorem answer_without_corpus (w : Agent.World) (question : string) (k : Z) :
  Agent.corpus_file w = None \/ Agent.corpus_file w = Some [] ->
  Agent._is_price_query question = false ->
  Retriever.search (Agent.argsort w) (Agent._get_retriever w) question k = []
  /\ Agent.answer w question k
     = Ok (Models.mkAnswer
             "I couldn't find relevant context in the provided documents."
             [] []
             (Some (Models.mkMetrics 0 0 "rag"
                      (Some [("used_tools", Models.AList ["retriever"])])))).
Proof.
  intros Hc Hq.
  assert (Hs : Retriever.search (Agent.argsort w) (Agent._get_retriever w) question k
               = []).
  { unfold Agent._get_retriever. destruct Hc as [-> | ->]; reflexivity. }
  split; [exact Hs|].
  rewrite answer_retrieval_path by exact Hq. rewrite Hs. reflexivity.
Qed.

Lemma answer_without_corpus_witness :
  exists resp,
    Agent.answer
      (Agent.mkWorld Examples.host_timeout None None Lib.insertion_argsort
         Lib.overlap_scorer (fun _ => Raise (Llm.RuntimeError "price path")))
      Examples.question 5 = Ok resp
    /\ Models.citations resp = [].
Proof.
  eexists. split.
  - apply (answer_without_corpus
             (Agent.mkWorld Examples.host_timeout None None Lib.insertion_argsort
                Lib.overlap_scorer (fun _ => Raise (Llm.RuntimeError "price path")))
             Examples.question 5).
    + left. reflexivity.
    + reflexivity.
  - reflexivity.
Defined.

(** X19: every response of the retrieval path carries metrics whose
    retrieved count is the number of its citations, whose latency is 0
    and whose route is "rag" or "rag+llm". *)
Theorem retrieval_metrics_count_citations (w : Agent.World) (question : string)
    (k : Z) (resp : Models.AnswerResponse) :
  Agent._is_price_query question = false ->
  Agent.answer w question k = Ok resp ->
  exists m,
    Models.metrics resp = Some m
    /\ Models.retrieved_k m = List.length (Models.citations resp)
    /\ Models.latency_ms m = 0%R
    /\ (Models.route m = "rag" \/ Models.route m = "rag+llm").
Proof.
  intros Hq H. rewrite answer_retrieval_path in H by exact Hq.
  unfold Agent.answer_rag in H.
  destruct (Retriever.search (Agent.argsort w) (Agent._get_retriever w) question k)
    as [|r rs].
  - injection H as <-. eexists. repeat split. left. reflexivity.
  - destruct (Llm.is_configured (Agent.host w)).
    + destruct (Llm.synthesize_answer _ _ _ _); [|discriminate].
      injection H as <-. eexists. split; [reflexivity|]. simpl.
      rewrite length_map. repeat split. right. reflexivity.
    + injection H as <-. eexists. split; [reflexivity|]. simpl.
      rewrite length_map. repeat split. left. reflexivity.
Qed.

Lemma retrieval_metrics_count_citations_witness :
  exists resp m,
    Agent.answer (Examples.world_of Examples.host_off [Examples.q2_chunk])
      Examples.question 3 = Ok resp
    /\ Models.metrics resp = Some m
    /\ Models.retrieved_k m = List.length (Models.citations resp)
    /\ Models.latency_ms m = 0%R
    /\ (Models.route m = "rag" \/ Models.route m = "rag+llm").
Proof.
  destruct example_answer_off as [resp H].
  destruct (retrieval_metrics_count_citations
              (Examples.world_of Examples.host_off [Examples.q2_chunk])
              Examples.question 3 resp eq_refl H) as [m Hm].
  exists resp, m. split; [exact H | exact Hm].
Defined.

(** On the price path [answer] ignores [k] and the corpus: it
    returns the response of the price tool with its answer text,
    citations and sources unchanged, and it raises what the price tool
    raises. *)
Theorem price_route_passes_through (w : Agent.World) (question : string) (k : Z) :
  Agent._is_price_query question = true ->
  match Agent._answer_price w question with
  | Ok resp =>
      exists resp',
        Agent.answer w question k = Ok resp'
        /\ Models.answer resp' = Models.answer resp
        /\ Models.citations resp' = Models.citations resp
        /\ Models.sources resp' = Models.sources resp
  | Raise e => Agent.answer w question k = Raise e
  end.
Proof.
  intro Hq. unfold Agent.answer. rewrite Hq.
  destruct (Agent._answer_price w question) as [resp|e]; [|reflexivity].
  eexists. split; [reflexivity|].
  unfold Agent.with_used_tools.
  destruct (Models.metrics resp) as [m|]; [|repeat split].
  destruct (Models.extra m); repeat split.
Qed.

Lemma price_route_passes_through_witness :
  Agent.answer (Examples.world_of Examples.host_off [Examples.q2_chunk])
    "What is the most recent close for MSFT?" 5
  = Raise (Llm.RuntimeError "price path").
Proof.
  apply (price_route_passes_through
           (Examples.world_of Examples.host_off [Examples.q2_chunk])
           "What is the most recent close for MSFT?" 5).
  reflexivity.
Defined.

(* ================================================================== *)
(** * Further properties: the call to the generator *)

Section Generation.

Import Llm Props.

Lemma lstrip_length (s : string) : String.length (Py.lstrip s) <= String.length s.
Proof.
  induction s as [|c r IH]; simpl; [lia|].
  destruct (Py.isspace c); simpl; lia.
Qed.

Lemma lstrip_fixed_head (c : ascii) (r : string) :
  Py.lstrip (String c r) = String c r -> Py.isspace c = false.
Proof.
  simpl. destruct (Py.isspace c); [|reflexivity].
  intro H. pose proof (lstrip_length r) as L. rewrite H in L. simpl in L. lia.
Qed.

Lemma lstrip_idempotent (s : string) : Py.lstrip (Py.lstrip s) = Py.lstrip s.
Proof.
  induction s as [|c r IH]; simpl; [reflexivity|].
  destruct (Py.isspace c) eqn:E; [exact IH|].
  simpl. rewrite E. reflexivity.
Qed.

Lemma rstrip_idempotent (s : string) : Py.rstrip (Py.rstrip s) = Py.rstrip s.
Proof.
  induction s as [|c r IH]; simpl; [reflexivity|].
  destruct (Py.rstrip r) as [|d r'] eqn:E.
  - destruct (Py.isspace c) eqn:Ec; simpl; [reflexivity|].
    rewrite Ec. reflexivity.
  - change (Py.rstrip (String c (String d r')))
      with (match Py.rstrip (String d r') with
            | EmptyString => if Py.isspace c then EmptyString else String c EmptyString
            | String x y => String c (String x y)
            end).
    rewrite IH. reflexivity.
Qed.

Lemma rstrip_keeps_head (s : string) :
  Py.lstrip s = s -> Py.lstrip (Py.rstrip s) = Py.rstrip s.
Proof.
  destruct s as [|c r]; [reflexivity|].
  intro H. apply lstrip_fixed_head in H. simpl.
  destruct (Py.rstrip r); simpl; rewrite H; simpl; try rewrite H; reflexivity.
Qed.

Lemma strip_stripped (s : string) : stripped (Py.strip s).
Proof.
  unfold stripped, Py.strip. split.
  - apply rstrip_keeps_head. apply lstrip_idempotent.
  - apply rstrip_idempotent.
Qed.

Lemma or_empty_strip_stripped (out : option string) : stripped (or_empty_strip out).
Proof.
  destruct out as [s|]; simpl; [apply strip_stripped | split; reflexivity].
Qed.

Lemma append_empty_r (s : string) : s ++ "" = s.
Proof. induction s as [|c s IH]; simpl; [reflexivity | rewrite IH; reflexivity]. Qed.

Lemma contains_self (x : string) : Py.contains x x = true.
Proof. rewrite <- (append_empty_r x) at 2. apply contains_here. Qed.

Lemma contains_join (sep x : string) (l : list string) :
  In x l -> Py.contains x (Py.join sep l) = true.
Proof.
  induction l as [|y r IH]; intro H; [destruct H|].
  destruct r as [|z r'].
  - destruct H as [->|[]]. simpl. apply contains_self.
  - change (Py.join sep (y :: z :: r')) with (y ++ sep ++ Py.join sep (z :: r')).
    destruct H as [->|H].
    + apply contains_here.
    + apply contains_app_l. apply contains_app_l. apply IH. exact H.
Qed.

End Generation.

(** X20: the text [synthesize_answer] returns has no whitespace at
    either end. *)
Theorem synthesized_text_is_stripped (h : Llm.Host) (system question : string)
    (contexts : list (string * string)) (text : string) :
  Llm.synthesize_answer h system question contexts = Ok text ->
  Props.stripped text.
Proof.
  unfold Llm.synthesize_answer. intro H.
  destruct (String.eqb (Llm.provider h) "ollama").
  - destruct (Llm._ollama_chat h system _) as [out|e]; [|discriminate].
    injection H as <-. apply or_empty_strip_stripped.
  - destruct (negb (Llm.OpenAI_installed h)); [discriminate|].
    destruct (Llm.getenv h "OPENAI_API_KEY") as [[|c k]|]; try discriminate.
    destruct (Llm.chat_completions_create h _ _ _ _) as [out|e]; [|discriminate].
    injection H as <-. apply or_empty_strip_stripped.
Qed.

Lemma synthesized_text_is_stripped_witness : Props.stripped "SPY rallied [a@0:1].".
Proof.
  apply (synthesized_text_is_stripped
           (Examples.host_reply "  SPY rallied [a@0:1].  ") "system" "question"
           [("a@0:1", "text")]).
  reflexivity.
Defined.

(** X21: the prompt sent to the generator holds the question, and for
    every context its tag in brackets, once in the list of allowed tags
    and once before its text, and its text. *)
Theorem prompt_lists_tags_and_texts (question : string)
    (contexts : list (string * string)) (tag text : string) :
  In (tag, text) contexts ->
  let prompt := Llm.user_content question contexts in
  Py.contains ("Question: " ++ question) prompt = true
  /\ Py.contains ("- [" ++ tag ++ "]") prompt = true
  /\ Py.contains ("[" ++ tag ++ "]") prompt = true
  /\ Py.contains text prompt = true.
Proof.
  intros Hin prompt. unfold prompt, Llm.user_content.
  repeat split; apply contains_join.
  - do 4 right. left. reflexivity.
  - apply in_or_app. right. apply in_or_app. left.
    apply in_map_iff. exists (tag, text). split; [reflexivity | exact Hin].
  - apply in_or_app. right. apply in_or_app. right. right.
    apply in_flat_map. exists (tag, text). split; [exact Hin|]. left. reflexivity.
  - apply in_or_app. right. apply in_or_app. right. right.
    apply in_flat_map. exists (tag, text). split; [exact Hin|].
    right. left. reflexivity.
Qed.

Lemma prompt_lists_tags_and_texts_witness :
  let prompt :=
    Llm.user_content Examples.question
      [("q2_letter.html@0:20", "SPY rallied in Q2 amid macro tailwinds")] in
  Py.contains ("Question: " ++ Examples.question) prompt = true
  /\ Py.contains "- [q2_letter.html@0:20]" prompt = true
  /\ Py.contains "[q2_letter.html@0:20]" prompt = true
  /\ Py.contains "SPY rallied in Q2 amid macro tailwinds" prompt = true.
Proof.
  apply (prompt_lists_tags_and_texts Examples.question
           [("q2_letter.html@0:20", "SPY rallied in Q2 amid macro tailwinds")]
           "q2_letter.html@0:20" "SPY rallied in Q2 amid macro tailwinds").
  left. reflexivity.
Defined.

(** When [is_configured] holds, [synthesize_answer] raises neither
    of its two configuration errors: what it returns or raises is what
    the call to the configured back end returns or raises, the text
    stripped. *)
Theorem configured_generation_reaches_back_end (h : Llm.Host)
    (system question : string) (contexts : list (string * string)) :
  Llm.is_configured h = true ->
  let user := Llm.user_content question contexts in
  let finish (r : result Llm.Exn (option string)) :=
    match r with
    | Ok out => Ok (Llm.or_empty_strip out)
    | Raise e => Raise e
    end in
  (Llm.provider h = "ollama"
   /\ Llm.synthesize_answer h system question contexts
      = finish (Llm._ollama_chat h system user))
  \/ (Llm.provider h <> "ollama"
      /\ exists key,
           Llm.getenv h "OPENAI_API_KEY" = Some key /\ key <> ""
           /\ Llm.synthesize_answer h system question contexts
              = finish (Llm.chat_completions_create h key (Llm.model_name h)
                          system user)).
Proof.
  intros Hc user finish. unfold Llm.is_configured in Hc.
  unfold Llm.synthesize_answer. fold user.
  destruct (String.eqb_spec (Llm.provider h) "ollama") as [Hp|Hp].
  - left. split; [exact Hp|]. reflexivity.
  - right. split; [exact Hp|].
    apply andb_prop in Hc. destruct Hc as [Hk Hi]. rewrite Hi. simpl.
    unfold Llm.env_truthy in Hk.
    destruct (Llm.getenv h "OPENAI_API_KEY") as [[|c k]|]; try discriminate.
    exists (String c k). repeat split. discriminate.
Qed.

Lemma configured_generation_reaches_back_end_witness :
  Llm.synthesize_answer Examples.host_timeout "system" Examples.question []
  = Raise Llm.Timeout.
Proof.
  destruct (configured_generation_reaches_back_end Examples.host_timeout
              "system" Examples.question [] eq_refl) as [[_ H]|[Hp _]].
  - rewrite H. reflexivity.
  - exfalso. apply Hp. reflexivity.
Defined.

(* ================================================================== *)
(** * Further properties: the price tool *)

Section PriceTool.

Import Prices.

Variable upper : string -> string.

Lemma get_put {V : Type} (k : string) (v : V) (d : Retriever.dict V) (k' : string) :
  Retriever.get (put k v d) k'
  = if String.eqb k k' then Some v else Retriever.get d k'.
Proof.
  induction d as [|[x y] r IH]; simpl.
  - reflexivity.
  - destruct (String.eqb_spec x k) as [->|Hxk]; simpl.
    + destruct (String.eqb k k'); reflexivity.
    + rewrite IH. destruct (String.eqb_spec x k') as [->|Hxk'].
      * destruct (String.eqb_spec k k') as [->|_]; [congruence | reflexivity].
      * reflexivity.
Qed.

Lemma keys_put {V : Type} (k : string) (v : V) (d : Retriever.dict V) (k' : string) :
  In k' (map fst (put k v d)) <-> k' = k \/ In k' (map fst d).
Proof.
  induction d as [|[x y] r IH]; simpl.
  - intuition.
  - destruct (String.eqb_spec x k) as [->|Hxk]; simpl.
    + intuition.
    + rewrite IH. intuition.
Qed.

Lemma NoDup_keys_put {V : Type} (k : string) (v : V) (d : Retriever.dict V) :
  NoDup (map fst d) -> NoDup (map fst (put k v d)).
Proof.
  induction d as [|[x y] r IH]; simpl; intro H.
  - repeat constructor. intros [].
  - inversion H as [|a l Hnin Hnd]; subst.
    destruct (String.eqb_spec x k) as [->|Hxk]; simpl.
    + constructor; assumption.
    + constructor; [|apply IH; exact Hnd].
      intro Hin. apply keys_put in Hin. destruct Hin as [E|Hin];
        [congruence | contradiction].
Qed.

Lemma find_snoc {A : Type} (p : A -> bool) (l : list A) (x : A) :
  find p (l ++ [x])%list
  = match find p l with
    | Some y => Some y
    | None => if p x then Some x else None
    end.
Proof.
  induction l as [|y l IH]; simpl; [reflexivity|].
  destruct (p y); [reflexivity | exact IH].
Qed.

Lemma load_fold_get (file d0 : Retriever.dict series) (K : string) :
  Retriever.get
    (fold_left (fun d kv => put (upper (fst kv)) (snd kv) d) file d0) K
  = match find (fun kv => String.eqb (upper (fst kv)) K) (rev file) with
    | Some kv => Some (snd kv)
    | None => Retriever.get d0 K
    end.
Proof.
  revert d0. induction file as [|[k v] rest IH]; intro d0; simpl.
  - reflexivity.
  - rewrite IH, find_snoc.
    destruct (find (fun kv => String.eqb (upper (fst kv)) K) (rev rest));
      [reflexivity|].
    simpl. rewrite get_put. destruct (String.eqb (upper k) K); reflexivity.
Qed.

Lemma load_fold_keys (file d0 : Retriever.dict series) :
  NoDup (map fst d0) ->
  NoDup (map fst (fold_left (fun d kv => put (upper (fst kv)) (snd kv) d) file d0))
  /\ forall s,
       In s (map fst (fold_left (fun d kv => put (upper (fst kv)) (snd kv) d) file d0))
       <-> (exists k, In k (map fst file) /\ upper k = s) \/ In s (map fst d0).
Proof.
  revert d0. induction file as [|[k v] rest IH]; intros d0 Hnd; simpl.
  - split; [exact Hnd|]. intro s. split; [tauto|].
    intros [[k [[] _]]|H]; exact H.
  - destruct (IH (put (upper k) v d0) (NoDup_keys_put _ _ _ Hnd)) as [H1 H2].
    split; [exact H1|]. intro s. rewrite H2, keys_put. split.
    + intros [[k' [Hk' E]]|[E|H]].
      * left. exists k'. split; [right; exact Hk' | exact E].
      * left. exists k. split; [left; reflexivity | symmetry; exact E].
      * right. exact H.
    + intros [[k' [[E'|Hk'] E]]|H].
      * right. left. subst. reflexivity.
      * left. exists k'. split; assumption.
      * right. right. exact H.
Qed.

Lemma last_cons {A : Type} (c : A) (bs : list A) (b : A) :
  last (c :: bs) b = last bs c.
Proof.
  revert c b. induction bs as [|d bs IH]; intros c b; [reflexivity|].
  change (last (c :: d :: bs) b) with (last (d :: bs) b).
  rewrite IH. symmetry. apply IH.
Qed.

Lemma skipn_all_but_last {A : Type} (b : A) (bs : list A) :
  skipn (List.length (b :: bs) - 1) (b :: bs) = [last bs b].
Proof.
  simpl. rewrite Nat.sub_0_r.
  revert b. induction bs as [|c bs IH]; intro b; [reflexivity|].
  change (skipn (List.length (c :: bs)) (b :: c :: bs))
    with (skipn (List.length bs) (c :: bs)).
  rewrite IH, last_cons. reflexivity.
Qed.

Lemma latest_n_length (s : series) (n : Z) :
  (0 < n)%Z ->
  List.length (skipn (List.length s - Z.to_nat n) s)
  = Nat.min (Z.to_nat n) (List.length s).
Proof. intro H. rewrite length_skipn. lia. Qed.

End PriceTool.

(** X22: the series of a symbol is the series of the last entry of the
    price file whose key, in upper case, is the symbol in upper case;
    with no such entry there is no series. *)
Theorem get_series_last_entry_wins (upper : string -> string)
    (file : Retriever.dict Prices.series) (symbol : string) :
  Prices._get_series upper file symbol
  = option_map snd
      (find (fun kv => String.eqb (upper (fst kv)) (upper symbol)) (rev file)).
Proof.
  unfold Prices._get_series, Prices.load_prices. rewrite load_fold_get.
  destruct (find _ (rev file)); reflexivity.
Qed.

(** X23: [get_latest_n] gives the empty list for every [n <= 0], also
    for an unknown symbol; for [n > 0] it gives nothing when the symbol
    has no series or an empty one, and otherwise the last [n] records of
    the series in their order, all of them when the series has fewer. *)
Theorem get_latest_n_spec (upper : string -> string)
    (file : Retriever.dict Prices.series) (symbol : string) (n : Z) :
  ((n <= 0)%Z -> Prices.get_latest_n upper file symbol n = Some [])
  /\ ((0 < n)%Z ->
      match Prices._get_series upper file symbol with
      | None | Some [] => Prices.get_latest_n upper file symbol n = None
      | Some s =>
          exists older latest,
            Prices.get_latest_n upper file symbol n = Some latest
            /\ s = (older ++ latest)%list
            /\ List.length latest = Nat.min (Z.to_nat n) (List.length s)
      end).
Proof.
  unfold Prices.get_latest_n. split; intro H.
  - destruct (Z.leb_spec n 0); [reflexivity | lia].
  - destruct (Z.leb_spec n 0); [lia|].
    destruct (Prices._get_series upper file symbol) as [[|b bs]|]; try reflexivity.
    exists (firstn (List.length (b :: bs) - Z.to_nat n) (b :: bs)),
           (skipn (List.length (b :: bs) - Z.to_nat n) (b :: bs)).
    split; [reflexivity|]. split.
    + symmetry. apply firstn_skipn.
    + apply latest_n_length. exact H.
Qed.

Lemma get_latest_n_spec_witness :
  Prices.get_latest_n Samples.ascii_upper Samples.prices_file "nope" (-3) = Some []
  /\ exists older latest,
       Prices.get_latest_n Samples.ascii_upper Samples.prices_file "Msft" 2
       = Some latest
       /\ [Prices.mkBar "2024-06-26" 400; Prices.mkBar "2024-06-27" 410;
           Prices.mkBar "2024-06-28" 430] = (older ++ latest)%list
       /\ List.length latest = 2.
Proof.
  split.
  - apply (get_latest_n_spec Samples.ascii_upper Samples.prices_file "nope" (-3)).
    lia.
  - apply (proj2 (get_latest_n_spec Samples.ascii_upper Samples.prices_file "Msft" 2)).
    lia.
Defined.

(** X24: the latest close of a symbol is the one record [get_latest_n]
    returns for [n = 1], and there is none exactly when that call
    returns nothing. *)
Theorem latest_close_is_latest_one (upper : string -> string)
    (file : Retriever.dict Prices.series) (symbol : string) :
  Prices.get_latest_n upper file symbol 1
  = option_map (fun b => [b]) (Prices.get_latest_close upper file symbol).
Proof.
  unfold Prices.get_latest_n, Prices.get_latest_close. simpl.
  destruct (Prices._get_series upper file symbol) as [[|b bs]|]; try reflexivity.
  simpl option_map. f_equal.
  change (Z.to_nat 1) with 1. apply skipn_all_but_last.
Qed.

(** X25: [pct_change] is 0 on a base of 0, and on any other base it is
    the rate that takes the base to the new value. *)
Theorem pct_change_recovers_new (old new : R) :
  (old = 0%R -> Prices.pct_change old new = 0%R)
  /\ (old <> 0%R -> (old * (1 + Prices.pct_change old new))%R = new).
Proof.
  unfold Prices.pct_change. split; intro H.
  - destruct (Req_dec_T old 0); [reflexivity | contradiction].
  - destruct (Req_dec_T old 0); [contradiction|]. field. exact H.
Qed.

Lemma pct_change_recovers_new_witness :
  (400 * (1 + Prices.pct_change 400 430))%R = 430%R.
Proof.
  apply (proj2 (pct_change_recovers_new 400 430)). lra.
Defined.

(** X26: [compare_performance] returns a result only for [points >= 2];
    its relative figure is the first return less the second, and with the
    two symbols exchanged it returns the two returns exchanged and the
    relative figure negated. *)
Theorem compare_performance_antisymmetric (upper : string -> string)
    (file : Retriever.dict Prices.series) (symbol_a symbol_b : string)
    (points : Z) (p : Prices.Performance) :
  Prices.compare_performance upper file symbol_a symbol_b points = Some p ->
  (2 <= points)%Z
  /\ Prices.relative p = (Prices.a_return p - Prices.b_return p)%R
  /\ Prices.compare_performance upper file symbol_b symbol_a points
     = Some (Prices.mkPerformance (Prices.b_return p) (Prices.a_return p)
               (- Prices.relative p)%R).
Proof.
  unfold Prices.compare_performance. intro H.
  assert (Hlen : forall s l, Prices.get_latest_n upper file s points = Some l ->
                   (2 <= List.length l)%nat -> (2 <= points)%Z).
  { intros s l Hl H2. unfold Prices.get_latest_n in Hl.
    destruct (Z.leb_spec points 0) as [Hp|Hp].
    - injection Hl as <-. simpl in H2. lia.
    - destruct (Prices._get_series upper file s) as [[|b bs]|]; try discriminate.
      assert (El : l = skipn (List.length (b :: bs) - Z.to_nat points) (b :: bs))
        by congruence.
      rewrite El, latest_n_length in H2 by exact Hp. lia. }
  destruct (Prices.get_latest_n upper file symbol_a points) as [a|] eqn:Ea;
    [|discriminate].
  destruct (Prices.get_latest_n upper file symbol_b points) as [b|] eqn:Eb;
    [|discriminate].
  destruct (Nat.ltb_spec (List.length a) 2) as [Ha|Ha]; [discriminate|].
  destruct (Nat.ltb_spec (List.length b) 2) as [Hb|Hb]; [discriminate|].
  simpl in H. injection H as <-. simpl.
  split; [apply (Hlen symbol_a a Ea Ha)|]. split; [reflexivity|].
  destruct (Nat.ltb_spec (List.length b) 2); [lia|].
  destruct (Nat.ltb_spec (List.length a) 2); [lia|].
  simpl. do 2 f_equal. ring.
Qed.

Lemma compare_performance_antisymmetric_witness :
  exists p,
    Prices.compare_performance Samples.ascii_upper Samples.prices_file
      "msft" "spy" 2 = Some p
    /\ Prices.compare_performance Samples.ascii_upper Samples.prices_file
         "spy" "msft" 2
       = Some (Prices.mkPerformance (Prices.b_return p) (Prices.a_return p)
                 (- Prices.relative p)%R).
Proof.
  eexists. split; [reflexivity|].
  apply (compare_performance_antisymmetric Samples.ascii_upper Samples.prices_file
           "msft" "spy" 2).
  reflexivity.
Defined.

(** X27: [list_symbols] returns the keys of the price file in upper
    case, each once, in strictly ascending order. *)
Theorem list_symbols_sorted_upper_keys (upper : string -> string)
    (file : Retriever.dict Prices.series) :
  Sorted Spec.str_lt (Prices.list_symbols upper file)
  /\ NoDup (Prices.list_symbols upper file)
  /\ forall s, In s (Prices.list_symbols upper file)
               <-> exists k, In k (map fst file) /\ upper k = s.
Proof.
  unfold Prices.list_symbols, Prices.load_prices.
  destruct (load_fold_keys upper file [] (NoDup_nil _)) as [Hnd Hk].
  set (ks := map fst (fold_left (fun d kv => Prices.put (upper (fst kv)) (snd kv) d)
                         file [])) in *.
  pose proof (sorted_perm ks) as Hp.
  split; [apply sorted_strictly; exact Hnd|]. split.
  - apply (Permutation_NoDup (Permutation_sym Hp)). exact Hnd.
  - intro s. split.
    + intro H. apply (Permutation_in _ Hp) in H. apply Hk in H.
      destruct H as [H|[]]. exact H.
    + intro H. apply (Permutation_in _ (Permutation_sym Hp)). apply Hk.
      left. exact H.
Qed.

(* ================================================================== *)
(** * Further properties: the chunker *)

Section Chunker.

Import Ingest Props.

Variable clean : string.
Variables window overlap : nat.

Lemma rfind_dot_range (s : string) (pos start end_ i : nat) :
  rfind_dot s pos start end_ = Some i -> start <= i < end_ /\ pos <= i.
Proof.
  revert pos. induction s as [|c r IH]; intros pos H; [discriminate|].
  simpl in H. destruct (rfind_dot r (S pos) start end_) as [j|] eqn:E.
  - injection H as <-. apply IH in E. lia.
  - destruct (Ascii.eqb c "."); [|discriminate].
    destruct (Nat.leb_spec start pos); [|discriminate].
    destruct (Nat.ltb_spec pos end_); [|discriminate].
    injection H as <-. lia.
Qed.

Lemma rfind_dot_none (s : string) (pos start end_ : nat) :
  all_chars not_dot s = true -> rfind_dot s pos start end_ = None.
Proof.
  revert pos. induction s as [|c r IH]; intros pos H; [reflexivity|].
  simpl in H. apply andb_prop in H. destruct H as [Hc Hr].
  simpl. rewrite (IH _ Hr). unfold not_dot in Hc.
  destruct (Ascii.eqb c "."); [discriminate | reflexivity].
Qed.

Lemma window_end_bounds (start : nat) :
  window_end clean window start <= String.length clean
  /\ window_end clean window start <= start + window.
Proof.
  unfold window_end.
  destruct (rfind_dot clean 0 start (Nat.min (String.length clean) (start + window)))
    as [b|] eqn:E; [|lia].
  apply rfind_dot_range in E.
  destruct (2 * start + window <? 2 * b); lia.
Qed.

(** Every window but the last moves the start forward when the overlap
    is at most half of a window that is not empty. *)
Lemma window_end_progress (start : nat) :
  0 < window -> 2 * overlap <= window ->
  start < String.length clean ->
  start < window_end clean window start
  /\ (window_end clean window start <> String.length clean ->
      start < window_end clean window start - overlap).
Proof.
  intros Hw Ho Hs. unfold window_end.
  destruct (rfind_dot clean 0 start (Nat.min (String.length clean) (start + window)))
    as [b|] eqn:E.
  - apply rfind_dot_range in E.
    destruct (Nat.ltb_spec (2 * start + window) (2 * b)); lia.
  - lia.
Qed.

Lemma take_nonempty (n : nat) (s : string) : Py.take n s <> "" -> 0 < n.
Proof. destruct n; [rewrite take_0; congruence | lia]. Qed.

Lemma strip_nonempty (s : string) : Py.strip s <> "" -> s <> "".
Proof. intros H E. apply H. subst s. reflexivity. Qed.

Lemma chunk_at_ok (start : nat) :
  Forall (chunk_ok clean window)
    (chunk_at clean start (window_end clean window start)).
Proof.
  unfold chunk_at.
  destruct (Py.strip (slice clean start (window_end clean window start)))
    as [|c r] eqn:E; constructor; [|constructor].
  pose proof (window_end_bounds start) as [H1 H2].
  unfold chunk_ok. repeat split; try lia.
  - assert (Hne : Py.strip (slice clean start (window_end clean window start)) <> "")
      by (rewrite E; discriminate).
    apply strip_nonempty in Hne. unfold slice in Hne.
    apply take_nonempty in Hne. lia.
  - symmetry. exact E.
  - discriminate.
Qed.

Lemma chunk_at_start (start end_ : nat) (c : Chunk3) :
  In c (chunk_at clean start end_) -> chunk_start c = start.
Proof.
  unfold chunk_at. destruct (Py.strip (slice clean start end_)); [intros []|].
  intros [<-|[]]. reflexivity.
Qed.

Lemma chunk_loop_ok (fuel start : nat) (res : list Chunk3) :
  chunk_loop fuel clean window overlap start = Some res ->
  Forall (chunk_ok clean window) res.
Proof.
  revert start res. induction fuel as [|fuel IH]; intros start res H; [discriminate|].
  simpl in H. destruct (start <? String.length clean); [|injection H as <-; constructor].
  destruct (window_end clean window start =? String.length clean).
  - injection H as <-. apply chunk_at_ok.
  - destruct (chunk_loop fuel clean window overlap
                (window_end clean window start - overlap)) as [rest|] eqn:E;
      [|discriminate].
    injection H as <-. apply Forall_app. split; [apply chunk_at_ok | apply (IH _ _ E)].
Qed.

Lemma chunk_loop_S (fuel start : nat) :
  chunk_loop (S fuel) clean window overlap start
  = if start <? String.length clean
    then
      if window_end clean window start =? String.length clean
      then Some (chunk_at clean start (window_end clean window start))
      else match chunk_loop fuel clean window overlap
                   (window_end clean window start - overlap) with
           | Some rest =>
               Some (List.app (chunk_at clean start (window_end clean window start))
                       rest)
           | None => None
           end
    else Some [].
Proof. reflexivity. Qed.

Lemma chunk_loop_more_fuel (fuel start : nat) (res : list Chunk3) :
  chunk_loop fuel clean window overlap start = Some res ->
  chunk_loop (S fuel) clean window overlap start = Some res.
Proof.
  revert start res. induction fuel as [|fuel IH]; intros start res H; [discriminate|].
  rewrite chunk_loop_S in H. rewrite (chunk_loop_S (S fuel)).
  destruct (start <? String.length clean); [|exact H].
  destruct (window_end clean window start =? String.length clean); [exact H|].
  destruct (chunk_loop fuel clean window overlap
              (window_end clean window start - overlap)) as [rest|] eqn:E;
    [|discriminate].
  rewrite (IH _ _ E). exact H.
Qed.

Lemma chunk_loop_fuel_le (f1 f2 start : nat) (res : list Chunk3) :
  f1 <= f2 ->
  chunk_loop f1 clean window overlap start = Some res ->
  chunk_loop f2 clean window overlap start = Some res.
Proof.
  intros Hle H. induction Hle as [|f2 Hle IH]; [exact H|].
  apply chunk_loop_more_fuel. exact IH.
Qed.

Hypothesis window_pos : 0 < window.
Hypothesis overlap_small : 2 * overlap <= window.

Lemma chunk_loop_terminates (fuel start : nat) :
  String.length clean - start < fuel ->
  exists res,
    chunk_loop fuel clean window overlap start = Some res
    /\ Forall (fun c => start <= chunk_start c) res
    /\ StronglySorted (fun c1 c2 => chunk_start c1 < chunk_start c2) res.
Proof.
  revert start. induction fuel as [|fuel IH]; intros start Hf; [lia|].
  cbn [chunk_loop].
  destruct (Nat.ltb_spec start (String.length clean)) as [Hs|Hs].
  - destruct (window_end_progress start window_pos overlap_small Hs) as [H1 H2].
    assert (Hhere : Forall (fun c => start <= chunk_start c)
                      (chunk_at clean start (window_end clean window start))).
    { apply Forall_forall. intros c Hc. rewrite (chunk_at_start _ _ _ Hc). lia. }
    assert (Hone : StronglySorted (fun c1 c2 => chunk_start c1 < chunk_start c2)
                     (chunk_at clean start (window_end clean window start))).
    { unfold chunk_at. destruct (Py.strip _); repeat constructor. }
    destruct (Nat.eqb_spec (window_end clean window start) (String.length clean))
      as [He|He].
    + eexists. split; [reflexivity|]. split; assumption.
    + specialize (H2 He).
      destruct (IH (window_end clean window start - overlap)) as [rest [E [Hge Hss]]];
        [lia|].
      rewrite E. eexists. split; [reflexivity|]. split.
      * apply Forall_app. split; [exact Hhere|].
        apply Forall_forall. intros c Hc. rewrite Forall_forall in Hge.
        specialize (Hge c Hc). lia.
      * unfold chunk_at in *. destruct (Py.strip _) as [|x y]; [exact Hss|].
        simpl. constructor; [exact Hss|].
        apply Forall_forall. intros c Hc. rewrite Forall_forall in Hge.
        specialize (Hge c Hc). unfold chunk_start at 1. simpl. lia.
  - eexists. split; [reflexivity|]. split; constructor.
Qed.

End Chunker.

(** X28: for a window that is not empty and an overlap of at most half
    the window (the defaults are 600 and 120), the loop of [chunk_text]
    ends: with more fuel than the cleaned text has characters it returns
    a list of chunks, the same for every such fuel; every chunk is a span
    of the cleaned text, not empty and no longer than the window, with
    the stripped text of the span, which is not empty; the starts of the
    chunks increase strictly. *)
Theorem chunk_text_terminates (text : string) (window overlap : nat) :
  0 < window -> 2 * overlap <= window ->
  exists chunks,
    (forall fuel,
       String.length (Ingest.clean_text text) < fuel ->
       Ingest.chunk_text fuel text window overlap = Some chunks)
    /\ Forall (Props.chunk_ok (Ingest.clean_text text) window) chunks
    /\ StronglySorted
         (fun c1 c2 => Props.chunk_start c1 < Props.chunk_start c2) chunks.
Proof.
  intros Hw Ho. unfold Ingest.chunk_text.
  destruct (Ingest.clean_text text) as [|c r] eqn:E.
  - exists []. repeat split; constructor.
  - set (clean := String c r) in *.
    destruct (chunk_loop_terminates clean window overlap Hw Ho
                (S (String.length clean)) 0) as [res [H [_ Hs]]]; [lia|].
    exists res. split; [|split].
    + intros fuel Hf.
      apply (chunk_loop_fuel_le clean window overlap (S (String.length clean)));
        [lia | exact H].
    + apply (chunk_loop_ok clean window overlap _ _ _ H).
    + exact Hs.
Qed.

Lemma chunk_text_terminates_witness :
  exists chunks,
    (forall fuel,
       String.length (Ingest.clean_text "One.  Two three. Four") < fuel ->
       Ingest.chunk_text fuel "One.  Two three. Four" 600 120 = Some chunks)
    /\ Forall (Props.chunk_ok (Ingest.clean_text "One.  Two three. Four") 600) chunks
    /\ StronglySorted
         (fun c1 c2 => Props.chunk_start c1 < Props.chunk_start c2) chunks.
Proof.
  apply (chunk_text_terminates "One.  Two three. Four" 600 120); lia.
Defined.

(** Whenever [chunk_text] returns, whatever the window and the
    overlap, every chunk it returns is a span of the cleaned text, not
    empty and no longer than the window, with the stripped text of the
    span, which is not empty. *)
Theorem chunk_text_chunks_ok (fuel : nat) (text : string) (window overlap : nat)
    (chunks : list Ingest.Chunk3) :
  Ingest.chunk_text fuel text window overlap = Some chunks ->
  Forall (Props.chunk_ok (Ingest.clean_text text) window) chunks.
Proof.
  unfold Ingest.chunk_text. intro H.
  destruct (Ingest.clean_text text) as [|c r].
  - injection H as <-. constructor.
  - apply (chunk_loop_ok _ _ _ _ _ _ H).
Qed.

Lemma chunk_text_chunks_ok_witness :
  Forall (Props.chunk_ok (Ingest.clean_text "Hello   world. This is a test.") 20)
    [(0, 12, "Hello world."); (7, 27, "orld. This is a test");
     (22, 28, "test.")].
Proof.
  apply (chunk_text_chunks_ok 10 "Hello   world. This is a test." 20 5).
  reflexivity.
Defined.

(** X30: with an overlap of at least the window, on a cleaned text
    longer than the window and with no full stop, the loop of
    [chunk_text] never ends: no amount of fuel gives a result. *)
Theorem chunk_text_loops_forever (text : string) (window overlap : nat) :
  window <= overlap ->
  window < String.length (Ingest.clean_text text) ->
  Props.all_chars Props.not_dot (Ingest.clean_text text) = true ->
  forall fuel, Ingest.chunk_text fuel text window overlap = None.
Proof.
  intros Ho Hlen Hdot fuel. unfold Ingest.chunk_text.
  destruct (Ingest.clean_text text) as [|c r] eqn:E; [simpl in Hlen; lia|].
  set (clean := String c r) in *.
  assert (Hend : Ingest.window_end clean window 0 = window).
  { unfold Ingest.window_end. rewrite (rfind_dot_none _ _ _ _ Hdot).
    rewrite Nat.add_0_l. apply Nat.min_r. lia. }
  induction fuel as [|fuel IH]; [reflexivity|].
  cbn [Ingest.chunk_loop].
  destruct (Nat.ltb_spec 0 (String.length clean)) as [_|H]; [|lia].
  rewrite Hend.
  destruct (Nat.eqb_spec window (String.length clean)) as [H|_]; [lia|].
  replace (window - overlap) with 0 by lia.
  rewrite IH. reflexivity.
Qed.

Lemma chunk_text_loops_forever_witness :
  Ingest.chunk_text 1000 "a long line with no full stop" 10 10 = None.
Proof.
  apply (chunk_text_loops_forever "a long line with no full stop" 10 10).
  - lia.
  - vm_compute. lia.
  - reflexivity.
Defined.

(* ================================================================== *)
(** * Further properties: the symbols of a question *)

Section SymbolExtraction.

Import Symbols Props.

Lemma last_is_word_app (b : bool) (a : string) (c : ascii) (p : string) :
  last_is_word b (a ++ String c p) = last_is_word (Py.is_word c) p.
Proof.
  revert b. induction a as [|x a IH]; intro b; simpl; [reflexivity | apply IH].
Qed.

Lemma word_runs_read (w : string) (acc post : string) :
  all_chars Py.is_word w = true ->
  word_runs acc (w ++ post) = word_runs (acc ++ w) post.
Proof.
  revert acc. induction w as [|c w IH]; intros acc H; simpl.
  - rewrite append_empty_r. reflexivity.
  - simpl in H. apply andb_prop in H. destruct H as [Hc Hw].
    rewrite Hc, (IH _ Hw), append_assoc. reflexivity.
Qed.

Lemma in_flush (acc : string) : acc <> "" -> In acc (flush acc).
Proof. destruct acc; [congruence | left; reflexivity]. Qed.

Lemma flush_in (acc w : string) : In w (flush acc) -> w = acc /\ acc <> "".
Proof. destruct acc; [intros [] | intros [<-|[]]; split; [reflexivity | discriminate]]. Qed.

Lemma word_runs_sound (s acc w : string) :
  all_chars Py.is_word acc = true ->
  In w (word_runs acc s) ->
  w <> "" /\ all_chars Py.is_word w = true
  /\ exists pre post,
       acc ++ s = pre ++ w ++ post
       /\ last_is_word false pre = false
       /\ Agent.starts_with_word_char post = false.
Proof.
  revert acc. induction s as [|c r IH]; intros acc Hacc Hin.
  - simpl in Hin. apply flush_in in Hin. destruct Hin as [-> Hne].
    split; [exact Hne|]. split; [exact Hacc|].
    exists "", "". split; [|split; reflexivity].
    simpl. rewrite !append_empty_r. reflexivity.
  - simpl in Hin. destruct (Py.is_word c) eqn:Hc.
    + apply IH in Hin.
      * destruct Hin as [H1 [H2 [pre [post [E H3]]]]].
        split; [exact H1|]. split; [exact H2|].
        exists pre, post. split; [|exact H3].
        rewrite <- E. rewrite append_assoc. reflexivity.
      * rewrite all_chars_app, Hacc. simpl. rewrite Hc. reflexivity.
    + apply in_app_or in Hin. destruct Hin as [Hin|Hin].
      * apply flush_in in Hin. destruct Hin as [-> Hne].
        split; [exact Hne|]. split; [exact Hacc|].
        exists "", (String c r). split; [reflexivity|].
        split; [reflexivity|]. simpl. exact Hc.
      * apply (IH "" eq_refl) in Hin.
        destruct Hin as [H1 [H2 [pre [post [E [H3 H4]]]]]].
        split; [exact H1|]. split; [exact H2|].
        exists (acc ++ String c pre), post. simpl in E. split; [|split].
        -- rewrite append_assoc. simpl. rewrite E. reflexivity.
        -- rewrite last_is_word_app, Hc. exact H3.
        -- exact H4.
Qed.

Lemma word_runs_complete (w post : string) (pre acc : string) :
  w <> "" -> all_chars Py.is_word w = true ->
  Agent.starts_with_word_char post = false ->
  all_chars Py.is_word acc = true ->
  last_is_word (match acc with EmptyString => false | String _ _ => true end) pre
  = false ->
  In w (word_runs acc (pre ++ w ++ post)).
Proof.
  intros Hne Hw Hpost. revert acc. induction pre as [|c pre IH]; intros acc Hacc Hl.
  - simpl in Hl. destruct acc; [|discriminate]. simpl append.
    rewrite (word_runs_read w "" post Hw). simpl append.
    destruct post as [|d post']; simpl.
    + apply in_flush. exact Hne.
    + simpl in Hpost. rewrite Hpost. apply in_or_app. left. apply in_flush. exact Hne.
  - simpl in Hl. simpl append. cbn [word_runs].
    destruct (Py.is_word c) eqn:Hc.
    + apply IH.
      * rewrite all_chars_app, Hacc. simpl. rewrite Hc. reflexivity.
      * destruct acc; simpl; exact Hl.
    + apply in_or_app. right. apply IH; [reflexivity | exact Hl].
Qed.

Lemma all_upper_word (w : string) :
  all_upper w = true -> all_chars Py.is_word w = true.
Proof.
  induction w as [|c w IH]; simpl; [reflexivity|].
  intro H. apply andb_prop in H. destruct H as [Hc Hw]. rewrite (IH Hw).
  rewrite andb_true_r. clear -Hc.
  destruct c as [[] [] [] [] [] [] [] []]; try reflexivity; discriminate Hc.
Qed.

End SymbolExtraction.

(** X17: the symbols extracted from a question are the known symbols that
    stand in it as a whole word of two to ten capital letters, each one
    once. *)
Theorem extract_symbols_spec (known : list string) (q s : string) :
  NoDup (Symbols._extract_symbols known q)
  /\ (In s (Symbols._extract_symbols known q)
      <-> In s known
          /\ Symbols.is_symbol_shape s = true
          /\ Props.whole_word s q).
Proof.
  unfold Symbols._extract_symbols, Symbols.findall_symbols, Retriever.set_of.
  split; [apply NoDup_filter, NoDup_nodup|].
  rewrite filter_In, nodup_In, filter_In, mem_In. split.
  - intros [[Hrun Hshape] Hk]. split; [exact Hk|]. split; [exact Hshape|].
    apply (word_runs_sound q "" s eq_refl) in Hrun.
    destruct Hrun as [_ [_ [pre [post H]]]]. exists pre, post. exact H.
  - intros [Hk [Hshape [pre [post [E [Hpre Hpost]]]]]].
    split; [|exact Hk]. split; [|exact Hshape]. subst q.
    assert (Hup : Symbols.all_upper s = true).
    { unfold Symbols.is_symbol_shape in Hshape.
      apply andb_prop in Hshape. destruct Hshape as [Hshape _].
      apply andb_prop in Hshape. destruct Hshape as [Hshape _]. exact Hshape. }
    apply word_runs_complete; try assumption.
    + intro Es. subst s. discriminate Hshape.
    + apply all_upper_word. exact Hup.
    + reflexivity.
Qed.

Lemma extract_symbols_spec_witness :
  In "MSFT" (Symbols._extract_symbols ["MSFT"; "SPY"] "Compare MSFT to AAPL").
Proof.
  apply (proj2 (extract_symbols_spec ["MSFT"; "SPY"] "Compare MSFT to AAPL" "MSFT")).
  split; [left; reflexivity|]. split; [reflexivity|].
  exists "Compare ", " to AAPL". split; [reflexivity|]. split; reflexivity.
Defined.

Section Tiling.

Import Ingest Props.

Lemma ws_ok_weaken (s : string) : ws_ok true s = true -> ws_ok false s = true.
Proof. destruct s as [|c r]; simpl; [tauto|]. destruct (Py.isspace c); [discriminate | tauto]. Qed.

Lemma collapse_ws_ok (s : string) (b : bool) : ws_ok b (collapse_ws b s) = true.
Proof.
  revert b. induction s as [|c r IH]; intro b; simpl; [reflexivity|].
  destruct (Py.isspace c) eqn:Hc.
  - destruct b; [apply IH|]. simpl. apply IH.
  - simpl. rewrite Hc. apply IH.
Qed.

Lemma lstrip_ws_ok (s : string) :
  ws_ok false s = true -> ws_ok false (Py.lstrip s) = true.
Proof.
  destruct s as [|c r]; simpl; [tauto|].
  destruct (Py.isspace c) eqn:Hc; simpl; [|rewrite Hc; tauto].
  intro H. destruct r as [|d r']; simpl in *; [reflexivity|].
  destruct (Py.isspace d) eqn:Hd; [discriminate|]. simpl. rewrite Hd. exact H.
Qed.

Lemma rstrip_ws_ok (s : string) (b : bool) :
  ws_ok b s = true -> ws_ok b (Py.rstrip s) = true.
Proof.
  revert b. induction s as [|c r IH]; intros b H; simpl; [reflexivity|].
  simpl in H. destruct (Py.rstrip r) as [|d r'] eqn:E.
  - destruct (Py.isspace c) eqn:Hc; simpl; [reflexivity|]. rewrite Hc. reflexivity.
  - cbn [ws_ok]. destruct (Py.isspace c).
    + apply andb_prop in H. destruct H as [Hb Hr]. rewrite Hb. apply (IH true Hr).
    + apply (IH false H).
Qed.

Lemma clean_text_ws_ok (text : string) : ws_ok false (clean_text text) = true.
Proof.
  unfold clean_text, Py.strip. apply rstrip_ws_ok, lstrip_ws_ok, collapse_ws_ok.
Qed.

Lemma drop_ws_ok (n : nat) (s : string) (b : bool) :
  ws_ok b s = true -> ws_ok false (Py.drop n s) = true.
Proof.
  revert s b. induction n as [|n IH]; intros s b H.
  - destruct s as [|c r]; simpl in *; [reflexivity|].
    destruct (Py.isspace c); [|exact H].
    apply andb_prop in H. destruct H as [_ H]. simpl. exact H.
  - destruct s as [|c r]; simpl in *; [reflexivity|].
    destruct (Py.isspace c).
    + apply andb_prop in H. destruct H as [_ H]. apply (IH _ _ H).
    + apply (IH _ _ H).
Qed.

Lemma take_ws_ok (n : nat) (s : string) (b : bool) :
  ws_ok b s = true -> ws_ok b (Py.take n s) = true.
Proof.
  revert s b. induction n as [|n IH]; intros s b H.
  - rewrite take_0. reflexivity.
  - destruct s as [|c r]; simpl in *; [reflexivity|].
    destruct (Py.isspace c).
    + apply andb_prop in H. destruct H as [Hb H]. rewrite Hb. apply (IH _ _ H).
    + apply (IH _ _ H).
Qed.

(** A string that is all whitespace strips to nothing, and no other. *)
Lemma rstrip_empty_iff (s : string) :
  Py.rstrip s = "" <-> all_chars Py.isspace s = true.
Proof.
  induction s as [|c r IH]; simpl; [tauto|].
  destruct (Py.rstrip r) as [|d r'] eqn:E.
  - destruct (Py.isspace c); simpl.
    + rewrite <- IH. tauto.
    + split; discriminate.
  - split; [discriminate|]. intro H. apply andb_prop in H. destruct H as [_ H].
    apply IH in H. discriminate H.
Qed.

Lemma lstrip_all_ws (s : string) :
  all_chars Py.isspace (Py.lstrip s) = true -> all_chars Py.isspace s = true.
Proof.
  induction s as [|c r IH]; simpl; [tauto|].
  destruct (Py.isspace c) eqn:Hc; simpl; [exact IH|].
  rewrite Hc. discriminate.
Qed.

Lemma strip_empty_all_ws (s : string) :
  Py.strip s = "" -> all_chars Py.isspace s = true.
Proof.
  unfold Py.strip. intro H. apply rstrip_empty_iff in H. apply lstrip_all_ws. exact H.
Qed.

Lemma two_chars_not_all_ws (s : string) :
  ws_ok false s = true -> 2 <= String.length s ->
  all_chars Py.isspace s = false.
Proof.
  destruct s as [|c [|d r]]; simpl; try lia. intros H _.
  destruct (Py.isspace c); simpl; [|reflexivity].
  destruct (Py.isspace d); [discriminate | reflexivity].
Qed.

Lemma take_length (n : nat) (s : string) :
  String.length (Py.take n s) = Nat.min n (String.length s).
Proof.
  revert s. induction n as [|n IH]; intro s; [rewrite take_0; reflexivity|].
  destruct s as [|c r]; simpl; [reflexivity | rewrite IH; reflexivity].
Qed.

Lemma drop_length (n : nat) (s : string) :
  String.length (Py.drop n s) = String.length s - n.
Proof.
  revert s. induction n as [|n IH]; intro s; [destruct s; simpl; lia|].
  destruct s as [|c r]; simpl; [reflexivity | apply IH].
Qed.

Lemma take_all (n : nat) (s : string) : String.length s <= n -> Py.take n s = s.
Proof.
  revert s. induction n as [|n IH]; intros s H.
  - destruct s; [reflexivity | simpl in H; lia].
  - destruct s as [|c r]; simpl in *; [reflexivity|]. rewrite IH by lia. reflexivity.
Qed.

Lemma take_drop (n : nat) (s : string) : Py.take n s ++ Py.drop n s = s.
Proof.
  revert s. induction n as [|n IH]; intro s.
  - rewrite take_0. destruct s; reflexivity.
  - destruct s as [|c r]; simpl; [reflexivity | rewrite IH; reflexivity].
Qed.

Lemma rstrip_app_ws (p v : string) :
  all_chars Py.isspace v = true -> Py.rstrip (p ++ v) = Py.rstrip p.
Proof.
  intro Hv. induction p as [|c p IH]; simpl.
  - apply rstrip_empty_iff. exact Hv.
  - rewrite IH. reflexivity.
Qed.

Lemma rstrip_length (s : string) : String.length (Py.rstrip s) <= String.length s.
Proof.
  induction s as [|c r IH]; simpl; [lia|].
  destruct (Py.rstrip r); [destruct (Py.isspace c)|]; simpl in *; lia.
Qed.

(** A suffix of a stripped text that is not empty holds a character that
    is not whitespace. *)
Lemma stripped_suffix_not_all_ws (s : string) (n : nat) :
  Py.rstrip s = s -> n < String.length s ->
  all_chars Py.isspace (Py.drop n s) = false.
Proof.
  intros Hs Hn. destruct (all_chars Py.isspace (Py.drop n s)) eqn:E; [|reflexivity].
  exfalso. pose proof (rstrip_app_ws (Py.take n s) (Py.drop n s) E) as H.
  rewrite take_drop, Hs in H.
  pose proof (rstrip_length (Py.take n s)) as L. rewrite <- H in L.
  rewrite take_length in L. lia.
Qed.

Variable text : string.
Variables window overlap : nat.
Hypothesis window_two : 2 <= window.
Hypothesis overlap_small : 2 * overlap <= window.

Let clean := clean_text text.

Lemma clean_rstripped : Py.rstrip clean = clean.
Proof. unfold clean, clean_text, Py.strip. apply rstrip_idempotent. Qed.

(** Every window gives a chunk. *)
Lemma chunk_at_one (start : nat) :
  start < String.length clean ->
  exists t, chunk_at clean start (window_end clean window start)
            = [(start, window_end clean window start, t)].
Proof.
  intro Hs. unfold chunk_at.
  destruct (Py.strip (slice clean start (window_end clean window start)))
    as [|c r] eqn:E; [|eexists; reflexivity].
  exfalso. apply strip_empty_all_ws in E. unfold slice in E.
  set (e := window_end clean window start) in *.
  destruct (window_end_bounds clean window start) as [B1 B2]. fold e in B1, B2.
  assert (Hw : 0 < window) by lia.
  destruct (window_end_progress clean window overlap start Hw overlap_small Hs)
    as [P1 P2]. fold e in P1, P2.
  destruct (Nat.eq_dec e (String.length clean)) as [He|He].
  - rewrite take_all in E by (rewrite drop_length; lia).
    rewrite (stripped_suffix_not_all_ws clean start clean_rstripped Hs) in E.
    discriminate E.
  - assert (H2 : 2 <= e - start).
    { unfold e, window_end in *.
      destruct (rfind_dot clean 0 start
                  (Nat.min (String.length clean) (start + window))) as [b|] eqn:Er.
      - apply rfind_dot_range in Er.
        destruct (Nat.ltb_spec (2 * start + window) (2 * b)); lia.
      - lia. }
    rewrite two_chars_not_all_ws in E; [discriminate E | |].
    + apply take_ws_ok. apply (drop_ws_ok start clean false).
      apply clean_text_ws_ok.
    + rewrite take_length, drop_length. lia.
Qed.

Lemma chunk_loop_tiles (fuel start : nat) (res : list Chunk3) :
  start < String.length clean ->
  chunk_loop fuel clean window overlap start = Some res ->
  tiles (String.length clean) overlap start res.
Proof.
  revert start res. induction fuel as [|fuel IH]; intros start res Hs H; [discriminate|].
  rewrite chunk_loop_S in H.
  destruct (Nat.ltb_spec start (String.length clean)) as [_|Hge]; [|lia].
  destruct (chunk_at_one start Hs) as [t Et]. rewrite Et in H.
  assert (Hw : 0 < window) by lia.
  destruct (window_end_progress clean window overlap start Hw overlap_small Hs)
    as [P1 P2].
  destruct (window_end_bounds clean window start) as [B1 _].
  destruct (Nat.eqb_spec (window_end clean window start) (String.length clean))
    as [He|He].
  - injection H as <-. simpl. split; [reflexivity | exact He].
  - specialize (P2 He).
    destruct (chunk_loop fuel clean window overlap
                (window_end clean window start - overlap)) as [rest|] eqn:E;
      [|discriminate].
    injection H as <-.
    assert (Hs' : window_end clean window start - overlap < String.length clean)
      by lia.
    pose proof (IH _ _ Hs' E) as Ht.
    simpl. split; [reflexivity|].
    destruct rest as [|c rest']; [destruct Ht|].
    split; [lia | exact Ht].
Qed.

End Tiling.

(** X29: for a window of at least two characters and an overlap of at
    most half the window (the defaults are 600 and 120), the chunks of a
    text that is not blank tile its cleaned text: the first chunk starts
    at 0, each next one starts [overlap] characters before the end of the
    one before it, and the last one ends at the end of the text. *)
Theorem chunk_text_tiles_clean_text (fuel : nat) (text : string)
    (window overlap : nat) (chunks : list Ingest.Chunk3) :
  2 <= window -> 2 * overlap <= window ->
  Ingest.clean_text text <> "" ->
  Ingest.chunk_text fuel text window overlap = Some chunks ->
  Props.tiles (String.length (Ingest.clean_text text)) overlap 0 chunks.
Proof.
  intros Hw Ho Hne H. unfold Ingest.chunk_text in H.
  destruct (Ingest.clean_text text) as [|c r] eqn:E; [congruence|].
  rewrite <- E in *.
  apply (chunk_loop_tiles text window overlap Hw Ho fuel 0 chunks).
  - rewrite E. simpl. lia.
  - exact H.
Qed.

Lemma chunk_text_tiles_clean_text_witness :
  Props.tiles (String.length (Ingest.clean_text "Hello   world. This is a test."))
    5 0
    [(0, 12, "Hello world."); (7, 27, "orld. This is a test"); (22, 28, "test.")].
Proof.
  apply (chunk_text_tiles_clean_text 10 "Hello   world. This is a test." 20 5).
  - lia.
  - lia.
  - vm_compute. discriminate.
  - reflexivity.
Defined.

Lemma search_scores_descending_witness :
  StronglySorted Rge
    (map Retriever.score
       (Retriever.search Lib.insertion_argsort
          (Retriever._load Lib.overlap_scorer 0.65
             (Some [Examples.q2_chunk; Examples.q1_chunk]))
          Examples.question 5)).
Proof.
  apply (search_scores_descending Lib.insertion_argsort insertion_argsort_sorts).
Defined.
